(** * MoodPet backend (backend/server.py): pet progression and mood influence

    A shallow embedding of the request handlers of [backend/server.py]
    over an explicit model of the MongoDB collections they read and write,
    followed by the properties of the pet progression rules.

    Representation choices:
    - Python [int] is [Z] (unbounded).  The store holds integers of at
      most 8 bytes: the driver refuses to encode any other
      ([OverflowError]) and the store refuses an increment that leaves
      them ([WriteError]); in both cases nothing is written.
    - A MongoDB document is a finite map from field names to values
      ([gmap string value]); a collection is the list of its documents in
      insertion order.  The store-generated [_id] field is left out: no
      handler reads it and the response models drop it.
    - A [datetime] is identified with its ISO-8601 text, so that
      [prepare_for_mongo] and [parse_from_mongo] are the identity on the
      representation.
    - [uuid.uuid4()] and [datetime.now()] are answers of the environment;
      every request carries the answers it receives ([env]).
    - A handler is a computation in a state-and-exception monad over the
      store: writes made before an exception is raised persist. *)

From stdpp Require Import gmap strings list fin_maps relations sorting pretty.
From Stdlib Require Import ZArith Lia.

Open Scope string_scope.
Open Scope Z_scope.

(** ** Values and documents *)

Inductive value :=
  | VNone
  | VBool (b : bool)
  | VInt (z : Z)
  | VStr (s : string).

#[global] Instance value_eq_dec : EqDecision value.
Proof. solve_decision. Defined.

Abbreviation doc := (gmap string value).

(** ** Integers of the store

    The driver writes a Python [int] as a signed integer of 4 or of 8
    bytes and raises [OverflowError] for one that needs more, before
    anything is sent to the store. *)
Definition int64_min : Z := -9223372036854775808.
Definition int64_max : Z := 9223372036854775807.

Definition int64 (z : Z) : bool := (int64_min <=? z) && (z <=? int64_max).

Definition encodes (v : value) : bool :=
  match v with
  | VInt z => int64 z
  | _ => true
  end.

(** Every value of the document can be written. *)
Definition encodable (d : doc) : bool :=
  bool_decide (map_Forall (λ _ v, encodes v = true) d).

(** ** Exceptions and the handler monad *)

Inductive exn :=
  | HTTPException (status_code : Z) (detail : string)
  | ValidationError
  | TypeError
  | OverflowError
  | WriteError.

#[global] Instance exn_eq_dec : EqDecision exn.
Proof. solve_decision. Defined.

Inductive result (A : Type) :=
  | Ok (a : A)
  | Raise (e : exn).
Arguments Ok {A} a.
Arguments Raise {A} e.

Definition result_bind {A B} (r : result A) (k : A → result B) : result B :=
  match r with
  | Ok a => k a
  | Raise e => Raise e
  end.

Definition result_map {A B} (f : A → B) (r : result A) : result B :=
  result_bind r (λ a, Ok (f a)).

(** The four collections of the database. *)
Record DB := mkDB {
  pets : list doc;
  mood_entries : list doc;
  shop_items : list doc;
  achievements : list doc
}.

Definition empty_db : DB := mkDB [] [] [] [].

Definition M (A : Type) : Type := DB → result A * DB.

Definition ret {A} (a : A) : M A := λ db, (Ok a, db).
Definition raise {A} (e : exn) : M A := λ db, (Raise e, db).
Definition bind {A B} (m : M A) (k : A → M B) : M B :=
  λ db, match m db with
        | (Ok a, db') => k a db'
        | (Raise e, db') => (Raise e, db')
        end.
Definition lift {A} (r : result A) : M A := λ db, (r, db).

Declare Scope handler_scope.
Delimit Scope handler_scope with handler.
Notation "x <- m ;; k" := (bind m (λ x, k))
  (at level 100, m at next level, right associativity) : handler_scope.
Notation "m ;;; k" := (bind m (λ _, k))
  (at level 100, right associativity) : handler_scope.
Notation "x <~ r ;; k" := (result_bind r (λ x, k))
  (at level 100, r at next level, right associativity) : handler_scope.
Open Scope handler_scope.

(** ** The document store *)

(** [{"key": v}] as a query filter: the field is present and equal. *)
Definition matches (key : string) (v : value) (d : doc) : bool :=
  bool_decide (d !! key = Some v).

(** [collection.find_one({key: v})]: the first matching document. *)
Fixpoint find_one (key : string) (v : value) (c : list doc) : option doc :=
  match c with
  | [] => None
  | d :: c' => if matches key v d then Some d else find_one key v c'
  end.

(** [collection.find({key: v})] and [collection.find()]. *)
Definition find (key : string) (v : value) (c : list doc) : list doc :=
  List.filter (matches key v) c.

(** [cursor.to_list(n)]. *)
Definition to_list (n : nat) (c : list doc) : list doc := take n c.

(** [collection.insert_one(d)]. *)
Definition insert_one (d : doc) (c : list doc) : list doc := c ++ [d].

(** [{"$set": upd}]: the fields of [upd] overwrite those of the document. *)
Definition set_fields (upd : doc) (d : doc) : doc := upd ∪ d.

(** [{"$inc": {key: n}}] on one field: an absent field is created with
    the amount, an integer field is increased when the sum is an integer
    of 8 bytes; a sum beyond and a value of any other type are refused by
    the store. *)
Definition inc_field (key : string) (n : Z) (d : doc) : option doc :=
  match d !! key with
  | None => Some (<[key := VInt n]> d)
  | Some (VInt z) =>
      if int64 (z + n) then Some (<[key := VInt (z + n)]> d) else None
  | Some _ => None
  end.

(** An update document [{"$set": s, "$inc": i}]; the fields of [$inc]
    come with their amounts and are none when the operator is absent. *)
Record update := mkUpdate {
  upd_set : doc;
  upd_inc : list (string * Z)
}.

(** The update as the store applies it to the document it matched: as a
    whole or not at all. *)
Definition apply_update (u : update) (d : doc) : option doc :=
  foldl (λ acc kn, d' ← acc; inc_field kn.1 kn.2 d')
        (Some (set_fields (upd_set u) d)) (upd_inc u).

(** The driver can write every integer of the update document. *)
Definition update_encodable (u : update) : bool :=
  encodable (upd_set u) && forallb (λ kn, int64 kn.2) (upd_inc u).

(** [collection.update_one({key: v}, u)]: the first matching document is
    replaced by its update; no match is not an error, a refused update
    leaves the collection as it is and raises. *)
Fixpoint update_one (key : string) (v : value) (u : doc → option doc)
    (c : list doc) : option (list doc) :=
  match c with
  | [] => Some []
  | d :: c' =>
      if matches key v d then
        match u d with
        | Some d' => Some (d' :: c')
        | None => None
        end
      else
        match update_one key v u c' with
        | Some c'' => Some (d :: c'')
        | None => None
        end
  end.

(** ** Python expressions on values *)

(** A value used as an operand of [+]: [bool] is a subclass of [int]. *)
Definition as_int (v : value) : result Z :=
  match v with
  | VInt z => Ok z
  | VBool b => Ok (if b then 1 else 0)
  | _ => Raise TypeError
  end.

(** [d.get(key, default)]. *)
Definition get (d : doc) (key : string) (default : value) : value :=
  match d !! key with
  | Some v => v
  | None => default
  end.

(** [d.get(key, default) + n]. *)
Definition get_plus (d : doc) (key : string) (default n : Z) : result Z :=
  result_map (λ z, z + n) (as_int (get d key (VInt default))).

(** Python's [min] and [max] on two integers. *)
Definition py_min (a b : Z) : Z := Z.min a b.
Definition py_max (a b : Z) : Z := Z.max a b.

(** Python's [a // b]: the quotient rounded toward minus infinity, which
    is [Z.div]. *)
Definition floordiv (a b : Z) : Z := a / b.

(** ** Enums *)

Inductive Emotion := HAPPY | SAD | ANGRY | ANXIOUS | CALM | EXCITED.

#[global] Instance Emotion_eq_dec : EqDecision Emotion.
Proof. solve_decision. Defined.

Definition Emotion_value (e : Emotion) : string :=
  match e with
  | HAPPY => "happy"
  | SAD => "sad"
  | ANGRY => "angry"
  | ANXIOUS => "anxious"
  | CALM => "calm"
  | EXCITED => "excited"
  end.

Definition Emotion_of (s : string) : option Emotion :=
  List.find (λ e, bool_decide (Emotion_value e = s))
            [HAPPY; SAD; ANGRY; ANXIOUS; CALM; EXCITED].

Inductive PetStage := EGG | BABY | ADULT | LEGENDARY.

#[global] Instance PetStage_eq_dec : EqDecision PetStage.
Proof. solve_decision. Defined.

Definition PetStage_value (s : PetStage) : string :=
  match s with
  | EGG => "egg"
  | BABY => "baby"
  | ADULT => "adult"
  | LEGENDARY => "legendary"
  end.

Definition PetStage_of (s : string) : option PetStage :=
  List.find (λ st, bool_decide (PetStage_value st = s))
            [EGG; BABY; ADULT; LEGENDARY].

(** ** The environment of one request *)

(** [now] is the answer of [datetime.now(timezone.utc)] as ISO text and
    [uuid4 i] the text of the i-th identifier drawn during the request. *)
Record env := mkEnv {
  now : string;
  uuid4 : nat → string
}.

(** ** Models *)

Record Pet := mkPet {
  pet_id : string;
  pet_name : string;
  pet_stage : PetStage;
  pet_happiness : Z;
  pet_health : Z;
  pet_coins : Z;
  pet_experience : Z;
  pet_last_fed : option string;
  pet_last_played : option string;
  pet_last_trained : option string;
  pet_created_at : string
}.

Record PetCreate := mkPetCreate {
  pc_name : string
}.

Record PetUpdate := mkPetUpdate {
  pu_name : option string;
  pu_happiness : option Z;
  pu_health : option Z;
  pu_coins : option Z
}.

Record MoodEntry := mkMoodEntry {
  me_id : string;
  me_emotion : Emotion;
  me_intensity : Z;
  me_note : option string;
  me_timestamp : string;
  me_pet_id : string
}.

Record MoodEntryCreate := mkMoodEntryCreate {
  mc_emotion : Emotion;
  mc_intensity : Z;
  mc_note : option string;
  mc_pet_id : string
}.

Record Achievement := mkAchievement {
  ach_id : string;
  ach_name : string;
  ach_description : string;
  ach_icon : string;
  ach_unlocked : bool;
  ach_unlocked_at : option string;
  ach_pet_id : string
}.

Record ShopItem := mkShopItem {
  si_id : string;
  si_name : string;
  si_description : string;
  si_price : Z;
  si_category : string;
  si_icon : string
}.

(** *** [model.dict()] *)

Definition opt_str (o : option string) : value :=
  match o with
  | Some s => VStr s
  | None => VNone
  end.

Definition opt_int (o : option Z) : value :=
  match o with
  | Some z => VInt z
  | None => VNone
  end.

Definition Pet_dict (p : Pet) : doc :=
  <["id" := VStr (pet_id p)]> (
  <["name" := VStr (pet_name p)]> (
  <["stage" := VStr (PetStage_value (pet_stage p))]> (
  <["happiness" := VInt (pet_happiness p)]> (
  <["health" := VInt (pet_health p)]> (
  <["coins" := VInt (pet_coins p)]> (
  <["experience" := VInt (pet_experience p)]> (
  <["last_fed" := opt_str (pet_last_fed p)]> (
  <["last_played" := opt_str (pet_last_played p)]> (
  <["last_trained" := opt_str (pet_last_trained p)]> (
  <["created_at" := VStr (pet_created_at p)]> ∅)))))))))).

Definition PetUpdate_dict (u : PetUpdate) : doc :=
  <["name" := opt_str (pu_name u)]> (
  <["happiness" := opt_int (pu_happiness u)]> (
  <["health" := opt_int (pu_health u)]> (
  <["coins" := opt_int (pu_coins u)]> ∅))).

Definition MoodEntry_dict (m : MoodEntry) : doc :=
  <["id" := VStr (me_id m)]> (
  <["emotion" := VStr (Emotion_value (me_emotion m))]> (
  <["intensity" := VInt (me_intensity m)]> (
  <["note" := opt_str (me_note m)]> (
  <["timestamp" := VStr (me_timestamp m)]> (
  <["pet_id" := VStr (me_pet_id m)]> ∅))))).

Definition Achievement_dict (a : Achievement) : doc :=
  <["id" := VStr (ach_id a)]> (
  <["name" := VStr (ach_name a)]> (
  <["description" := VStr (ach_description a)]> (
  <["icon" := VStr (ach_icon a)]> (
  <["unlocked" := VBool (ach_unlocked a)]> (
  <["unlocked_at" := opt_str (ach_unlocked_at a)]> (
  <["pet_id" := VStr (ach_pet_id a)]> ∅)))))).

Definition ShopItem_dict (i : ShopItem) : doc :=
  <["id" := VStr (si_id i)]> (
  <["name" := VStr (si_name i)]> (
  <["description" := VStr (si_description i)]> (
  <["price" := VInt (si_price i)]> (
  <["category" := VStr (si_category i)]> (
  <["icon" := VStr (si_icon i)]> ∅))))).

(** *** Building a model from the fields of a document

    A field that is absent takes the model's default, a required field
    that is absent or a value of another type is a [ValidationError]; the
    coercions of the validation library between types (a numeric string
    for an [int], say) are not modelled.  Extra fields are ignored. *)

Definition field_str (d : doc) (key : string) (default : option string)
    : result string :=
  match d !! key, default with
  | Some (VStr s), _ => Ok s
  | None, Some s => Ok s
  | _, _ => Raise ValidationError
  end.

Definition field_int (d : doc) (key : string) (default : option Z)
    : result Z :=
  match d !! key, default with
  | Some (VInt z), _ => Ok z
  | Some (VBool b), _ => Ok (if b then 1 else 0)
  | None, Some z => Ok z
  | _, _ => Raise ValidationError
  end.

Definition field_bool (d : doc) (key : string) (default : bool)
    : result bool :=
  match d !! key with
  | Some (VBool b) => Ok b
  | None => Ok default
  | _ => Raise ValidationError
  end.

(** [Optional[str]] and [Optional[datetime]], default [None]. *)
Definition field_opt_str (d : doc) (key : string) : result (option string) :=
  match d !! key with
  | Some (VStr s) => Ok (Some s)
  | Some VNone | None => Ok None
  | _ => Raise ValidationError
  end.

Definition field_stage (d : doc) : result PetStage :=
  match d !! "stage" with
  | Some (VStr s) =>
      match PetStage_of s with
      | Some st => Ok st
      | None => Raise ValidationError
      end
  | None => Ok EGG
  | _ => Raise ValidationError
  end.

Definition field_emotion (d : doc) : result Emotion :=
  match d !! "emotion" with
  | Some (VStr s) =>
      match Emotion_of s with
      | Some e => Ok e
      | None => Raise ValidationError
      end
  | _ => Raise ValidationError
  end.

(** [intensity: int = Field(default=5, ge=1, le=10)]. *)
Definition check_intensity (i : Z) : result Z :=
  if bool_decide (1 ≤ i ∧ i ≤ 10) then Ok i else Raise ValidationError.

(** [fresh] and [t] are what the default factories of [id] and of
    [created_at] return; they are used only when the field is absent. *)
Definition Pet_of (fresh t : string) (d : doc) : result Pet :=
  id <~ field_str d "id" (Some fresh) ;;
  name <~ field_str d "name" (Some "MoodPet") ;;
  stage <~ field_stage d ;;
  happiness <~ field_int d "happiness" (Some 50) ;;
  health <~ field_int d "health" (Some 100) ;;
  coins <~ field_int d "coins" (Some 100) ;;
  experience <~ field_int d "experience" (Some 0) ;;
  last_fed <~ field_opt_str d "last_fed" ;;
  last_played <~ field_opt_str d "last_played" ;;
  last_trained <~ field_opt_str d "last_trained" ;;
  created_at <~ field_str d "created_at" (Some t) ;;
  Ok (mkPet id name stage happiness health coins experience
            last_fed last_played last_trained created_at).

Definition MoodEntry_of (fresh t : string) (d : doc) : result MoodEntry :=
  id <~ field_str d "id" (Some fresh) ;;
  emotion <~ field_emotion d ;;
  intensity <~ field_int d "intensity" (Some 5) ;;
  intensity <~ check_intensity intensity ;;
  note <~ field_opt_str d "note" ;;
  timestamp <~ field_str d "timestamp" (Some t) ;;
  pet_id <~ field_str d "pet_id" None ;;
  Ok (mkMoodEntry id emotion intensity note timestamp pet_id).

Definition Achievement_of (fresh : string) (d : doc) : result Achievement :=
  id <~ field_str d "id" (Some fresh) ;;
  name <~ field_str d "name" None ;;
  description <~ field_str d "description" None ;;
  icon <~ field_str d "icon" None ;;
  unlocked <~ field_bool d "unlocked" false ;;
  unlocked_at <~ field_opt_str d "unlocked_at" ;;
  pet_id <~ field_str d "pet_id" None ;;
  Ok (mkAchievement id name description icon unlocked unlocked_at pet_id).

Definition ShopItem_of (fresh : string) (d : doc) : result ShopItem :=
  id <~ field_str d "id" (Some fresh) ;;
  name <~ field_str d "name" None ;;
  description <~ field_str d "description" None ;;
  price <~ field_int d "price" None ;;
  category <~ field_str d "category" None ;;
  icon <~ field_str d "icon" None ;;
  Ok (mkShopItem id name description price category icon).

(** A list comprehension building a model from every document: the first failure
    is raised.  The i-th element may draw the i-th identifier. *)
Fixpoint parse_all {A} (f : nat → doc → result A) (i : nat) (ds : list doc)
    : result (list A) :=
  match ds with
  | [] => Ok []
  | d :: ds' =>
      a <~ f i d ;;
      rest <~ parse_all f (S i) ds' ;;
      Ok (a :: rest)
  end.

(** ** Helper functions of the source

    With a [datetime] identified with its ISO text both conversions leave
    the representation of a document as it is. *)
Definition prepare_for_mongo (data : doc) : doc := data.
Definition parse_from_mongo (item : doc) : doc := item.

(** ** Store operations as handler steps *)

Inductive collection := Pets | Mood_entries | Shop_items | Achievements.

Definition coll_get (c : collection) (db : DB) : list doc :=
  match c with
  | Pets => pets db
  | Mood_entries => mood_entries db
  | Shop_items => shop_items db
  | Achievements => achievements db
  end.

Definition coll_set (c : collection) (l : list doc) (db : DB) : DB :=
  match c with
  | Pets => mkDB l (mood_entries db) (shop_items db) (achievements db)
  | Mood_entries => mkDB (pets db) l (shop_items db) (achievements db)
  | Shop_items => mkDB (pets db) (mood_entries db) l (achievements db)
  | Achievements => mkDB (pets db) (mood_entries db) (shop_items db) l
  end.

Definition db_find_one (c : collection) (key : string) (v : value)
    : M (option doc) :=
  λ db, (Ok (find_one key v (coll_get c db)), db).

Definition db_find_all (c : collection) (n : nat) : M (list doc) :=
  λ db, (Ok (to_list n (coll_get c db)), db).

Definition db_find (c : collection) (key : string) (v : value) (n : nat)
    : M (list doc) :=
  λ db, (Ok (to_list n (find key v (coll_get c db))), db).

(** The documents the routes insert hold the defaults of the models and
    a validated intensity: integers the driver can write. *)
Definition db_insert_one (c : collection) (d : doc) : M unit :=
  λ db, (Ok tt, coll_set c (insert_one d (coll_get c db)) db).

(** [collection.update_one({key: v}, u)]: the driver encodes the update
    document first and raises [OverflowError] for an integer beyond 8
    bytes, whether a document matches or not; an update the store refuses
    is a [WriteError].  Either way the collection is as before. *)
Definition db_update_one (c : collection) (key : string) (v : value)
    (u : update) : M unit :=
  λ db, if update_encodable u then
          match update_one key v (apply_update u) (coll_get c db) with
          | Some l => (Ok tt, coll_set c l db)
          | None => (Raise WriteError, db)
          end
        else (Raise OverflowError, db).

(** The order of the store on values of different types: null (and an
    absent field), numbers, strings, booleans. *)
Definition value_rank (v : option value) : Z :=
  match v with
  | None | Some VNone => 0
  | Some (VInt _) => 1
  | Some (VStr _) => 2
  | Some (VBool _) => 3
  end.

Definition value_leb (a b : option value) : bool :=
  match a, b with
  | Some (VInt x), Some (VInt y) => x <=? y
  | Some (VStr x), Some (VStr y) => String.leb x y
  | Some (VBool x), Some (VBool y) => implb x y
  | _, _ => value_rank a <=? value_rank b
  end.

(** [a] may stand before [b] in descending order of the key. *)
Definition before_desc (key : string) (a b : doc) : Prop :=
  value_leb (b !! key) (a !! key) = true.

#[global] Instance before_desc_dec key a b : Decision (before_desc key a b).
Proof. unfold before_desc. apply _. Defined.

(** [d] is put before the first document whose key is not greater: it
    stands behind the greater keys and before the equal ones. *)
Fixpoint insert_desc (key : string) (d : doc) (c : list doc) : list doc :=
  match c with
  | [] => [d]
  | x :: c' =>
      if value_leb (x !! key) (d !! key) then d :: x :: c'
      else x :: insert_desc key d c'
  end.

(** [cursor.sort(key, -1)]: descending; documents with equal keys keep
    the order of the collection. *)
Definition sort_desc (key : string) (c : list doc) : list doc :=
  foldr (insert_desc key) [] c.

(** ** Pet routes *)

Definition not_found {A} : M A := raise (HTTPException 404 "Pet not found").

(** [Pet(name=pet_data.name)]: the defaults of the model. *)
Definition Pet_new (e : env) (name : string) : Pet :=
  mkPet (uuid4 e 0) name EGG 50 100 100 0 None None None (now e).

Definition create_pet (e : env) (pet_data : PetCreate) : M Pet :=
  let pet_dict := Pet_dict (Pet_new e (pc_name pet_data)) in
  let pet_dict := prepare_for_mongo pet_dict in
  db_insert_one Pets pet_dict ;;;
  lift (Pet_of (uuid4 e 1) (now e) (parse_from_mongo pet_dict)).

(** A document returned by the store is never empty, so [not pet] holds
    exactly when [find_one] returned [None]. *)
Definition get_pet (e : env) (pet_id : string) : M Pet :=
  pet <- db_find_one Pets "id" (VStr pet_id) ;;
  match pet with
  | None => not_found
  | Some pet => lift (Pet_of (uuid4 e 0) (now e) (parse_from_mongo pet))
  end.

Definition get_all_pets (e : env) : M (list Pet) :=
  pets <- db_find_all Pets 1000 ;;
  lift (parse_all (λ i pet, Pet_of (uuid4 e i) (now e) (parse_from_mongo pet))
                  0 pets).

(** The fields of the update that are not [None]. *)
Definition update_data_of (pet_update : PetUpdate) : doc :=
  filter (λ kv, kv.2 ≠ VNone) (PetUpdate_dict pet_update).

Definition update_pet (e : env) (pet_id : string) (pet_update : PetUpdate)
    : M Pet :=
  let update_data := update_data_of pet_update in
  (if bool_decide (update_data ≠ ∅) then
     db_update_one Pets "id" (VStr pet_id) (mkUpdate update_data [])
   else ret tt) ;;;
  pet <- db_find_one Pets "id" (VStr pet_id) ;;
  match pet with
  | None => not_found
  | Some pet => lift (Pet_of (uuid4 e 0) (now e) (parse_from_mongo pet))
  end.

(** ** Pet actions *)

(** The common tail of the three actions: write the updates, read the
    pet again and answer with the message and the pet.  [Pet] applied to
    [None] (no document any more) is a [TypeError]. *)
Definition apply_updates (e : env) (pet_id : string) (updates : doc)
    (message : string) : M (string * Pet) :=
  db_update_one Pets "id" (VStr pet_id) (mkUpdate updates []) ;;;
  updated_pet <- db_find_one Pets "id" (VStr pet_id) ;;
  match updated_pet with
  | None => raise TypeError
  | Some updated_pet =>
      p <- lift (Pet_of (uuid4 e 0) (now e) (parse_from_mongo updated_pet)) ;;
      ret (message, p)
  end.

(** The [updates] dictionary of [feed_pet], from the pet that was read
    and the time of the request. *)
Definition feed_updates (now : string) (pet : doc) : result doc :=
  happiness <~ get_plus pet "happiness" 50 15 ;;
  health <~ get_plus pet "health" 100 10 ;;
  coins <~ get_plus pet "coins" 100 5 ;;
  experience <~ get_plus pet "experience" 0 10 ;;
  Ok (<["happiness" := VInt (py_min 100 happiness)]> (
      <["health" := VInt (py_min 100 health)]> (
      <["coins" := VInt coins]> (
      <["experience" := VInt experience]> (
      <["last_fed" := VStr now]> ∅))))).

Definition feed_pet (e : env) (pet_id : string) : M (string * Pet) :=
  pet <- db_find_one Pets "id" (VStr pet_id) ;;
  match pet with
  | None => not_found
  | Some pet =>
      updates <- lift (feed_updates (now e) pet) ;;
      apply_updates e pet_id updates "Pet fed successfully!"
  end.

Definition play_updates (now : string) (pet : doc) : result doc :=
  happiness <~ get_plus pet "happiness" 50 20 ;;
  coins <~ get_plus pet "coins" 100 8 ;;
  experience <~ get_plus pet "experience" 0 15 ;;
  Ok (<["happiness" := VInt (py_min 100 happiness)]> (
      <["coins" := VInt coins]> (
      <["experience" := VInt experience]> (
      <["last_played" := VStr now]> ∅)))).

Definition play_with_pet (e : env) (pet_id : string) : M (string * Pet) :=
  pet <- db_find_one Pets "id" (VStr pet_id) ;;
  match pet with
  | None => not_found
  | Some pet =>
      updates <- lift (play_updates (now e) pet) ;;
      apply_updates e pet_id updates "Had fun playing!"
  end.

(** The evolution check of [train_pet]: a chain of [if]/[elif] on the
    updated experience and the stage the pet had when it was read. *)
Definition evolve (experience : Z) (current_stage : value) (updates : doc)
    : doc :=
  if (experience >=? 300) && bool_decide (current_stage = VStr "adult")
  then <["stage" := VStr "legendary"]> updates
  else if (experience >=? 150) && bool_decide (current_stage = VStr "baby")
  then <["stage" := VStr "adult"]> updates
  else if (experience >=? 50) && bool_decide (current_stage = VStr "egg")
  then <["stage" := VStr "baby"]> updates
  else updates.

Definition train_updates (now : string) (pet : doc) : result doc :=
  happiness <~ get_plus pet "happiness" 50 10 ;;
  health <~ get_plus pet "health" 100 5 ;;
  coins <~ get_plus pet "coins" 100 12 ;;
  experience <~ get_plus pet "experience" 0 25 ;;
  let updates : doc :=
    <["happiness" := VInt (py_min 100 happiness)]> (
    <["health" := VInt (py_min 100 health)]> (
    <["coins" := VInt coins]> (
    <["experience" := VInt experience]> (
    <["last_trained" := VStr now]> ∅)))) in
  let current_stage := get pet "stage" (VStr "egg") in
  Ok (evolve experience current_stage updates).

Definition train_pet (e : env) (pet_id : string) : M (string * Pet) :=
  pet <- db_find_one Pets "id" (VStr pet_id) ;;
  match pet with
  | None => not_found
  | Some pet =>
      updates <- lift (train_updates (now e) pet) ;;
      apply_updates e pet_id updates "Training completed!"
  end.

(** ** Mood routes *)

(** [MoodEntry] built from the fields of [mood_data]: the identifier and
    the timestamp come from the default factories, the intensity is
    validated against the bounds of the field. *)
Definition MoodEntry_new (e : env) (mood_data : MoodEntryCreate)
    : result MoodEntry :=
  intensity <~ check_intensity (mc_intensity mood_data) ;;
  Ok (mkMoodEntry (uuid4 e 0) (mc_emotion mood_data) intensity
                  (mc_note mood_data) (now e) (mc_pet_id mood_data)).

(** The change of happiness of a logged mood.  The unary minus binds
    tighter than [//]: the negated intensity is divided. *)
Definition happiness_change (emotion : Emotion) (intensity : Z) : Z :=
  if bool_decide (emotion ∈ [HAPPY; EXCITED; CALM]) then intensity
  else if bool_decide (emotion ∈ [SAD; ANGRY; ANXIOUS])
       then floordiv (- intensity) 2
       else 0.

(** The update of the pet of a logged mood: [$set] of the happiness and
    [$inc] of coins and experience, applied as one update. *)
Definition mood_update (new_happiness coins_earned : Z) : update :=
  mkUpdate (<["happiness" := VInt new_happiness]> ∅)
           [("coins", coins_earned); ("experience", 5)].

Definition create_mood_entry (e : env) (mood_data : MoodEntryCreate)
    : M MoodEntry :=
  entry <- lift (MoodEntry_new e mood_data) ;;
  let mood_dict := MoodEntry_dict entry in
  let mood_dict := prepare_for_mongo mood_dict in
  db_insert_one Mood_entries mood_dict ;;;
  pet <- db_find_one Pets "id" (VStr (mc_pet_id mood_data)) ;;
  (match pet with
   | Some pet =>
       let happiness_change :=
         happiness_change (mc_emotion mood_data) (mc_intensity mood_data) in
       happiness <- lift (get_plus pet "happiness" 50 happiness_change) ;;
       let new_happiness := py_max 0 (py_min 100 happiness) in
       let coins_earned := 10 + mc_intensity mood_data in
       db_update_one Pets "id" (VStr (mc_pet_id mood_data))
                     (mood_update new_happiness coins_earned)
   | None => ret tt
   end) ;;;
  lift (MoodEntry_of (uuid4 e 1) (now e) (parse_from_mongo mood_dict)).

Definition get_mood_entries (e : env) (pet_id : string) : M (list MoodEntry) :=
  λ db,
    let moods :=
      to_list 100 (sort_desc "timestamp"
                     (find "pet_id" (VStr pet_id) (mood_entries db))) in
    (parse_all (λ i mood, MoodEntry_of (uuid4 e i) (now e)
                            (parse_from_mongo mood)) 0 moods, db).

(** ** Shop routes *)

Definition item_data (name description : string) (price : Z)
    (category icon : string) : doc :=
  <["name" := VStr name]> (
  <["description" := VStr description]> (
  <["price" := VInt price]> (
  <["category" := VStr category]> (
  <["icon" := VStr icon]> ∅)))).

Definition default_items : list doc := [
  item_data "Premium Food" "Increases happiness by 25" 50 "food" "🍖";
  item_data "Toy Ball" "Fun toy for playing" 30 "toy" "🏀";
  item_data "Training Weights" "Boosts training effectiveness" 75
            "training" "🏋️";
  item_data "Sparkle Background" "Beautiful starry background" 100
            "background" "✨";
  item_data "Rainbow Collar" "Colorful pet accessory" 60 "accessory" "🌈"
].

(** A [for] loop over a list; [i] counts the iterations. *)
Fixpoint for_each {A} (body : nat → A → M unit) (i : nat) (l : list A)
    : M unit :=
  match l with
  | [] => ret tt
  | a :: l' => body i a ;;; for_each body (S i) l'
  end.

Definition get_shop_items (e : env) : M (list ShopItem) :=
  existing_items <- db_find_all Shop_items 100 ;;
  existing_items <-
    (match existing_items with
     | [] =>
         for_each (λ i item_data,
                     item <- lift (ShopItem_of (uuid4 e i) item_data) ;;
                     db_insert_one Shop_items (ShopItem_dict item))
                  0 default_items ;;;
         db_find_all Shop_items 100
     | _ => ret existing_items
     end) ;;
  lift (parse_all (λ i item, ShopItem_of (uuid4 e i) item) 0 existing_items).

(** ** Achievements *)

Definition ach_data (name description icon : string) : doc :=
  <["name" := VStr name]> (
  <["description" := VStr description]> (
  <["icon" := VStr icon]> ∅)).

Definition default_achievements : list doc := [
  ach_data "First Steps" "Create your first pet" "🐣";
  ach_data "Mood Tracker" "Log 10 mood entries" "📊";
  ach_data "Happy Pet" "Reach 100 happiness" "😊";
  ach_data "Evolution Master" "Evolve to Adult stage" "🌟";
  ach_data "Coin Collector" "Earn 500 coins" "💰"
].

Definition get_achievements (e : env) (pet_id : string)
    : M (list Achievement) :=
  achievements <- db_find Achievements "pet_id" (VStr pet_id) 100 ;;
  achievements <-
    (match achievements with
     | [] =>
         for_each (λ i ach_data,
                     achievement <-
                       lift (Achievement_of (uuid4 e i)
                               (<["pet_id" := VStr pet_id]> ach_data)) ;;
                     db_insert_one Achievements (Achievement_dict achievement))
                  0 default_achievements ;;;
         db_find Achievements "pet_id" (VStr pet_id) 100
     | _ => ret achievements
     end) ;;
  lift (parse_all (λ i ach, Achievement_of (uuid4 e i) (parse_from_mongo ach))
                  0 achievements).

(** ** The routes of the API *)

Inductive request :=
  | POST_pets (pet_data : PetCreate)
  | GET_pet (pet_id : string)
  | GET_pets
  | PUT_pet (pet_id : string) (pet_update : PetUpdate)
  | POST_feed (pet_id : string)
  | POST_play (pet_id : string)
  | POST_train (pet_id : string)
  | POST_moods (mood_data : MoodEntryCreate)
  | GET_moods (pet_id : string)
  | GET_shop
  | GET_achievements (pet_id : string).

(** The store after a request has been served. *)
Definition serve (e : env) (r : request) (db : DB) : DB :=
  match r with
  | POST_pets pet_data => (create_pet e pet_data db).2
  | GET_pet pet_id => (get_pet e pet_id db).2
  | GET_pets => (get_all_pets e db).2
  | PUT_pet pet_id pet_update => (update_pet e pet_id pet_update db).2
  | POST_feed pet_id => (feed_pet e pet_id db).2
  | POST_play pet_id => (play_with_pet e pet_id db).2
  | POST_train pet_id => (train_pet e pet_id db).2
  | POST_moods mood_data => (create_mood_entry e mood_data db).2
  | GET_moods pet_id => (get_mood_entries e pet_id db).2
  | GET_shop => (get_shop_items e db).2
  | GET_achievements pet_id => (get_achievements e pet_id db).2
  end.

(** A session: requests served one after the other, each with the
    answers of its environment. *)
Definition serve_all (rs : list (env * request)) (db : DB) : DB :=
  foldl (λ db er, serve er.1 er.2 db) db rs.


(** ** Observations used in the statements *)

(** A numeric field as the handlers read it: [pet.get(key, default)]. *)
Definition stat (d : doc) (key : string) (default : Z) : result Z :=
  as_int (get d key (VInt default)).

(** The stage as [train_pet] reads it. *)
Definition stage_of (d : doc) : value := get d "stage" (VStr "egg").

(** Happiness and health are both within [0,100]. *)
Definition in_range (d : doc) : Prop :=
  ∃ h he, stat d "happiness" 50 = Ok h ∧ stat d "health" 100 = Ok he ∧
          0 ≤ h ≤ 100 ∧ 0 ≤ he ≤ 100.

(** One step forward along egg, baby, adult, legendary. *)
Inductive next_stage : value → value → Prop :=
  | egg_baby : next_stage (VStr "egg") (VStr "baby")
  | baby_adult : next_stage (VStr "baby") (VStr "adult")
  | adult_legendary : next_stage (VStr "adult") (VStr "legendary").

(** An advance of the stage together with the experience it needs. *)
Inductive advance : value → Z → value → Prop :=
  | advance_egg x : 50 ≤ x → advance (VStr "egg") x (VStr "baby")
  | advance_baby x : 150 ≤ x → advance (VStr "baby") x (VStr "adult")
  | advance_adult x : 300 ≤ x → advance (VStr "adult") x (VStr "legendary").


(** The three pet actions. *)
Definition is_action (r : request) : Prop :=
  match r with
  | POST_feed _ | POST_play _ | POST_train _ => True
  | _ => False
  end.

Definition pet_by_id (pet_id : string) (db : DB) : option doc :=
  find_one "id" (VStr pet_id) (pets db).

(** The shape the three actions share. *)
Definition pet_action (updates_of : doc → result doc) (message : string)
    (e : env) (pet_id : string) : M (string * Pet) :=
  pet <- db_find_one Pets "id" (VStr pet_id) ;;
  match pet with
  | None => not_found
  | Some pet =>
      updates <- lift (updates_of pet) ;;
      apply_updates e pet_id updates message
  end.

(** *** The action table and the progression rule, as the specification
    words them

    The pet as the API shows it after an action, from the pet as the API
    shows it before: the deltas of the table of the action handlers, with
    happiness and health bounded above by 100, and for [train] the
    priority chain of the progression engine. *)

Definition fed (now : string) (p : Pet) : Pet :=
  mkPet (pet_id p) (pet_name p) (pet_stage p)
        (Z.min 100 (pet_happiness p + 15)) (Z.min 100 (pet_health p + 10))
        (pet_coins p + 5) (pet_experience p + 10)
        (Some now) (pet_last_played p) (pet_last_trained p)
        (pet_created_at p).

Definition played (now : string) (p : Pet) : Pet :=
  mkPet (pet_id p) (pet_name p) (pet_stage p)
        (Z.min 100 (pet_happiness p + 20)) (pet_health p)
        (pet_coins p + 8) (pet_experience p + 15)
        (pet_last_fed p) (Some now) (pet_last_trained p)
        (pet_created_at p).

Definition progression (current : PetStage) (experience : Z) : PetStage :=
  match current with
  | ADULT => if 300 <=? experience then LEGENDARY else ADULT
  | BABY => if 150 <=? experience then ADULT else BABY
  | EGG => if 50 <=? experience then BABY else EGG
  | LEGENDARY => LEGENDARY
  end.

Definition trained (now : string) (p : Pet) : Pet :=
  mkPet (pet_id p) (pet_name p)
        (progression (pet_stage p) (pet_experience p + 25))
        (Z.min 100 (pet_happiness p + 10)) (Z.min 100 (pet_health p + 5))
        (pet_coins p + 12) (pet_experience p + 25)
        (pet_last_fed p) (pet_last_played p) (Some now)
        (pet_created_at p).

(** The four integers of the pet are integers of 8 bytes: the store can
    hold them. *)
Definition storable (p : Pet) : bool :=
  int64 (pet_happiness p) && int64 (pet_health p) &&
  int64 (pet_coins p) && int64 (pet_experience p).

(** The updates of an action can be written when the pet it leads to
    can be stored. *)
Definition writes (upd_of : doc → result doc) (view : Pet → Pet) : Prop :=
  ∀ f t d p upd, Pet_of f t d = Ok p → upd_of d = Ok upd →
                 storable (view p) = true → encodable upd = true.

(** They cannot be written when the pet can be stored and the pet the
    action leads to cannot. *)
Definition refuses (upd_of : doc → result doc) (view : Pet → Pet) : Prop :=
  ∀ f t d p upd, Pet_of f t d = Ok p → upd_of d = Ok upd →
                 storable p = true → storable (view p) = false →
                 encodable upd = false.

(** The integers an update gives are integers of 8 bytes. *)
Definition update_int64 (u : PetUpdate) : bool :=
  from_option int64 true (pu_happiness u) &&
  from_option int64 true (pu_health u) &&
  from_option int64 true (pu_coins u).

(** An environment for the examples. *)
Definition env0 : env :=
  mkEnv "2024-01-01T00:00:00+00:00" (λ i, "id-" +:+ pretty i).

(** A handler step that leaves the collection of pets as it is. *)
Definition keeps_pets {A} (m : M A) : Prop :=
  ∀ db, pets (m db).2 = pets db.

(** A pet with a happiness below the range, reached through the API. *)
Definition db_low : DB :=
  serve_all [(env0, POST_pets (mkPetCreate "Rex"));
             (env0, PUT_pet "id-0" (mkPetUpdate None (Some (-50)) None None))]
            empty_db.

(** A fresh pet in an empty store. *)
Definition db_rex : DB := serve env0 (POST_pets (mkPetCreate "Rex")) empty_db.




(** Train calls one after the other on one pet: the answers and the
    store after the last. *)
Fixpoint train_times (es : list env) (pet_id : string) (db : DB)
    : list (result (string * Pet)) * DB :=
  match es with
  | [] => ([], db)
  | e :: es' =>
      let (r, db') := train_pet e pet_id db in
      let (rs, db'') := train_times es' pet_id db' in
      (r :: rs, db'')
  end.

(** The default items of the shop with the identifiers drawn for them
    in one request. *)
Definition seeded_items (e : env) : list ShopItem := [
  mkShopItem (uuid4 e 0) "Premium Food" "Increases happiness by 25" 50
             "food" "🍖";
  mkShopItem (uuid4 e 1) "Toy Ball" "Fun toy for playing" 30 "toy" "🏀";
  mkShopItem (uuid4 e 2) "Training Weights" "Boosts training effectiveness" 75
             "training" "🏋️";
  mkShopItem (uuid4 e 3) "Sparkle Background" "Beautiful starry background"
             100 "background" "✨";
  mkShopItem (uuid4 e 4) "Rainbow Collar" "Colorful pet accessory" 60
             "accessory" "🌈"
].

(** A pet document as the API writes it: the four numeric fields are
    present and hold integers. *)
Definition stored_pet (d : doc) : Prop :=
  ∃ h he c x,
    d !! "happiness" = Some (VInt h) ∧ d !! "health" = Some (VInt he) ∧
    d !! "coins" = Some (VInt c) ∧ d !! "experience" = Some (VInt x).

(** An update that writes integers only to the numeric fields. *)
Definition int_update (upd : doc) : Prop :=
  ∀ k, k ∈ ["happiness"; "health"; "coins"; "experience"] →
       upd !! k = None ∨ ∃ z, upd !! k = Some (VInt z).

(** The default achievements of a pet identifier with the identifiers
    drawn for them in one request. *)
Definition seeded_achievements (e : env) (pet_id : string) : list Achievement := [
  mkAchievement (uuid4 e 0) "First Steps" "Create your first pet" "🐣"
                false None pet_id;
  mkAchievement (uuid4 e 1) "Mood Tracker" "Log 10 mood entries" "📊"
                false None pet_id;
  mkAchievement (uuid4 e 2) "Happy Pet" "Reach 100 happiness" "😊"
                false None pet_id;
  mkAchievement (uuid4 e 3) "Evolution Master" "Evolve to Adult stage" "🌟"
                false None pet_id;
  mkAchievement (uuid4 e 4) "Coin Collector" "Earn 500 coins" "💰"
                false None pet_id
].



(** ** Observations for the further properties *)

(** The pet a request writes to, if any. *)
Definition addressed (r : request) : option string :=
  match r with
  | PUT_pet pet_id _ | POST_feed pet_id | POST_play pet_id
  | POST_train pet_id => Some pet_id
  | POST_moods mood_data => Some (mc_pet_id mood_data)
  | _ => None
  end.

(** A handler step that leaves a collection as it is. *)
Definition keeps {A} (c : collection) (m : M A) : Prop :=
  ∀ db, coll_get c (m db).2 = coll_get c db.

(** The collections a route can write. *)
Definition may_write (r : request) (c : collection) : bool :=
  match r, c with
  | POST_pets _, Pets
  | PUT_pet _ _, Pets
  | POST_feed _, Pets
  | POST_play _, Pets
  | POST_train _, Pets
  | POST_moods _, Pets
  | POST_moods _, Mood_entries
  | GET_shop, Shop_items
  | GET_achievements _, Achievements => true
  | _, _ => false
  end.

(** An achievement document that is not unlocked. *)
Definition locked (d : doc) : Prop := d !! "unlocked" = Some (VBool false).

(** The pet shown after one action, by the table of the actions; other
    requests are not actions. *)
Definition action_view (er : env * request) (p : Pet) : Pet :=
  match er.2 with
  | POST_feed _ => fed (now er.1) p
  | POST_play _ => played (now er.1) p
  | POST_train _ => trained (now er.1) p
  | _ => p
  end.

(** An action addressed to the pet [pet_id]. *)
Definition action_on (pet_id : string) (r : request) : Prop :=
  r = POST_feed pet_id ∨ r = POST_play pet_id ∨ r = POST_train pet_id.

(** A pet at stage legendary, reached through the API: created and
    trained twelve times. *)
Definition db_legend : DB :=
  serve_all ((env0, POST_pets (mkPetCreate "Rex"))
             :: replicate 12 (env0, POST_train "id-0")) empty_db.

Definition doc_legend : doc := default ∅ (pet_by_id "id-0" db_legend).

(** A mood document as the mood route writes it. *)
Definition stored_mood (d : doc) : Prop :=
  ∃ m, d = MoodEntry_dict m ∧ 1 ≤ me_intensity m ≤ 10.

(** The first entry is at least as new as the second. *)
Definition newest_first (a b : MoodEntry) : Prop :=
  String.leb (me_timestamp b) (me_timestamp a) = true.

(** *** Well-formed stores

    The documents of each collection as the routes write them. *)

Definition int_keys : list string :=
  ["happiness"; "health"; "coins"; "experience"].
Definition str_keys : list string := ["id"; "name"; "created_at"].
Definition time_keys : list string :=
  ["last_fed"; "last_played"; "last_trained"].

(** A value of the type the [Pet] model declares for the field. *)
Definition typed_at (k : string) (v : value) : bool :=
  if bool_decide (k ∈ int_keys) then
    match v with VInt _ => true | _ => false end
  else if bool_decide (k ∈ str_keys) then
    match v with VStr _ => true | _ => false end
  else if bool_decide (k = "stage") then
    match v with
    | VStr s => bool_decide (is_Some (PetStage_of s))
    | _ => false
    end
  else if bool_decide (k ∈ time_keys) then
    match v with VNone | VStr _ => true | _ => false end
  else true.

(** A change of a document that writes typed values only. *)
Definition typed_change (d d' : doc) : Prop :=
  ∀ k, d' !! k = d !! k ∨ ∃ v, d' !! k = Some v ∧ typed_at k v = true.

(** A pet document that every request shows as a pet. *)
Definition valid_pet (d : doc) : Prop :=
  ∀ f t, ∃ p, Pet_of f t d = Ok p.

Definition stored_item (d : doc) : Prop := ∃ i, d = ShopItem_dict i.

Definition stored_achievement (d : doc) : Prop :=
  ∃ a, d = Achievement_dict a.

(** A pet document as the routes leave it: the four statistics are
    stored integers, every request shows it as a pet, and its integers
    are integers of 8 bytes. *)
Definition good_pet (d : doc) : Prop :=
  stored_pet d ∧ valid_pet d ∧ encodable d = true.

Record well_formed (db : DB) : Prop := {
  wf_pets : Forall good_pet (pets db);
  wf_moods : Forall stored_mood (mood_entries db);
  wf_items : Forall stored_item (shop_items db);
  wf_achievements : Forall stored_achievement (achievements db)
}.

(** The exception a request is answered with, if any. *)
Definition failure {A} (r : result A) : option exn :=
  match r with
  | Ok _ => None
  | Raise x => Some x
  end.

Definition outcome (e : env) (r : request) (db : DB) : option exn :=
  match r with
  | POST_pets pet_data => failure (create_pet e pet_data db).1
  | GET_pet pet_id => failure (get_pet e pet_id db).1
  | GET_pets => failure (get_all_pets e db).1
  | PUT_pet pet_id pet_update => failure (update_pet e pet_id pet_update db).1
  | POST_feed pet_id => failure (feed_pet e pet_id db).1
  | POST_play pet_id => failure (play_with_pet e pet_id db).1
  | POST_train pet_id => failure (train_pet e pet_id db).1
  | POST_moods mood_data => failure (create_mood_entry e mood_data db).1
  | GET_moods pet_id => failure (get_mood_entries e pet_id db).1
  | GET_shop => failure (get_shop_items e db).1
  | GET_achievements pet_id => failure (get_achievements e pet_id db).1
  end.

(** The pet a request looks up and answers 404 without. *)
Definition looked_up (r : request) : option string :=
  match r with
  | GET_pet pet_id | PUT_pet pet_id _ | POST_feed pet_id
  | POST_play pet_id | POST_train pet_id => Some pet_id
  | _ => None
  end.

(** The coins and the experience of a pet document leave room for the
    rewards of one request: no route adds more than 25 to either. *)
Definition headroom (d : doc) : Prop :=
  ∀ k z, k ∈ ["coins"; "experience"] → d !! k = Some (VInt z) →
         z + 25 ≤ int64_max.

(** A shop collection that is empty or holds the default items as one
    request seeded them. *)
Definition default_catalog (c : list doc) : Prop :=
  c = [] ∨ ∃ e0, c = ShopItem_dict <$> seeded_items e0.

(** The stage of a fresh pet after [n] trainings and nothing else. *)
Definition stage_after_trainings (n : nat) : PetStage :=
  if (n <? 2)%nat then EGG
  else if (n <? 6)%nat then BABY
  else if (n <? 12)%nat then ADULT
  else LEGENDARY.

(** * Properties *)

(** ** The document store *)

Section store.
Implicit Types (c : list doc) (d : doc) (k : string) (v w : value).

Lemma matches_true k v d : matches k v d = true ↔ d !! k = Some v.
Proof. unfold matches. apply bool_decide_eq_true. Qed.

Lemma matches_false k v d : matches k v d = false ↔ d !! k ≠ Some v.
Proof. unfold matches. apply bool_decide_eq_false. Qed.

Lemma find_one_Some k v c d :
  find_one k v c = Some d → d !! k = Some v ∧ d ∈ c.
Proof.
  induction c as [|d0 c IH]; simpl; [done|].
  destruct (matches k v d0) eqn:Hm.
  - intros [= <-]. apply matches_true in Hm. split; [done|]. left.
  - intros H. destruct (IH H) as [? ?]. split; [done|]. by right.
Qed.

Lemma find_one_app k v c d :
  find_one k v (c ++ [d]) =
    match find_one k v c with
    | Some d0 => Some d0
    | None => if matches k v d then Some d else None
    end.
Proof.
  induction c as [|d0 c IH]; simpl; [done|].
  by destruct (matches k v d0).
Qed.

(** An update that keeps the key field moves no document in or out of
    the reach of a lookup by that key. *)
Lemma find_one_update_one k v u c c' w :
  (∀ d d', u d = Some d' → d' !! k = d !! k) →
  update_one k v u c = Some c' →
  find_one k w c' =
    if decide (w = v) then find_one k v c ≫= u else find_one k w c.
Proof.
  intros Hu. revert c'.
  induction c as [|d c IH]; intros c'; simpl.
  - intros [= <-]. simpl. by case_decide.
  - destruct (matches k v d) eqn:Hm.
    + destruct (u d) as [d'|] eqn:Hd; [|done]. intros [= <-]. simpl.
      apply matches_true in Hm. pose proof (Hu _ _ Hd) as Hk.
      case_decide as Hw.
      * subst w. rewrite (proj2 (matches_true k v d')); [done|congruence].
      * rewrite (proj2 (matches_false k w d')); [|congruence].
        rewrite (proj2 (matches_false k w d)); [done|congruence].
    + destruct (update_one k v u c) as [c''|] eqn:Hc; [|done].
      intros [= <-]. simpl. specialize (IH _ eq_refl).
      apply matches_false in Hm.
      destruct (matches k w d) eqn:Hmw.
      * apply matches_true in Hmw. case_decide; [congruence|done].
      * case_decide; [subst w|]; by rewrite IH, ?decide_True, ?decide_False.
  Qed.

Lemma update_one_total k v (f : doc → doc) c :
  ∃ c', update_one k v (λ d, Some (f d)) c = Some c'.
Proof.
  induction c as [|d c [c' IH]]; simpl; [by eexists|].
  destruct (matches k v d); [by eexists|]. rewrite IH. by eexists.
Qed.

Lemma update_one_no_match k v u c :
  find_one k v c = None → update_one k v u c = Some c.
Proof.
  induction c as [|d c IH]; simpl; [done|].
  destruct (matches k v d); [done|]. intros H. by rewrite IH.
Qed.

Lemma update_one_Forall (P : doc → Prop) k v u c c' :
  (∀ d d', P d → u d = Some d' → P d') →
  Forall P c → update_one k v u c = Some c' → Forall P c'.
Proof.
  intros Hu Hc. revert c'.
  induction Hc as [|d c Hd Hc IH]; intros c'; simpl.
  - by intros [= <-].
  - destruct (matches k v d).
    + destruct (u d) as [d'|] eqn:E; [|done]. intros [= <-].
      constructor; eauto.
    + destruct (update_one k v u c) as [c''|]; [|done]. intros [= <-].
      constructor; eauto.
Qed.
End store.

(** ** The pet actions, step by step *)

Lemma set_fields_id (upd d : doc) :
  upd !! "id" = None → set_fields upd d !! "id" = d !! "id".
Proof.
  intros H. unfold set_fields. by rewrite lookup_union_r.
Qed.

Lemma pet_by_id_update (pid q : string) (u : doc → option doc) (db : DB) c' :
  (∀ d d', u d = Some d' → d' !! "id" = d !! "id") →
  update_one "id" (VStr pid) u (pets db) = Some c' →
  pet_by_id q (coll_set Pets c' db) =
    if decide (q = pid) then pet_by_id pid db ≫= u else pet_by_id q db.
Proof.
  intros Hu Hc. unfold pet_by_id. simpl.
  rewrite (find_one_update_one _ _ _ _ _ _ Hu Hc).
  destruct (decide (q = pid)) as [->|Hne].
  - by rewrite decide_True.
  - rewrite decide_False; [done|congruence].
Qed.

(** The integers the driver can write. *)
Lemma int64_spec z : int64 z = true ↔ int64_min ≤ z ≤ int64_max.
Proof. unfold int64. rewrite andb_true_iff, !Z.leb_le. tauto. Qed.

Lemma int64_false z : int64 z = false ↔ z < int64_min ∨ int64_max < z.
Proof.
  unfold int64. rewrite andb_false_iff, !Z.leb_gt. tauto.
Qed.

Lemma encodable_spec (d : doc) :
  encodable d = true ↔ ∀ k z, d !! k = Some (VInt z) → int64 z = true.
Proof.
  unfold encodable. rewrite bool_decide_eq_true, map_Forall_lookup.
  split.
  - intros H k z Hk. exact (H k (VInt z) Hk).
  - intros H k [| |z|] Hk; simpl; eauto.
Qed.

Lemma encodable_set_fields (upd d : doc) :
  encodable upd = true → encodable d = true →
  encodable (set_fields upd d) = true.
Proof.
  rewrite !encodable_spec. intros Hu Hd k z. unfold set_fields.
  rewrite lookup_union_Some_raw. intros [H|[_ H]]; eauto.
Qed.

Lemma update_encodable_set (upd : doc) :
  update_encodable (mkUpdate upd []) = encodable upd.
Proof. unfold update_encodable. simpl. by rewrite andb_true_r. Qed.

(** An update the driver cannot write raises and changes nothing. *)
Lemma db_update_one_refused c k v u db :
  update_encodable u = false →
  db_update_one c k v u db = (Raise OverflowError, db).
Proof. intros H. unfold db_update_one. by rewrite H. Qed.

Lemma db_update_one_sent c k v u db :
  update_encodable u = true →
  db_update_one c k v u db =
    match update_one k v (apply_update u) (coll_get c db) with
    | Some l => (Ok tt, coll_set c l db)
    | None => (Raise WriteError, db)
    end.
Proof. intros H. unfold db_update_one. by rewrite H. Qed.

Lemma apply_updates_refused e pid upd msg db :
  encodable upd = false →
  apply_updates e pid upd msg db = (Raise OverflowError, db).
Proof.
  intros H. unfold apply_updates, bind.
  rewrite db_update_one_refused; [done|]. by rewrite update_encodable_set.
Qed.

Lemma apply_updates_run e pid upd msg db d :
  pet_by_id pid db = Some d → upd !! "id" = None →
  encodable upd = true →
  ∃ c',
    apply_updates e pid upd msg db =
      (result_map (pair msg)
         (Pet_of (uuid4 e 0) (now e) (set_fields upd d)),
       coll_set Pets c' db) ∧
    ∀ q, pet_by_id q (coll_set Pets c' db) =
           if decide (q = pid) then Some (set_fields upd d)
           else pet_by_id q db.
Proof.
  intros Hd Hid Henc.
  destruct (update_one_total "id" (VStr pid) (set_fields upd) (pets db))
    as [c' Hc].
  assert (Hq : ∀ q, pet_by_id q (coll_set Pets c' db) =
             if decide (q = pid) then Some (set_fields upd d)
             else pet_by_id q db).
  { intros q.
    rewrite (pet_by_id_update pid q (λ d, Some (set_fields upd d)) db c');
      [by rewrite Hd | | done].
    intros d0 d' [= <-]. by apply set_fields_id. }
  exists c'. split; [|done].
  unfold apply_updates, bind.
  rewrite db_update_one_sent by (by rewrite update_encodable_set).
  unfold db_find_one, lift, ret.
  change (apply_update {| upd_set := upd; upd_inc := [] |})
    with (λ d, Some (set_fields upd d)).
  simpl. rewrite Hc.
  specialize (Hq pid). rewrite decide_True in Hq by done.
  unfold pet_by_id in Hq. simpl in Hq. cbn. rewrite Hq.
  unfold parse_from_mongo, result_map, result_bind.
  by destruct (Pet_of _ _ _).
Qed.

Lemma pet_action_not_found upd_of msg e pid db :
  pet_by_id pid db = None →
  pet_action upd_of msg e pid db =
    (Raise (HTTPException 404 "Pet not found"), db).
Proof.
  intros H. unfold pet_action, bind, db_find_one. simpl.
  unfold pet_by_id in H. by rewrite H.
Qed.

Lemma pet_action_raise upd_of msg e pid db d x :
  pet_by_id pid db = Some d → upd_of d = Raise x →
  pet_action upd_of msg e pid db = (Raise x, db).
Proof.
  intros H Hx. unfold pet_action, bind, db_find_one, lift. simpl.
  unfold pet_by_id in H. by rewrite H, Hx.
Qed.

Lemma pet_action_refused upd_of msg e pid db d upd :
  pet_by_id pid db = Some d → upd_of d = Ok upd → encodable upd = false →
  pet_action upd_of msg e pid db = (Raise OverflowError, db).
Proof.
  intros H Hu Henc. unfold pet_action, bind, db_find_one, lift. simpl.
  unfold pet_by_id in H. rewrite H, Hu. by apply apply_updates_refused.
Qed.

Lemma pet_action_run upd_of msg e pid db d upd :
  pet_by_id pid db = Some d → upd_of d = Ok upd → upd !! "id" = None →
  encodable upd = true →
  ∃ c',
    pet_action upd_of msg e pid db =
      (result_map (pair msg)
         (Pet_of (uuid4 e 0) (now e) (set_fields upd d)),
       coll_set Pets c' db) ∧
    ∀ q, pet_by_id q (coll_set Pets c' db) =
           if decide (q = pid) then Some (set_fields upd d)
           else pet_by_id q db.
Proof.
  intros H Hu Hid Henc.
  destruct (apply_updates_run e pid upd msg db d H Hid Henc)
    as (c' & Hrun & Hq).
  exists c'. split; [|done].
  unfold pet_action, bind, db_find_one, lift. simpl.
  unfold pet_by_id in H. rewrite H, Hu. exact Hrun.
Qed.

Lemma feed_pet_action e pid :
  feed_pet e pid = pet_action (feed_updates (now e)) "Pet fed successfully!" e pid.
Proof. reflexivity. Qed.

Lemma play_with_pet_action e pid :
  play_with_pet e pid = pet_action (play_updates (now e)) "Had fun playing!" e pid.
Proof. reflexivity. Qed.

Lemma train_pet_action e pid :
  train_pet e pid = pet_action (train_updates (now e)) "Training completed!" e pid.
Proof. reflexivity. Qed.

(** ** The pet as the API shows it *)

Ltac map_lookup :=
  repeat first
    [ rewrite lookup_insert_eq
    | rewrite lookup_insert_ne by done
    | rewrite lookup_empty ].

Lemma lookup_set_fields (upd d : doc) (k : string) :
  set_fields upd d !! k =
    match upd !! k with
    | Some v => Some v
    | None => d !! k
    end.
Proof.
  unfold set_fields. rewrite lookup_union.
  by destruct (upd !! k), (d !! k).
Qed.

Lemma PetStage_of_value s st : PetStage_of s = Some st → s = PetStage_value st.
Proof.
  unfold PetStage_of. simpl.
  repeat (case_bool_decide; [by intros [= <-]|]). done.
Qed.

Lemma PetStage_of_value_eq st : PetStage_of (PetStage_value st) = Some st.
Proof. by destruct st. Qed.

Lemma field_int_stat d k def z :
  field_int d k (Some def) = Ok z → stat d k def = Ok z.
Proof.
  unfold field_int, stat, get, as_int.
  by destruct (d !! k) as [[]|].
Qed.

Lemma field_stage_get d st :
  field_stage d = Ok st → stage_of d = VStr (PetStage_value st).
Proof.
  unfold field_stage, stage_of, get.
  destruct (d !! "stage") as [[| | |s]|]; try done.
  - destruct (PetStage_of s) as [st'|] eqn:E; [|done].
    intros [= <-]. by rewrite (PetStage_of_value _ _ E).
  - by intros [= <-].
Qed.

Lemma Pet_of_inv f t d p :
  Pet_of f t d = Ok p →
  field_str d "id" (Some f) = Ok (pet_id p) ∧
  field_str d "name" (Some "MoodPet") = Ok (pet_name p) ∧
  field_stage d = Ok (pet_stage p) ∧
  field_int d "happiness" (Some 50) = Ok (pet_happiness p) ∧
  field_int d "health" (Some 100) = Ok (pet_health p) ∧
  field_int d "coins" (Some 100) = Ok (pet_coins p) ∧
  field_int d "experience" (Some 0) = Ok (pet_experience p) ∧
  field_opt_str d "last_fed" = Ok (pet_last_fed p) ∧
  field_opt_str d "last_played" = Ok (pet_last_played p) ∧
  field_opt_str d "last_trained" = Ok (pet_last_trained p) ∧
  field_str d "created_at" (Some t) = Ok (pet_created_at p).
Proof.
  intros H. unfold Pet_of in H.
  repeat match type of H with
         | result_bind ?r _ = _ =>
             destruct r eqn:?; simpl in H; [|discriminate]
         end.
  injection H as <-. simpl. by repeat split.
Qed.

Lemma Pet_of_intro f t d id name stage happiness health coins experience
    last_fed last_played last_trained created_at :
  field_str d "id" (Some f) = Ok id →
  field_str d "name" (Some "MoodPet") = Ok name →
  field_stage d = Ok stage →
  field_int d "happiness" (Some 50) = Ok happiness →
  field_int d "health" (Some 100) = Ok health →
  field_int d "coins" (Some 100) = Ok coins →
  field_int d "experience" (Some 0) = Ok experience →
  field_opt_str d "last_fed" = Ok last_fed →
  field_opt_str d "last_played" = Ok last_played →
  field_opt_str d "last_trained" = Ok last_trained →
  field_str d "created_at" (Some t) = Ok created_at →
  Pet_of f t d =
    Ok (mkPet id name stage happiness health coins experience
              last_fed last_played last_trained created_at).
Proof.
  intros. unfold Pet_of.
  repeat match goal with
         | H : ?r = Ok _ |- context [result_bind ?r _] =>
             rewrite H; simpl
         end.
  done.
Qed.

(** A field that an update does not write reads as before; one it
    writes reads what was written. *)
Ltac field_after :=
  unfold field_str, field_int, field_opt_str, field_stage in *;
  rewrite lookup_set_fields; map_lookup; simpl; try done.

Lemma feed_updates_Pet f t now d p :
  Pet_of f t d = Ok p →
  ∃ upd, feed_updates now d = Ok upd ∧ upd !! "id" = None ∧
         Pet_of f t (set_fields upd d) = Ok (fed now p).
Proof.
  intros H. apply Pet_of_inv in H.
  destruct H as (Hid & Hn & Hs & Hh & Hhe & Hc & Hx & Hf & Hp & Ht & Hcr).
  eexists. split; [|split].
  - unfold feed_updates, get_plus. fold (stat d "happiness" 50).
    fold (stat d "health" 100). fold (stat d "coins" 100).
    fold (stat d "experience" 0).
    rewrite (field_int_stat _ _ _ _ Hh), (field_int_stat _ _ _ _ Hhe),
      (field_int_stat _ _ _ _ Hc), (field_int_stat _ _ _ _ Hx).
    simpl. reflexivity.
  - by map_lookup.
  - unfold fed, py_min. apply Pet_of_intro; by field_after.
Qed.

Lemma play_updates_Pet f t now d p :
  Pet_of f t d = Ok p →
  ∃ upd, play_updates now d = Ok upd ∧ upd !! "id" = None ∧
         Pet_of f t (set_fields upd d) = Ok (played now p).
Proof.
  intros H. apply Pet_of_inv in H.
  destruct H as (Hid & Hn & Hs & Hh & Hhe & Hc & Hx & Hf & Hp & Ht & Hcr).
  eexists. split; [|split].
  - unfold play_updates, get_plus. fold (stat d "happiness" 50).
    fold (stat d "coins" 100). fold (stat d "experience" 0).
    rewrite (field_int_stat _ _ _ _ Hh),
      (field_int_stat _ _ _ _ Hc), (field_int_stat _ _ _ _ Hx).
    simpl. reflexivity.
  - by map_lookup.
  - unfold played, py_min. apply Pet_of_intro; by field_after.
Qed.

Lemma evolve_stage x st (upd : doc) :
  upd !! "stage" = None →
  evolve x (VStr (PetStage_value st)) upd !! "stage" =
    if bool_decide (progression st x = st) then None
    else Some (VStr (PetStage_value (progression st x))).
Proof.
  intros Hupd. unfold evolve, progression. rewrite !Z.geb_leb.
  destruct st; simpl;
    repeat match goal with
           | |- context [?a <=? ?b] => destruct (a <=? b); simpl
           end;
    by map_lookup.
Qed.

Lemma evolve_other x s (upd : doc) k :
  k ≠ "stage" → evolve x s upd !! k = upd !! k.
Proof.
  intros Hk. unfold evolve.
  repeat match goal with
         | |- context [if ?b then _ else _] => destruct b
         end;
    by rewrite ?lookup_insert_ne.
Qed.

Lemma train_updates_Pet f t now d p :
  Pet_of f t d = Ok p →
  ∃ upd, train_updates now d = Ok upd ∧ upd !! "id" = None ∧
         Pet_of f t (set_fields upd d) = Ok (trained now p).
Proof.
  intros H. apply Pet_of_inv in H.
  destruct H as (Hid & Hn & Hs & Hh & Hhe & Hc & Hx & Hf & Hp & Ht & Hcr).
  eexists. split; [|split].
  - unfold train_updates, get_plus. fold (stat d "happiness" 50).
    fold (stat d "health" 100). fold (stat d "coins" 100).
    fold (stat d "experience" 0). fold (stage_of d).
    rewrite (field_int_stat _ _ _ _ Hh), (field_int_stat _ _ _ _ Hhe),
      (field_int_stat _ _ _ _ Hc), (field_int_stat _ _ _ _ Hx),
      (field_stage_get _ _ Hs).
    simpl. reflexivity.
  - rewrite evolve_other by done. by map_lookup.
  - unfold trained, py_min.
    apply Pet_of_intro;
      try (unfold field_str, field_int, field_opt_str in *;
           rewrite lookup_set_fields, evolve_other by done;
           map_lookup; simpl; done).
    unfold field_stage in *. rewrite lookup_set_fields.
    rewrite evolve_stage by by map_lookup.
    case_bool_decide as Hst.
    + by rewrite Hst.
    + by rewrite PetStage_of_value_eq.
Qed.

(** *** The updates of an action and the integers of the store *)

Lemma encodable_empty : encodable (∅ : doc) = true.
Proof. apply encodable_spec. intros k z. by rewrite lookup_empty. Qed.

Lemma encodable_insert k v (m : doc) :
  m !! k = None → encodable (<[k := v]> m) = encodes v && encodable m.
Proof.
  intros H. apply eq_true_iff_eq. unfold encodable.
  rewrite andb_true_iff, !bool_decide_eq_true, map_Forall_insert by done.
  tauto.
Qed.

Ltac encodable_inserts :=
  rewrite ?encodable_insert by (by map_lookup);
  rewrite encodable_empty; cbn [encodes].

Lemma feed_updates_encodable f t now d p upd :
  Pet_of f t d = Ok p → feed_updates now d = Ok upd →
  encodable upd = storable (fed now p).
Proof.
  intros H Hu. apply Pet_of_inv in H.
  destruct H as (Hid & Hn & Hs & Hh & Hhe & Hc & Hx & Hf & Hp & Ht & Hcr).
  unfold feed_updates, get_plus in Hu. fold (stat d "happiness" 50) in Hu.
  fold (stat d "health" 100) in Hu. fold (stat d "coins" 100) in Hu.
  fold (stat d "experience" 0) in Hu.
  rewrite (field_int_stat _ _ _ _ Hh), (field_int_stat _ _ _ _ Hhe),
    (field_int_stat _ _ _ _ Hc), (field_int_stat _ _ _ _ Hx) in Hu.
  injection Hu as <-. encodable_inserts.
  unfold storable, fed, py_min. cbn [pet_happiness pet_health pet_coins
    pet_experience]. by rewrite !andb_true_r, !andb_assoc.
Qed.

Lemma play_updates_encodable f t now d p upd :
  Pet_of f t d = Ok p → play_updates now d = Ok upd →
  encodable upd =
    int64 (pet_happiness (played now p)) &&
    int64 (pet_coins (played now p)) &&
    int64 (pet_experience (played now p)).
Proof.
  intros H Hu. apply Pet_of_inv in H.
  destruct H as (Hid & Hn & Hs & Hh & Hhe & Hc & Hx & Hf & Hp & Ht & Hcr).
  unfold play_updates, get_plus in Hu. fold (stat d "happiness" 50) in Hu.
  fold (stat d "coins" 100) in Hu. fold (stat d "experience" 0) in Hu.
  rewrite (field_int_stat _ _ _ _ Hh),
    (field_int_stat _ _ _ _ Hc), (field_int_stat _ _ _ _ Hx) in Hu.
  injection Hu as <-. encodable_inserts.
  unfold played, py_min. cbn [pet_happiness pet_coins pet_experience].
  by rewrite !andb_true_r, !andb_assoc.
Qed.

Lemma encodable_evolve x st (upd : doc) :
  upd !! "stage" = None → encodable (evolve x st upd) = encodable upd.
Proof.
  intros H. unfold evolve.
  repeat match goal with
         | |- context [if ?b then _ else _] => destruct b
         end;
    by rewrite ?encodable_insert by done.
Qed.

Lemma train_updates_encodable f t now d p upd :
  Pet_of f t d = Ok p → train_updates now d = Ok upd →
  encodable upd = storable (trained now p).
Proof.
  intros H Hu. apply Pet_of_inv in H.
  destruct H as (Hid & Hn & Hs & Hh & Hhe & Hc & Hx & Hf & Hp & Ht & Hcr).
  unfold train_updates, get_plus in Hu. fold (stat d "happiness" 50) in Hu.
  fold (stat d "health" 100) in Hu. fold (stat d "coins" 100) in Hu.
  fold (stat d "experience" 0) in Hu.
  rewrite (field_int_stat _ _ _ _ Hh), (field_int_stat _ _ _ _ Hhe),
    (field_int_stat _ _ _ _ Hc), (field_int_stat _ _ _ _ Hx) in Hu.
  injection Hu as <-. rewrite encodable_evolve by (by map_lookup).
  encodable_inserts.
  unfold storable, trained, py_min. cbn [pet_happiness pet_health pet_coins
    pet_experience]. by rewrite !andb_true_r, !andb_assoc.
Qed.

Lemma feed_writes now : writes (feed_updates now) (fed now).
Proof.
  intros f t d p upd Hp Hu Hs.
  by rewrite (feed_updates_encodable f t now d p upd Hp Hu).
Qed.

Lemma play_writes now : writes (play_updates now) (played now).
Proof.
  intros f t d p upd Hp Hu Hs.
  rewrite (play_updates_encodable f t now d p upd Hp Hu).
  unfold storable in Hs. rewrite !andb_true_iff in Hs.
  destruct Hs as [[[-> _] ->] ->]. done.
Qed.

Lemma train_writes now : writes (train_updates now) (trained now).
Proof.
  intros f t d p upd Hp Hu Hs.
  by rewrite (train_updates_encodable f t now d p upd Hp Hu).
Qed.

Lemma feed_refuses now : refuses (feed_updates now) (fed now).
Proof.
  intros f t d p upd Hp Hu _ Hs.
  by rewrite (feed_updates_encodable f t now d p upd Hp Hu).
Qed.

Lemma play_refuses now : refuses (play_updates now) (played now).
Proof.
  intros f t d p upd Hp Hu Hst Hs.
  rewrite (play_updates_encodable f t now d p upd Hp Hu).
  unfold storable in *. cbn [played pet_happiness pet_health pet_coins
    pet_experience] in *.
  rewrite !andb_true_iff in Hst. destruct Hst as [[[_ Hhe] _] _].
  rewrite Hhe, andb_true_r in Hs. exact Hs.
Qed.

Lemma train_refuses now : refuses (train_updates now) (trained now).
Proof.
  intros f t d p upd Hp Hu _ Hs.
  by rewrite (train_updates_encodable f t now d p upd Hp Hu).
Qed.

(** The pet that [get_pet] shows is the view of the stored document. *)
Lemma get_pet_Ok_inv e pid db p :
  (get_pet e pid db).1 = Ok p →
  ∃ d, pet_by_id pid db = Some d ∧ Pet_of (uuid4 e 0) (now e) d = Ok p.
Proof.
  unfold get_pet, bind, db_find_one, pet_by_id, lift, not_found, raise.
  simpl. destruct (find_one "id" (VStr pid) (pets db)) as [d|]; [|done].
  simpl. intros H. by exists d.
Qed.

Lemma get_pet_found e pid db d :
  pet_by_id pid db = Some d →
  get_pet e pid db = (Pet_of (uuid4 e 0) (now e) d, db).
Proof.
  unfold get_pet, bind, db_find_one, pet_by_id, lift. simpl.
  by intros ->.
Qed.

(** One action on a pet that the API shows as [p]. *)
Lemma pet_action_Pet upd_of msg (view : Pet → Pet) e pid db p :
  (∀ f t d p, Pet_of f t d = Ok p →
     ∃ upd, upd_of d = Ok upd ∧ upd !! "id" = None ∧
            Pet_of f t (set_fields upd d) = Ok (view p)) →
  writes upd_of view →
  (get_pet e pid db).1 = Ok p →
  storable (view p) = true →
  ∃ db',
    pet_action upd_of msg e pid db = (Ok (msg, view p), db') ∧
    (get_pet e pid db').1 = Ok (view p) ∧
    (∀ q, q ≠ pid → pet_by_id q db' = pet_by_id q db) ∧
    mood_entries db' = mood_entries db ∧
    shop_items db' = shop_items db ∧
    achievements db' = achievements db.
Proof.
  intros Hview Hw Hget Hst.
  destruct (get_pet_Ok_inv _ _ _ _ Hget) as (d & Hd & Hp).
  destruct (Hview _ _ _ _ Hp) as (upd & Hupd & Hid & Hp').
  destruct (pet_action_run upd_of msg e pid db d upd Hd Hupd Hid
              (Hw _ _ _ _ _ Hp Hupd Hst))
    as (c' & Hrun & Hq).
  exists (coll_set Pets c' db). rewrite Hrun, Hp'. split; [done|].
  split.
  - rewrite (get_pet_found _ _ _ (set_fields upd d)); [done|].
    by rewrite Hq, decide_True.
  - split; [|done]. intros q Hne. by rewrite Hq, decide_False.
Qed.

(** An action whose pet cannot be stored raises and writes nothing. *)
Lemma pet_action_overflow upd_of msg (view : Pet → Pet) e pid db p :
  (∀ f t d p, Pet_of f t d = Ok p →
     ∃ upd, upd_of d = Ok upd ∧ upd !! "id" = None ∧
            Pet_of f t (set_fields upd d) = Ok (view p)) →
  refuses upd_of view →
  (get_pet e pid db).1 = Ok p →
  storable p = true → storable (view p) = false →
  pet_action upd_of msg e pid db = (Raise OverflowError, db).
Proof.
  intros Hview Hr Hget Hst Hst'.
  destruct (get_pet_Ok_inv _ _ _ _ Hget) as (d & Hd & Hp).
  destruct (Hview _ _ _ _ Hp) as (upd & Hupd & Hid & Hp').
  apply (pet_action_refused upd_of msg e pid db d upd Hd Hupd).
  exact (Hr _ _ _ _ _ Hp Hupd Hst Hst').
Qed.

(** ** What a request does to a stored pet *)

Lemma pet_action_doc upd_of msg e pid db q d :
  (∀ d upd, upd_of d = Ok upd → upd !! "id" = None) →
  pet_by_id q db = Some d →
  pet_by_id q (pet_action upd_of msg e pid db).2 = Some d ∨
  (q = pid ∧ ∃ upd, upd_of d = Ok upd ∧
     pet_by_id q (pet_action upd_of msg e pid db).2 = Some (set_fields upd d)).
Proof.
  intros Hid Hq.
  destruct (pet_by_id pid db) as [d0|] eqn:Hd.
  - destruct (upd_of d0) as [upd|x] eqn:Hu.
    + destruct (encodable upd) eqn:Henc.
      * destruct (pet_action_run upd_of msg e pid db d0 upd Hd Hu
                    (Hid _ _ Hu) Henc) as (c' & -> & Hc').
        simpl. rewrite Hc'. case_decide as Heq.
        -- subst q. right. split; [done|]. exists upd.
           assert (d0 = d) as -> by congruence. done.
        -- by left.
      * rewrite (pet_action_refused upd_of msg e pid db d0 upd Hd Hu Henc).
        by left.
    + rewrite (pet_action_raise upd_of msg e pid db d0 x Hd Hu). by left.
  - rewrite (pet_action_not_found upd_of msg e pid db Hd). by left.
Qed.

Lemma update_data_lookup u k :
  update_data_of u !! k =
    match PetUpdate_dict u !! k with
    | Some VNone | None => None
    | Some v => Some v
    end.
Proof.
  unfold update_data_of.
  destruct (PetUpdate_dict u !! k) as [v|] eqn:E.
  - destruct (decide (v = VNone)) as [->|Hv].
    + apply map_lookup_filter_None. right. intros x Hx. simpl.
      rewrite Hx in E. injection E as ->. by intros ?.
    + transitivity (Some v); [|by destruct v].
      apply map_lookup_filter_Some. by split.
  - apply map_lookup_filter_None. by left.
Qed.

Lemma update_data_encodable u :
  encodable (update_data_of u) = update_int64 u.
Proof.
  apply eq_true_iff_eq. rewrite encodable_spec. unfold update_int64.
  rewrite !andb_true_iff. split.
  - intros H. repeat split.
    + destruct (pu_happiness u) as [h|] eqn:E; [|reflexivity].
      apply (H "happiness"). rewrite update_data_lookup.
      unfold PetUpdate_dict. map_lookup. by rewrite E.
    + destruct (pu_health u) as [h|] eqn:E; [|reflexivity].
      apply (H "health"). rewrite update_data_lookup.
      unfold PetUpdate_dict. map_lookup. by rewrite E.
    + destruct (pu_coins u) as [c|] eqn:E; [|reflexivity].
      apply (H "coins"). rewrite update_data_lookup.
      unfold PetUpdate_dict. map_lookup. by rewrite E.
  - intros [[Hh Hhe] Hc] k z. rewrite update_data_lookup.
    unfold PetUpdate_dict.
    destruct (decide (k = "name")) as [->|?];
      [map_lookup; by destruct (pu_name u)|rewrite lookup_insert_ne by done].
    destruct (decide (k = "happiness")) as [->|?];
      [map_lookup; destruct (pu_happiness u); [|done]; by intros [= <-]
      |rewrite lookup_insert_ne by done].
    destruct (decide (k = "health")) as [->|?];
      [map_lookup; destruct (pu_health u); [|done]; by intros [= <-]
      |rewrite lookup_insert_ne by done].
    destruct (decide (k = "coins")) as [->|?];
      [map_lookup; destruct (pu_coins u); [|done]; by intros [= <-]
      |rewrite lookup_insert_ne by done].
    by rewrite lookup_empty.
Qed.

(** An update the driver cannot write: the route raises before it looks
    the pet up. *)
Lemma update_pet_refused e pid u db :
  update_int64 u = false →
  update_pet e pid u db = (Raise OverflowError, db).
Proof.
  rewrite <- update_data_encodable.
  unfold update_pet, bind.
  generalize dependent (update_data_of u). intros upd Henc.
  rewrite bool_decide_eq_true_2.
  - rewrite db_update_one_refused; [done|]. by rewrite update_encodable_set.
  - intros ->. by rewrite encodable_empty in Henc.
Qed.

Lemma update_pet_doc e pid u db q d :
  pet_by_id q db = Some d →
  pet_by_id q (update_pet e pid u db).2 =
    Some (if decide (q = pid ∧ update_int64 u = true)
          then set_fields (update_data_of u) d else d).
Proof.
  intros Hq.
  assert (Hid : update_data_of u !! "id" = None).
  { rewrite update_data_lookup. unfold PetUpdate_dict. by map_lookup. }
  pose proof (update_pet_refused e pid u db) as Href.
  rewrite <- update_data_encodable in *.
  unfold update_pet, bind in *.
  generalize dependent (update_data_of u). intros upd Hid Href.
  destruct (encodable upd) eqn:Henc; cycle 1.
  { rewrite Href by reflexivity. cbn [snd]. rewrite Hq. f_equal.
    rewrite decide_False; [reflexivity|]. intros [_ ?]. discriminate. }
  clear Href.
  transitivity (Some (if decide (q = pid) then set_fields upd d else d));
    cycle 1.
  { f_equal. destruct (decide (q = pid)).
    - rewrite decide_True; [reflexivity|]. split; [assumption|reflexivity].
    - rewrite decide_False; [reflexivity|]. intros [? _]. contradiction. }
  case_bool_decide as Hne.
  - rewrite db_update_one_sent by (by rewrite update_encodable_set).
    change (apply_update {| upd_set := upd; upd_inc := [] |})
      with (λ d, Some (set_fields upd d)).
    destruct (update_one_total "id" (VStr pid) (set_fields upd) (pets db))
      as [c' Hc].
    simpl. rewrite Hc.
    assert (Hq' : pet_by_id q (coll_set Pets c' db) =
              Some (if decide (q = pid) then set_fields upd d else d)).
    { rewrite (pet_by_id_update pid q (λ d, Some (set_fields upd d)) db c');
        [| |done].
      - case_decide; [subst q; by rewrite Hq|done].
      - intros d0 d' [= <-]. apply set_fields_id, Hid. }
    unfold db_find_one. cbn.
    destruct (find_one "id" (VStr pid) c'); simpl.
    + unfold lift. simpl. exact Hq'.
    + exact Hq'.
  - subst upd. unfold ret, db_find_one. simpl.
    destruct (find_one "id" (VStr pid) (pets db)); simpl;
      rewrite Hq; f_equal; case_decide;
      by unfold set_fields; rewrite ?(left_id_L ∅ (∪)).
Qed.

Lemma update_pet_not_found e pid u db :
  pet_by_id pid db = None → update_int64 u = true →
  update_pet e pid u db = (Raise (HTTPException 404 "Pet not found"), db).
Proof.
  intros H. unfold pet_by_id in H. rewrite <- update_data_encodable.
  unfold update_pet, bind.
  generalize dependent (update_data_of u). intros upd Henc.
  case_bool_decide.
  - rewrite db_update_one_sent by (by rewrite update_encodable_set).
    simpl.
    rewrite (update_one_no_match _ _ _ _ H).
    unfold db_find_one. cbn. rewrite H. by destruct db.
  - unfold ret, db_find_one. simpl. by rewrite H.
Qed.

(** ** Mood logging, step by step *)

Lemma Emotion_of_value em : Emotion_of (Emotion_value em) = Some em.
Proof. by destruct em. Qed.

Lemma check_intensity_Ok i : 1 ≤ i ≤ 10 → check_intensity i = Ok i.
Proof. intros H. unfold check_intensity. by rewrite bool_decide_eq_true_2. Qed.

Lemma check_intensity_inv i j : check_intensity i = Ok j → j = i ∧ 1 ≤ i ≤ 10.
Proof.
  unfold check_intensity. case_bool_decide; [|done]. by intros [= <-].
Qed.

Lemma MoodEntry_of_dict f t m :
  1 ≤ me_intensity m ≤ 10 → MoodEntry_of f t (MoodEntry_dict m) = Ok m.
Proof.
  intros Hi. destruct m as [id em i note ts pid]. simpl in Hi.
  unfold MoodEntry_of, MoodEntry_dict, field_str, field_emotion, field_int,
    field_opt_str.
  cbn [me_id me_emotion me_intensity me_note me_timestamp me_pet_id].
  map_lookup. cbn [result_bind]. rewrite Emotion_of_value.
  cbn [result_bind]. rewrite (check_intensity_Ok _ Hi).
  by destruct note.
Qed.

(** The update of a mood as the store applies it. *)
Lemma apply_mood_update nh ce (d : doc) :
  apply_update (mood_update nh ce) d =
    (d ← inc_field "coins" ce
           (set_fields (<["happiness" := VInt nh]> ∅) d);
     inc_field "experience" 5 d).
Proof. reflexivity. Qed.

(** The driver can always write it: the happiness is bounded and the
    amounts are small. *)
Lemma mood_update_encodable nh ce :
  0 ≤ nh ≤ 100 → 0 ≤ ce ≤ 100 → update_encodable (mood_update nh ce) = true.
Proof.
  intros Hn Hc. unfold update_encodable, mood_update.
  cbn [upd_set upd_inc forallb snd]. encodable_inserts.
  rewrite !andb_true_iff, !int64_spec. unfold int64_min, int64_max. lia.
Qed.

Lemma inc_field_other key n (d d' : doc) k :
  inc_field key n d = Some d' → k ≠ key → d' !! k = d !! k.
Proof.
  unfold inc_field. intros H Hk.
  destruct (d !! key) as [[| |z|]|]; try done.
  - destruct (int64 (z + n)); [|done]. injection H as <-.
    by rewrite lookup_insert_ne.
  - injection H as <-. by rewrite lookup_insert_ne.
Qed.

Lemma inc_field_int key n (d : doc) z :
  d !! key = Some (VInt z) →
  inc_field key n d =
    if int64 (z + n) then Some (<[key := VInt (z + n)]> d) else None.
Proof. intros H. unfold inc_field. by rewrite H. Qed.

Lemma mood_update_other nh ce (d d' : doc) k :
  apply_update (mood_update nh ce) d = Some d' →
  k ≠ "happiness" → k ≠ "coins" → k ≠ "experience" →
  d' !! k = d !! k.
Proof.
  rewrite apply_mood_update.
  set (d1 := set_fields _ d).
  intros H Hh Hc Hx.
  assert (Hd1 : d1 !! k = d !! k).
  { subst d1. rewrite lookup_set_fields. by map_lookup. }
  clearbody d1.
  destruct (inc_field "coins" ce d1) as [d2|] eqn:E; [|done].
  cbn [mbind option_bind] in H.
  by rewrite (inc_field_other _ _ _ _ _ H), (inc_field_other _ _ _ _ _ E).
Qed.

Lemma mood_update_Some nh ce (d : doc) c x :
  d !! "coins" = Some (VInt c) → d !! "experience" = Some (VInt x) →
  int64 (c + ce) = true → int64 (x + 5) = true →
  ∃ d', apply_update (mood_update nh ce) d = Some d' ∧
        d' !! "happiness" = Some (VInt nh) ∧
        d' !! "coins" = Some (VInt (c + ce)) ∧
        d' !! "experience" = Some (VInt (x + 5)).
Proof.
  intros Hc Hx Hic Hix. rewrite apply_mood_update.
  set (d1 := set_fields _ d).
  assert (Hh1 : d1 !! "happiness" = Some (VInt nh)).
  { subst d1. rewrite lookup_set_fields. by map_lookup. }
  assert (Hc1 : d1 !! "coins" = Some (VInt c)).
  { subst d1. rewrite lookup_set_fields. by map_lookup. }
  assert (Hx1 : d1 !! "experience" = Some (VInt x)).
  { subst d1. rewrite lookup_set_fields. by map_lookup. }
  clearbody d1. rewrite (inc_field_int _ _ _ _ Hc1), Hic.
  cbn [mbind option_bind].
  rewrite (inc_field_int _ _ _ x), Hix by (by map_lookup).
  eexists. split; [done|]. by map_lookup.
Qed.

(** An increment that leaves the integers of 8 bytes is refused, and
    with it the whole update. *)
Lemma mood_update_None nh ce (d : doc) c x :
  d !! "coins" = Some (VInt c) → d !! "experience" = Some (VInt x) →
  int64 (c + ce) && int64 (x + 5) = false →
  apply_update (mood_update nh ce) d = None.
Proof.
  intros Hc Hx Hi. rewrite apply_mood_update.
  set (d1 := set_fields _ d).
  assert (Hc1 : d1 !! "coins" = Some (VInt c)).
  { subst d1. rewrite lookup_set_fields. by map_lookup. }
  assert (Hx1 : d1 !! "experience" = Some (VInt x)).
  { subst d1. rewrite lookup_set_fields. by map_lookup. }
  clearbody d1. rewrite (inc_field_int _ _ _ _ Hc1).
  destruct (int64 (c + ce)); [|done]. cbn [mbind option_bind].
  rewrite (inc_field_int _ _ _ x) by (by map_lookup).
  simpl in Hi. by rewrite Hi.
Qed.

Lemma inc_field_inv key n (d d' : doc) :
  inc_field key n d = Some d' →
  (d !! key = None ∧ d' !! key = Some (VInt n)) ∨
  (∃ z, d !! key = Some (VInt z) ∧ int64 (z + n) = true ∧
        d' !! key = Some (VInt (z + n))).
Proof.
  unfold inc_field. intros H.
  destruct (d !! key) as [[| |z|]|]; try done.
  - destruct (int64 (z + n)) eqn:E; [|done]. injection H as <-.
    right. exists z. by rewrite lookup_insert_eq.
  - injection H as <-. left. by rewrite lookup_insert_eq.
Qed.

(** What an applied update of a mood has written. *)
Lemma mood_update_inv nh ce (d d' : doc) :
  apply_update (mood_update nh ce) d = Some d' →
  d' !! "happiness" = Some (VInt nh) ∧
  ((d !! "coins" = None ∧ d' !! "coins" = Some (VInt ce)) ∨
   (∃ c, d !! "coins" = Some (VInt c) ∧ int64 (c + ce) = true ∧
         d' !! "coins" = Some (VInt (c + ce)))) ∧
  ((d !! "experience" = None ∧ d' !! "experience" = Some (VInt 5)) ∨
   (∃ x, d !! "experience" = Some (VInt x) ∧ int64 (x + 5) = true ∧
         d' !! "experience" = Some (VInt (x + 5)))).
Proof.
  rewrite apply_mood_update. set (d1 := set_fields _ d).
  assert (Hh1 : d1 !! "happiness" = Some (VInt nh)).
  { subst d1. rewrite lookup_set_fields. by map_lookup. }
  assert (Hc1 : d1 !! "coins" = d !! "coins").
  { subst d1. rewrite lookup_set_fields. by map_lookup. }
  assert (Hx1 : d1 !! "experience" = d !! "experience").
  { subst d1. rewrite lookup_set_fields. by map_lookup. }
  clearbody d1. intros H.
  destruct (inc_field "coins" ce d1) as [d2|] eqn:E; [|done].
  cbn [mbind option_bind] in H.
  pose proof (inc_field_inv _ _ _ _ E) as Hc.
  pose proof (inc_field_inv _ _ _ _ H) as Hx.
  rewrite (inc_field_other _ _ _ _ "experience" E), Hx1 in Hx by done.
  rewrite Hc1 in Hc.
  rewrite (inc_field_other _ _ _ _ "happiness" H),
    (inc_field_other _ _ _ _ "happiness" E) by done.
  split; [done|]. split; [|done].
  by rewrite (inc_field_other _ _ _ _ "coins" H).
Qed.

(** The store after the entry of a valid mood has been inserted. *)
Lemma create_mood_entry_cases e md db :
  1 ≤ mc_intensity md ≤ 10 →
  let entry := mkMoodEntry (uuid4 e 0) (mc_emotion md) (mc_intensity md)
                           (mc_note md) (now e) (mc_pet_id md) in
  let db1 := coll_set Mood_entries
               (insert_one (MoodEntry_dict entry) (mood_entries db)) db in
  match pet_by_id (mc_pet_id md) db with
  | None => create_mood_entry e md db = (Ok entry, db1)
  | Some d =>
      match stat d "happiness" 50 with
      | Raise x => create_mood_entry e md db = (Raise x, db1)
      | Ok h =>
          let nh := Z.max 0 (Z.min 100
                      (h + happiness_change (mc_emotion md) (mc_intensity md))) in
          match update_one "id" (VStr (mc_pet_id md))
                  (apply_update (mood_update nh (10 + mc_intensity md)))
                  (pets db) with
          | None => create_mood_entry e md db = (Raise WriteError, db1)
          | Some c' =>
              create_mood_entry e md db = (Ok entry, coll_set Pets c' db1)
          end
      end
  end.
Proof.
  intros Hi entry db1.
  assert (Hparse : ∀ f t, MoodEntry_of f t (MoodEntry_dict entry) = Ok entry).
  { intros. by apply MoodEntry_of_dict. }
  unfold create_mood_entry, bind, lift, MoodEntry_new.
  rewrite (check_intensity_Ok _ Hi). cbn [result_bind].
  unfold prepare_for_mongo, parse_from_mongo, db_insert_one.
  fold entry. cbn [coll_get]. fold db1.
  unfold db_find_one, pet_by_id. cbn [coll_get db1 coll_set pets].
  destruct (find_one "id" (VStr (mc_pet_id md)) (pets db)) as [d|].
  - unfold get_plus. fold (stat d "happiness" 50).
    destruct (stat d "happiness" 50) as [h|x]; cbn [result_map result_bind];
      [|done].
    unfold py_max, py_min.
    rewrite db_update_one_sent by (apply mood_update_encodable; lia).
    cbn [coll_get db1 coll_set pets].
    destruct (update_one _ _ _ _); [|done].
    by rewrite Hparse.
  - unfold ret. by rewrite Hparse.
Qed.

Lemma create_mood_entry_invalid e md db :
  ¬ (1 ≤ mc_intensity md ≤ 10) →
  create_mood_entry e md db = (Raise ValidationError, db).
Proof.
  intros Hi. unfold create_mood_entry, bind, lift, MoodEntry_new,
    check_intensity.
  by rewrite bool_decide_eq_false_2.
Qed.

Lemma create_mood_entry_doc e md db q d :
  pet_by_id q db = Some d →
  ∃ d', pet_by_id q (create_mood_entry e md db).2 = Some d' ∧
        d' !! "stage" = d !! "stage".
Proof.
  intros Hq.
  destruct (decide (1 ≤ mc_intensity md ≤ 10)) as [Hi|Hi].
  - pose proof (create_mood_entry_cases e md db Hi) as H. cbv zeta in H.
    destruct (pet_by_id (mc_pet_id md) db) as [d0|] eqn:Hd;
      [destruct (stat d0 "happiness" 50) as [h|x];
       [destruct (update_one _ _ _ _) as [c'|] eqn:Hc|]|];
      rewrite H; try (by exists d).
    cbn [snd].
    assert (Hk : ∀ a b : doc,
               apply_update (mood_update (0 `max` (100 `min`
                  (h + happiness_change (mc_emotion md) (mc_intensity md))))
                 (10 + mc_intensity md)) a = Some b → b !! "id" = a !! "id").
    { intros a b Hab. by apply (mood_update_other _ _ _ _ _ Hab). }
    pose proof (pet_by_id_update (mc_pet_id md) q _ db c' Hk Hc) as Hq'.
    change (pet_by_id q (coll_set Pets c' (coll_set Mood_entries
              (insert_one (MoodEntry_dict
                 (mkMoodEntry (uuid4 e 0) (mc_emotion md) (mc_intensity md)
                    (mc_note md) (now e) (mc_pet_id md)))
                 (mood_entries db)) db)))
      with (pet_by_id q (coll_set Pets c' db)).
    rewrite Hq'. case_decide as Heq; [|by exists d].
    subst q. rewrite Hd in Hq. injection Hq as ->. rewrite Hd. simpl.
    destruct (apply_update (mood_update _ _) d) as [d'|] eqn:Hm.
    + exists d'. split; [done|]. by apply (mood_update_other _ _ _ _ _ Hm).
    + exfalso. clear -Hc Hd Hm. unfold pet_by_id in Hd.
      revert c' Hc. induction (pets db) as [|d0 c IH]; [done|].
      simpl in *. destruct (matches "id" (VStr (mc_pet_id md)) d0).
      * injection Hd as ->. by rewrite Hm.
      * intros c'. destruct (update_one _ _ _ c); [|done]. intros _.
        by eapply IH.
  - rewrite create_mood_entry_invalid by done. by exists d.
Qed.

(** ** Routes that do not write a pet *)

Section keeps_pets.
Context {A B : Type}.

Lemma keeps_pets_ret (a : A) : keeps_pets (ret a).
Proof. done. Qed.

Lemma keeps_pets_raise x : keeps_pets (raise (A := A) x).
Proof. done. Qed.

Lemma keeps_pets_lift (r : result A) : keeps_pets (lift r).
Proof. done. Qed.

Lemma keeps_pets_bind (m : M A) (k : A → M B) :
  keeps_pets m → (∀ a, keeps_pets (k a)) → keeps_pets (bind m k).
Proof.
  intros Hm Hk db. unfold bind. specialize (Hm db).
  destruct (m db) as [[a|x] db']; simpl in *; [|done].
  by rewrite Hk.
Qed.
End keeps_pets.

Lemma keeps_pets_find_all c n : keeps_pets (db_find_all c n).
Proof. done. Qed.

Lemma keeps_pets_find c k v n : keeps_pets (db_find c k v n).
Proof. done. Qed.

Lemma keeps_pets_insert_one c d : c ≠ Pets → keeps_pets (db_insert_one c d).
Proof. intros Hc db. by destruct c. Qed.

Lemma keeps_pets_for_each {A} (body : nat → A → M unit) i l :
  (∀ i a, keeps_pets (body i a)) → keeps_pets (for_each body i l).
Proof.
  intros Hbody. revert i.
  induction l as [|a l IH]; intros i; simpl.
  - apply keeps_pets_ret.
  - apply keeps_pets_bind; [apply Hbody|]. intros _. apply IH.
Qed.

Lemma get_shop_items_keeps_pets e : keeps_pets (get_shop_items e).
Proof.
  unfold get_shop_items.
  apply keeps_pets_bind; [apply keeps_pets_find_all|]. intros items.
  apply keeps_pets_bind; [|intros; apply keeps_pets_lift].
  destruct items; [|apply keeps_pets_ret].
  apply keeps_pets_bind; [|intros; apply keeps_pets_find_all].
  apply keeps_pets_for_each. intros i a.
  apply keeps_pets_bind; [apply keeps_pets_lift|].
  intros item. by apply keeps_pets_insert_one.
Qed.

Lemma get_achievements_keeps_pets e pid : keeps_pets (get_achievements e pid).
Proof.
  unfold get_achievements.
  apply keeps_pets_bind; [apply keeps_pets_find|]. intros achs.
  apply keeps_pets_bind; [|intros; apply keeps_pets_lift].
  destruct achs; [|apply keeps_pets_ret].
  apply keeps_pets_bind; [|intros; apply keeps_pets_find].
  apply keeps_pets_for_each. intros i a.
  apply keeps_pets_bind; [apply keeps_pets_lift|].
  intros item. by apply keeps_pets_insert_one.
Qed.

Lemma get_pet_keeps_pets e pid : keeps_pets (get_pet e pid).
Proof.
  unfold get_pet. apply keeps_pets_bind; [done|].
  intros [d|]; [apply keeps_pets_lift|apply keeps_pets_raise].
Qed.

Lemma get_all_pets_keeps_pets e : keeps_pets (get_all_pets e).
Proof.
  unfold get_all_pets. apply keeps_pets_bind; [done|].
  intros; apply keeps_pets_lift.
Qed.

Lemma get_mood_entries_keeps_pets e pid : keeps_pets (get_mood_entries e pid).
Proof. done. Qed.

Lemma create_pet_doc e pet_data db q d :
  pet_by_id q db = Some d →
  pet_by_id q (create_pet e pet_data db).2 = Some d.
Proof.
  intros Hq. unfold create_pet, bind, db_insert_one, lift.
  cbn [coll_get coll_set snd]. unfold pet_by_id in *. cbn [pets].
  unfold insert_one. rewrite find_one_app, Hq. done.
Qed.

(** ** Stages *)

Lemma stage_of_set_fields upd d :
  upd !! "stage" = None → stage_of (set_fields upd d) = stage_of d.
Proof.
  intros H. unfold stage_of, get. by rewrite lookup_set_fields, H.
Qed.

Lemma stage_of_eq (d d' : doc) :
  d' !! "stage" = d !! "stage" → stage_of d' = stage_of d.
Proof. intros H. unfold stage_of, get. by rewrite H. Qed.

Lemma feed_updates_inv t d upd :
  feed_updates t d = Ok upd →
  ∃ h he c x,
    stat d "happiness" 50 = Ok h ∧ stat d "health" 100 = Ok he ∧
    stat d "coins" 100 = Ok c ∧ stat d "experience" 0 = Ok x ∧
    upd = <["happiness" := VInt (Z.min 100 (h + 15))]> (
          <["health" := VInt (Z.min 100 (he + 10))]> (
          <["coins" := VInt (c + 5)]> (
          <["experience" := VInt (x + 10)]> (
          <["last_fed" := VStr t]> ∅)))).
Proof.
  unfold feed_updates, get_plus. fold (stat d "happiness" 50).
  fold (stat d "health" 100). fold (stat d "coins" 100).
  fold (stat d "experience" 0).
  destruct (stat d "happiness" 50) as [h|]; [|done].
  destruct (stat d "health" 100) as [he|]; [|done].
  destruct (stat d "coins" 100) as [c|]; [|done].
  destruct (stat d "experience" 0) as [x|]; [|done].
  cbn [result_map result_bind]. intros [= <-]. by exists h, he, c, x.
Qed.

Lemma play_updates_inv t d upd :
  play_updates t d = Ok upd →
  ∃ h c x,
    stat d "happiness" 50 = Ok h ∧
    stat d "coins" 100 = Ok c ∧ stat d "experience" 0 = Ok x ∧
    upd = <["happiness" := VInt (Z.min 100 (h + 20))]> (
          <["coins" := VInt (c + 8)]> (
          <["experience" := VInt (x + 15)]> (
          <["last_played" := VStr t]> ∅))).
Proof.
  unfold play_updates, get_plus. fold (stat d "happiness" 50).
  fold (stat d "coins" 100). fold (stat d "experience" 0).
  destruct (stat d "happiness" 50) as [h|]; [|done].
  destruct (stat d "coins" 100) as [c|]; [|done].
  destruct (stat d "experience" 0) as [x|]; [|done].
  cbn [result_map result_bind]. intros [= <-]. by exists h, c, x.
Qed.

Lemma train_updates_inv t d upd :
  train_updates t d = Ok upd →
  ∃ h he c x,
    stat d "happiness" 50 = Ok h ∧ stat d "health" 100 = Ok he ∧
    stat d "coins" 100 = Ok c ∧ stat d "experience" 0 = Ok x ∧
    upd = evolve (x + 25) (stage_of d) (
          <["happiness" := VInt (Z.min 100 (h + 10))]> (
          <["health" := VInt (Z.min 100 (he + 5))]> (
          <["coins" := VInt (c + 12)]> (
          <["experience" := VInt (x + 25)]> (
          <["last_trained" := VStr t]> ∅))))).
Proof.
  unfold train_updates, get_plus. fold (stat d "happiness" 50).
  fold (stat d "health" 100). fold (stat d "coins" 100).
  fold (stat d "experience" 0). fold (stage_of d).
  destruct (stat d "happiness" 50) as [h|]; [|done].
  destruct (stat d "health" 100) as [he|]; [|done].
  destruct (stat d "coins" 100) as [c|]; [|done].
  destruct (stat d "experience" 0) as [x|]; [|done].
  cbn [result_map result_bind]. intros [= <-]. by exists h, he, c, x.
Qed.

Lemma feed_updates_id t d upd : feed_updates t d = Ok upd → upd !! "id" = None.
Proof.
  intros H. destruct (feed_updates_inv _ _ _ H) as (?&?&?&?&?&?&?&?&->).
  by map_lookup.
Qed.

Lemma play_updates_id t d upd : play_updates t d = Ok upd → upd !! "id" = None.
Proof.
  intros H. destruct (play_updates_inv _ _ _ H) as (?&?&?&?&?&?&->).
  by map_lookup.
Qed.

Lemma train_updates_id t d upd :
  train_updates t d = Ok upd → upd !! "id" = None.
Proof.
  intros H. destruct (train_updates_inv _ _ _ H) as (?&?&?&?&?&?&?&?&->).
  rewrite evolve_other by done. by map_lookup.
Qed.




Lemma stage_of_set_stage v (base d : doc) :
  stage_of (set_fields (<["stage" := v]> base) d) = v.
Proof.
  unfold stage_of, get. rewrite lookup_set_fields. by map_lookup.
Qed.

(** The stage after the evolution check of [train_pet]. *)
Lemma evolve_stage_of x (d base : doc) :
  base !! "stage" = None →
  stage_of (set_fields (evolve x (stage_of d) base) d) = stage_of d ∨
  advance (stage_of d) x (stage_of (set_fields (evolve x (stage_of d) base) d)).
Proof.
  intros Hb. unfold evolve. rewrite !Z.geb_leb.
  repeat match goal with
         | |- context [(?n <=? x) && bool_decide (stage_of d = ?s)] =>
             destruct ((n <=? x) && bool_decide (stage_of d = s)) eqn:E;
             [apply andb_true_iff in E as [Hx Hs];
              apply Z.leb_le in Hx; apply bool_decide_eq_true in Hs;
              right; rewrite stage_of_set_stage, Hs; by constructor
             |clear E]
         end.
  left. by apply stage_of_set_fields.
Qed.

Lemma keeps_pets_by_id {A} (m : M A) q db :
  keeps_pets m → pet_by_id q (m db).2 = pet_by_id q db.
Proof. intros H. unfold pet_by_id. by rewrite H. Qed.

(** What one request does to the stage of a stored pet. *)
Lemma serve_stage e r db pid d :
  pet_by_id pid db = Some d →
  ∃ d', pet_by_id pid (serve e r db) = Some d' ∧
        (stage_of d' = stage_of d ∨
         (r = POST_train pid ∧
          ∃ x, stat d "experience" 0 = Ok x ∧
               advance (stage_of d) (x + 25) (stage_of d'))).
Proof.
  intros Hd. destruct r as [pd|q| |q u|q|q|q|md|q| |q]; cbn [serve].
  - exists d. split; [by apply create_pet_doc|by left].
  - exists d. rewrite keeps_pets_by_id by apply get_pet_keeps_pets. auto.
  - exists d. rewrite keeps_pets_by_id by apply get_all_pets_keeps_pets. auto.
  - rewrite (update_pet_doc e q u db pid d Hd). eexists. split; [done|].
    left. case_decide; [|done]. apply stage_of_set_fields.
    rewrite update_data_lookup. unfold PetUpdate_dict. by map_lookup.
  - rewrite feed_pet_action.
    destruct (pet_action_doc (feed_updates (now e)) "Pet fed successfully!"
                e q db pid d (feed_updates_id _) Hd)
      as [H|(-> & upd & Hu & H)]; rewrite H; eexists; (split; [done|]);
      left; [done|].
    destruct (feed_updates_inv _ _ _ Hu) as (?&?&?&?&?&?&?&?&->).
    apply stage_of_set_fields. by map_lookup.
  - rewrite play_with_pet_action.
    destruct (pet_action_doc (play_updates (now e)) "Had fun playing!"
                e q db pid d (play_updates_id _) Hd)
      as [H|(-> & upd & Hu & H)]; rewrite H; eexists; (split; [done|]);
      left; [done|].
    destruct (play_updates_inv _ _ _ Hu) as (?&?&?&?&?&?&->).
    apply stage_of_set_fields. by map_lookup.
  - rewrite train_pet_action.
    destruct (pet_action_doc (train_updates (now e)) "Training completed!"
                e q db pid d (train_updates_id _) Hd)
      as [H|(-> & upd & Hu & H)]; rewrite H; eexists; (split; [done|]);
      [by left|].
    destruct (train_updates_inv _ _ _ Hu) as (h&he&c&x&?&?&?&Hx&->).
    match goal with
    | |- context [evolve _ _ ?b] =>
        destruct (evolve_stage_of (x + 25) d b) as [Hs|Hs]; [by map_lookup| |]
    end.
    + by left.
    + right. split; [done|]. by exists x.
  - destruct (create_mood_entry_doc e md db pid d Hd) as (d' & H & Hs).
    exists d'. split; [done|]. left. by apply stage_of_eq.
  - exists d.
    rewrite keeps_pets_by_id by apply get_mood_entries_keeps_pets. auto.
  - exists d. rewrite keeps_pets_by_id by apply get_shop_items_keeps_pets. auto.
  - exists d.
    rewrite keeps_pets_by_id by apply get_achievements_keeps_pets. auto.
Qed.

(** ** Ranges of happiness and health *)

Lemma stat_set_fields_int upd d k def z :
  upd !! k = Some (VInt z) → stat (set_fields upd d) k def = Ok z.
Proof.
  intros H. unfold stat, get. by rewrite lookup_set_fields, H.
Qed.

Lemma stat_set_fields_None upd d k def :
  upd !! k = None → stat (set_fields upd d) k def = stat d k def.
Proof.
  intros H. unfold stat, get. by rewrite lookup_set_fields, H.
Qed.

Lemma field_int_set_fields upd d k def z z' :
  upd !! k = Some (VInt z) →
  field_int (set_fields upd d) k def = Ok z' → z' = z.
Proof.
  intros H. unfold field_int. rewrite lookup_set_fields, H. by intros [= <-].
Qed.

Lemma feed_updates_in_range t d upd :
  feed_updates t d = Ok upd → in_range d → in_range (set_fields upd d).
Proof.
  intros Hu (h & he & Hh & Hhe & ? & ?).
  destruct (feed_updates_inv _ _ _ Hu) as (h'&he'&c&x&Hh'&Hhe'&_&_&->).
  assert (h' = h) as -> by congruence.
  assert (he' = he) as -> by congruence.
  exists (Z.min 100 (h + 15)), (Z.min 100 (he + 10)).
  split; [apply stat_set_fields_int; by map_lookup|].
  split; [apply stat_set_fields_int; by map_lookup|]. lia.
Qed.

Lemma play_updates_in_range t d upd :
  play_updates t d = Ok upd → in_range d → in_range (set_fields upd d).
Proof.
  intros Hu (h & he & Hh & Hhe & ? & ?).
  destruct (play_updates_inv _ _ _ Hu) as (h'&c&x&Hh'&_&_&->).
  assert (h' = h) as -> by congruence.
  exists (Z.min 100 (h + 20)), he.
  split; [apply stat_set_fields_int; by map_lookup|].
  split; [rewrite stat_set_fields_None; [done|by map_lookup]|]. lia.
Qed.

Lemma train_updates_in_range t d upd :
  train_updates t d = Ok upd → in_range d → in_range (set_fields upd d).
Proof.
  intros Hu (h & he & Hh & Hhe & ? & ?).
  destruct (train_updates_inv _ _ _ Hu) as (h'&he'&c&x&Hh'&Hhe'&_&_&->).
  assert (h' = h) as -> by congruence.
  assert (he' = he) as -> by congruence.
  exists (Z.min 100 (h + 10)), (Z.min 100 (he + 5)).
  split; [apply stat_set_fields_int; rewrite evolve_other by done;
          by map_lookup|].
  split; [apply stat_set_fields_int; rewrite evolve_other by done;
          by map_lookup|]. lia.
Qed.

Lemma pet_action_in_range upd_of msg e pid db q d :
  (∀ d upd, upd_of d = Ok upd → upd !! "id" = None) →
  (∀ d upd, upd_of d = Ok upd → in_range d → in_range (set_fields upd d)) →
  pet_by_id q db = Some d → in_range d →
  ∃ d', pet_by_id q (pet_action upd_of msg e pid db).2 = Some d' ∧
        in_range d'.
Proof.
  intros Hid Hr Hq Hd.
  destruct (pet_action_doc upd_of msg e pid db q d Hid Hq)
    as [H|(-> & upd & Hu & H)]; rewrite H; eauto.
Qed.

Lemma serve_action_in_range e r db q d :
  is_action r → pet_by_id q db = Some d → in_range d →
  ∃ d', pet_by_id q (serve e r db) = Some d' ∧ in_range d'.
Proof.
  intros Ha Hq Hd. destruct r; try done; cbn [serve].
  - rewrite feed_pet_action. apply (pet_action_in_range _ _ _ _ _ _ d);
      eauto using feed_updates_id, feed_updates_in_range.
  - rewrite play_with_pet_action. apply (pet_action_in_range _ _ _ _ _ _ d);
      eauto using play_updates_id, play_updates_in_range.
  - rewrite train_pet_action. apply (pet_action_in_range _ _ _ _ _ _ d);
      eauto using train_updates_id, train_updates_in_range.
Qed.

(** An action that answers with a pet has read a document and written
    its updates; the answer is the view of the updated document. *)
Lemma pet_action_response upd_of msg e pid db m p :
  (∀ d upd, upd_of d = Ok upd → upd !! "id" = None) →
  (pet_action upd_of msg e pid db).1 = Ok (m, p) →
  ∃ d upd, pet_by_id pid db = Some d ∧ upd_of d = Ok upd ∧
           Pet_of (uuid4 e 0) (now e) (set_fields upd d) = Ok p.
Proof.
  intros Hid H.
  destruct (pet_by_id pid db) as [d|] eqn:Hd.
  - destruct (upd_of d) as [upd|x] eqn:Hu.
    + destruct (encodable upd) eqn:Henc; cycle 1.
      { by rewrite (pet_action_refused upd_of msg e pid db d upd Hd Hu Henc)
          in H. }
      destruct (pet_action_run upd_of msg e pid db d upd Hd Hu (Hid _ _ Hu)
                  Henc) as (c' & Hrun & _).
      rewrite Hrun in H. cbn [fst] in H. exists d, upd.
      split; [done|]. split; [done|].
      destruct (Pet_of _ _ _); [|done]. by injection H as _ ->.
    + by rewrite (pet_action_raise upd_of msg e pid db d x Hd Hu) in H.
  - by rewrite (pet_action_not_found upd_of msg e pid db Hd) in H.
Qed.


(** ** Every pet document the API writes has integer statistics *)

Lemma stored_pet_set_fields upd d :
  int_update upd → stored_pet d → stored_pet (set_fields upd d).
Proof.
  intros Hupd (h & he & c & x & Hh & Hhe & Hc & Hx).
  assert (Hk : ∀ k z, k ∈ ["happiness"; "health"; "coins"; "experience"] →
                 d !! k = Some (VInt z) →
                 ∃ z', set_fields upd d !! k = Some (VInt z')).
  { intros k z Hin Hd. rewrite lookup_set_fields.
    destruct (Hupd k Hin) as [->|[z' ->]]; eauto. }
  destruct (Hk "happiness" h) as [h' ?]; [set_solver|done|].
  destruct (Hk "health" he) as [he' ?]; [set_solver|done|].
  destruct (Hk "coins" c) as [c' ?]; [set_solver|done|].
  destruct (Hk "experience" x) as [x' ?]; [set_solver|done|].
  by exists h', he', c', x'.
Qed.

Ltac int_update_cases :=
  let k := fresh "k" in
  let Hk := fresh "Hk" in
  intros k Hk;
  repeat (apply elem_of_cons in Hk as [->|Hk]);
  [..|by apply elem_of_nil in Hk].

Lemma feed_updates_int t d upd : feed_updates t d = Ok upd → int_update upd.
Proof.
  intros H. destruct (feed_updates_inv _ _ _ H) as (?&?&?&?&_&_&_&_&->).
  int_update_cases; right; map_lookup; by eexists.
Qed.

Lemma play_updates_int t d upd : play_updates t d = Ok upd → int_update upd.
Proof.
  intros H. destruct (play_updates_inv _ _ _ H) as (?&?&?&_&_&_&->).
  int_update_cases; map_lookup; first [by left | right; by eexists].
Qed.

Lemma train_updates_int t d upd : train_updates t d = Ok upd → int_update upd.
Proof.
  intros H. destruct (train_updates_inv _ _ _ H) as (?&?&?&?&_&_&_&_&->).
  int_update_cases; right; rewrite evolve_other by done; map_lookup;
    by eexists.
Qed.

Lemma update_data_int u : int_update (update_data_of u).
Proof.
  int_update_cases; rewrite update_data_lookup; unfold PetUpdate_dict;
    map_lookup.
  - destruct (pu_happiness u); [right; by eexists|by left].
  - destruct (pu_health u); [right; by eexists|by left].
  - destruct (pu_coins u); [right; by eexists|by left].
  - by left.
Qed.

Lemma mood_update_stored nh ce d d' :
  apply_update (mood_update nh ce) d = Some d' →
  stored_pet d → stored_pet d'.
Proof.
  intros Hm (h & he & c & x & Hh & Hhe & Hc & Hx).
  destruct (mood_update_inv _ _ _ _ Hm)
    as (Hh' & [[? _]|(c0 & _ & _ & Hc')] & [[? _]|(x0 & _ & _ & Hx')]);
    try congruence.
  exists nh, he, (c0 + ce), (x0 + 5). repeat split; try done.
  by rewrite (mood_update_other _ _ _ _ "health" Hm).
Qed.

(** The pets after an action: as before, or with the updates of the
    action written to one document. *)
Lemma pet_action_pets upd_of msg e pid db :
  (∀ d upd, upd_of d = Ok upd → upd !! "id" = None) →
  pets (pet_action upd_of msg e pid db).2 = pets db ∨
  ∃ d upd c',
    upd_of d = Ok upd ∧ encodable upd = true ∧
    update_one "id" (VStr pid) (λ d, Some (set_fields upd d)) (pets db)
      = Some c' ∧
    pets (pet_action upd_of msg e pid db).2 = c'.
Proof.
  intros Hid. unfold pet_action, bind, db_find_one. cbn [coll_get].
  destruct (find_one "id" (VStr pid) (pets db)) as [d|]; [|by left].
  unfold lift. destruct (upd_of d) as [upd|x] eqn:Hu; [|by left].
  destruct (encodable upd) eqn:Henc; cycle 1.
  { left. by rewrite apply_updates_refused. }
  right. exists d, upd.
  destruct (update_one_total "id" (VStr pid) (set_fields upd) (pets db))
    as [c' Hc].
  exists c'. split; [done|]. split; [done|]. split; [done|].
  unfold apply_updates, bind.
  rewrite db_update_one_sent by (by rewrite update_encodable_set).
  cbn [coll_get].
  change (apply_update {| upd_set := upd; upd_inc := [] |})
    with (λ d, Some (set_fields upd d)).
  rewrite Hc.
  unfold db_find_one. cbn.
  destruct (find_one "id" (VStr pid) c'); cbn; [|done].
  unfold lift. by destruct (Pet_of _ _ _).
Qed.

Lemma pet_action_stored upd_of msg e pid db :
  (∀ d upd, upd_of d = Ok upd → upd !! "id" = None) →
  (∀ d upd, upd_of d = Ok upd → int_update upd) →
  Forall stored_pet (pets db) →
  Forall stored_pet (pets (pet_action upd_of msg e pid db).2).
Proof.
  intros Hid Hint Hdb.
  destruct (pet_action_pets upd_of msg e pid db Hid)
    as [->|(d & upd & c' & Hu & _ & Hc & ->)]; [done|].
  eapply (update_one_Forall stored_pet); [|exact Hdb|exact Hc].
  intros d0 d' Hs [= <-]. exact (stored_pet_set_fields _ _ (Hint _ _ Hu) Hs).
Qed.

Lemma bind_pets {A B} (m : M A) (k : A → M B) db :
  (∀ a, keeps_pets (k a)) → pets (bind m k db).2 = pets (m db).2.
Proof.
  intros Hk. unfold bind. destruct (m db) as [[a|x] db']; [|done].
  apply Hk.
Qed.

Lemma update_pet_stored e pid u db :
  Forall stored_pet (pets db) →
  Forall stored_pet (pets (update_pet e pid u db).2).
Proof.
  intros Hdb. pose proof (update_data_int u) as Hint.
  unfold update_pet.
  generalize dependent (update_data_of u). intros upd Hint.
  rewrite bind_pets by (intros _; apply get_pet_keeps_pets).
  case_bool_decide; [|done].
  unfold db_update_one. destruct (update_encodable _); [|done].
  change (apply_update {| upd_set := upd; upd_inc := [] |})
    with (λ d, Some (set_fields upd d)).
  destruct (update_one_total "id" (VStr pid) (set_fields upd) (pets db))
    as [c' Hc].
  cbn [coll_get]. rewrite Hc. cbn [snd coll_set pets].
  eapply (update_one_Forall stored_pet); [|exact Hdb|exact Hc].
  intros d0 d' Hs [= <-]. exact (stored_pet_set_fields _ _ Hint Hs).
Qed.

Lemma create_mood_entry_stored e md db :
  Forall stored_pet (pets db) →
  Forall stored_pet (pets (create_mood_entry e md db).2).
Proof.
  intros Hdb.
  destruct (decide (1 ≤ mc_intensity md ≤ 10)) as [Hi|Hi].
  - pose proof (create_mood_entry_cases e md db Hi) as H. cbv zeta in H.
    destruct (pet_by_id (mc_pet_id md) db) as [d0|];
      [destruct (stat d0 "happiness" 50) as [h|x];
       [destruct (update_one _ _ _ _) as [c'|] eqn:Hc|]|];
      rewrite H; try done.
    cbn [snd coll_set pets].
    eapply (update_one_Forall stored_pet); [|exact Hdb|exact Hc].
    intros d1 d' Hs Hm. exact (mood_update_stored _ _ _ _ Hm Hs).
  - by rewrite create_mood_entry_invalid.
Qed.

Lemma stored_pet_dict p : stored_pet (Pet_dict p).
Proof.
  exists (pet_happiness p), (pet_health p), (pet_coins p), (pet_experience p).
  unfold Pet_dict. repeat split; by map_lookup.
Qed.

(** One request keeps the invariant, so every store reached from the
    empty store through the routes holds such documents only. *)
Lemma serve_stored_pets e r db :
  Forall stored_pet (pets db) → Forall stored_pet (pets (serve e r db)).
Proof.
  intros Hdb. destruct r as [pd|q| |q u|q|q|q|md|q| |q]; cbn [serve].
  - unfold create_pet, bind, db_insert_one, lift. cbn [coll_get].
    assert (Hnew : Forall stored_pet
              (insert_one (prepare_for_mongo (Pet_dict (Pet_new e (pc_name pd))))
                 (pets db))).
    { apply Forall_app. split; [done|].
      apply Forall_singleton, stored_pet_dict. }
    by destruct (Pet_of _ _ _).
  - by rewrite get_pet_keeps_pets.
  - by rewrite get_all_pets_keeps_pets.
  - by apply update_pet_stored.
  - rewrite feed_pet_action. apply pet_action_stored;
      eauto using feed_updates_id, feed_updates_int.
  - rewrite play_with_pet_action. apply pet_action_stored;
      eauto using play_updates_id, play_updates_int.
  - rewrite train_pet_action. apply pet_action_stored;
      eauto using train_updates_id, train_updates_int.
  - by apply create_mood_entry_stored.
  - by rewrite get_mood_entries_keeps_pets.
  - by rewrite get_shop_items_keeps_pets.
  - by rewrite get_achievements_keeps_pets.
Qed.

Lemma reachable_stored_pets rs :
  Forall stored_pet (pets (serve_all rs empty_db)).
Proof.
  assert (H : ∀ db, Forall stored_pet (pets db) →
                Forall stored_pet (pets (serve_all rs db))).
  { induction rs as [|[e r] rs IH]; intros db Hdb; [done|].
    cbn [serve_all foldl fst snd]. apply IH. by apply serve_stored_pets. }
  apply H. constructor.
Qed.

(** * The numbered properties of the specification *)

(** ** C1: the happiness delta of a negative emotion *)

(** C1, as the code computes it.  For every emotion among sad, angry and
    anxious and every intensity from 1 to 10 the happiness delta is the
    floor division by 2 of the negated intensity, [(-intensity) // 2]:
    minus the intensity halved and rounded up.  It equals minus the
    floor of the half exactly when the intensity is even (5 gives -3,
    7 gives -4, 10 gives -5). *)
Theorem happiness_change_negative emotion intensity :
  emotion ∈ [SAD; ANGRY; ANXIOUS] → 1 ≤ intensity ≤ 10 →
  happiness_change emotion intensity = floordiv (- intensity) 2 ∧
  happiness_change emotion intensity = - ((intensity + 1) / 2) ∧
  (happiness_change emotion intensity = - (floordiv intensity 2)
   ↔ Z.even intensity = true).
Proof.
  intros Hem Hi.
  assert (Hc : happiness_change emotion intensity = floordiv (- intensity) 2).
  { unfold happiness_change.
    repeat (apply elem_of_cons in Hem as [->|Hem]; [done|]).
    by apply elem_of_nil in Hem. }
  rewrite Hc. unfold floordiv. split; [done|].
  assert (Hcases : intensity = 1 ∨ intensity = 2 ∨ intensity = 3 ∨
                   intensity = 4 ∨ intensity = 5 ∨ intensity = 6 ∨
                   intensity = 7 ∨ intensity = 8 ∨ intensity = 9 ∨
                   intensity = 10) by lia.
  repeat (destruct Hcases as [->|Hcases]); try subst intensity;
    (split; [done|]); split; done.
Qed.

Lemma happiness_change_negative_witness :
  SAD ∈ [SAD; ANGRY; ANXIOUS] ∧ 1 ≤ 7 ≤ 10 ∧
  happiness_change SAD 7 = floordiv (- 7) 2 ∧
  happiness_change SAD 7 = - ((7 + 1) / 2) ∧
  (happiness_change SAD 7 = - (floordiv 7 2) ↔ Z.even 7 = true).
Proof.
  assert (Hem : SAD ∈ [SAD; ANGRY; ANXIOUS]) by (apply elem_of_cons; by left).
  assert (Hi : 1 ≤ 7 ≤ 10) by lia.
  split; [exact Hem|]. split; [exact Hi|].
  exact (happiness_change_negative SAD 7 Hem Hi).
Defined.

(** C1 as stated fails: a sad mood of intensity 5 changes the happiness
    by -3, not by -(5 // 2) = -2; a fresh pet of happiness 50 is shown
    with happiness 47 after it. *)
Lemma happiness_change_sad_5 :
  SAD ∈ [SAD; ANGRY; ANXIOUS] ∧ 1 ≤ 5 ≤ 10 ∧
  happiness_change SAD 5 = -3 ∧
  happiness_change SAD 5 ≠ - (floordiv 5 2) ∧
  result_map pet_happiness
    (get_pet env0 "id-0"
       (serve env0 (POST_moods (mkMoodEntryCreate SAD 5 None "id-0"))
              db_rex)).1 = Ok 47.
Proof.
  split; [apply elem_of_cons; by left|].
  split; [lia|]. split; [reflexivity|]. split; [by compute|].
  reflexivity.
Qed.

(** ** C7: the table of the actions *)

(** C7, as the code has it.  For every pet that the API shows as [p]:
    feed answers with the pet [fed p] (happiness +15 and health +10,
    each bounded above by 100, coins +5, experience +10, last_fed set);
    play answers with
    [played p] (happiness +20 bounded above by 100, health as it was,
    coins +8, experience +15, last_played set); train answers with
    [trained p] (happiness +10 and health +5 bounded above by 100,
    coins +12, experience +25, last_trained set).  The pet is stored as
    answered.  Coins and experience are not clamped; the store holds
    integers of 8 bytes, and this is the one bound: each of the three
    holds when the integers of the pet it leads to are integers of 8
    bytes, and an action on a stored pet that leads to a pet beyond
    raises [OverflowError] and leaves the store as it is. *)
Theorem action_table e pid db p :
  (get_pet e pid db).1 = Ok p →
  (storable (fed (now e) p) = true →
   (feed_pet e pid db).1 = Ok ("Pet fed successfully!", fed (now e) p) ∧
   (get_pet e pid (feed_pet e pid db).2).1 = Ok (fed (now e) p)) ∧
  (storable (played (now e) p) = true →
   (play_with_pet e pid db).1 = Ok ("Had fun playing!", played (now e) p) ∧
   (get_pet e pid (play_with_pet e pid db).2).1 = Ok (played (now e) p)) ∧
  (storable (trained (now e) p) = true →
   (train_pet e pid db).1 = Ok ("Training completed!", trained (now e) p) ∧
   (get_pet e pid (train_pet e pid db).2).1 = Ok (trained (now e) p)) ∧
  (storable p = true →
   (storable (fed (now e) p) = false →
    feed_pet e pid db = (Raise OverflowError, db)) ∧
   (storable (played (now e) p) = false →
    play_with_pet e pid db = (Raise OverflowError, db)) ∧
   (storable (trained (now e) p) = false →
    train_pet e pid db = (Raise OverflowError, db))) ∧
  (∀ t, pet_happiness (fed t p) = Z.min 100 (pet_happiness p + 15) ∧
        pet_health (fed t p) = Z.min 100 (pet_health p + 10) ∧
        pet_coins (fed t p) = pet_coins p + 5 ∧
        pet_experience (fed t p) = pet_experience p + 10 ∧
        pet_last_fed (fed t p) = Some t) ∧
  (∀ t, pet_happiness (played t p) = Z.min 100 (pet_happiness p + 20) ∧
        pet_health (played t p) = pet_health p ∧
        pet_coins (played t p) = pet_coins p + 8 ∧
        pet_experience (played t p) = pet_experience p + 15 ∧
        pet_last_played (played t p) = Some t) ∧
  (∀ t, pet_happiness (trained t p) = Z.min 100 (pet_happiness p + 10) ∧
        pet_health (trained t p) = Z.min 100 (pet_health p + 5) ∧
        pet_coins (trained t p) = pet_coins p + 12 ∧
        pet_experience (trained t p) = pet_experience p + 25 ∧
        pet_last_trained (trained t p) = Some t).
Proof.
  intros Hp.
  split; [|split; [|split; [|split; [|by repeat split]]]].
  - intros Hst. rewrite feed_pet_action.
    destruct (pet_action_Pet (feed_updates (now e)) "Pet fed successfully!"
                (fed (now e)) e pid db p) as (db' & -> & H & _);
      [intros; by apply feed_updates_Pet|apply feed_writes|done|done|done].
  - intros Hst. rewrite play_with_pet_action.
    destruct (pet_action_Pet (play_updates (now e)) "Had fun playing!"
                (played (now e)) e pid db p) as (db' & -> & H & _);
      [intros; by apply play_updates_Pet|apply play_writes|done|done|done].
  - intros Hst. rewrite train_pet_action.
    destruct (pet_action_Pet (train_updates (now e)) "Training completed!"
                (trained (now e)) e pid db p) as (db' & -> & H & _);
      [intros; by apply train_updates_Pet|apply train_writes|done|done|done].
  - intros Hst. split; [|split]; intros Hst'.
    + rewrite feed_pet_action.
      apply (pet_action_overflow _ _ (fed (now e)) _ _ _ p);
        [intros; by apply feed_updates_Pet|apply feed_refuses|done..].
    + rewrite play_with_pet_action.
      apply (pet_action_overflow _ _ (played (now e)) _ _ _ p);
        [intros; by apply play_updates_Pet|apply play_refuses|done..].
    + rewrite train_pet_action.
      apply (pet_action_overflow _ _ (trained (now e)) _ _ _ p);
        [intros; by apply train_updates_Pet|apply train_refuses|done..].
Qed.

Lemma action_table_witness :
  (get_pet env0 "id-0" db_rex).1 = Ok (Pet_new env0 "Rex") ∧
  storable (fed (now env0) (Pet_new env0 "Rex")) = true ∧
  (feed_pet env0 "id-0" db_rex).1 =
    Ok ("Pet fed successfully!", fed (now env0) (Pet_new env0 "Rex")).
Proof.
  assert (H : (get_pet env0 "id-0" db_rex).1 = Ok (Pet_new env0 "Rex"))
    by reflexivity.
  split; [exact H|]. split; [reflexivity|].
  exact (proj1 (proj1 (action_table env0 "id-0" db_rex
                         (Pet_new env0 "Rex") H) eq_refl)).
Defined.

(** C7 as stated fails at the bound of the store: a pet whose coins
    were set to the greatest integer of 8 bytes through the update route
    is not fed; the request raises and the store is as before. *)
Lemma feed_beyond_int64 :
  let db := serve env0 (PUT_pet "id-0"
                          (mkPetUpdate None None None (Some int64_max)))
                  db_rex in
  result_map pet_coins (get_pet env0 "id-0" db).1 = Ok int64_max ∧
  feed_pet env0 "id-0" db = (Raise OverflowError, db).
Proof. split; reflexivity. Qed.

(** ** C2: the range of happiness and health under the actions *)

(** C2, as the code has it.  The actions bound happiness and health
    above by 100 and have no lower bound.  A pet whose happiness and
    health are within [0,100] keeps them within [0,100] through any
    sequence of feed, play and train requests (on any pets).  Whatever
    the starting values, the pet that feed or train answers with has
    happiness and health at most 100, and the pet that play answers
    with has happiness at most 100; play does not write the health. *)
Theorem actions_keep_range :
  (∀ rs db pid d,
     Forall (λ er : env * request, is_action er.2) rs →
     pet_by_id pid db = Some d → in_range d →
     ∃ d', pet_by_id pid (serve_all rs db) = Some d' ∧ in_range d') ∧
  (∀ e pid db m p,
     (feed_pet e pid db).1 = Ok (m, p) ∨ (train_pet e pid db).1 = Ok (m, p) →
     pet_happiness p ≤ 100 ∧ pet_health p ≤ 100) ∧
  (∀ e pid db m p,
     (play_with_pet e pid db).1 = Ok (m, p) →
     pet_happiness p ≤ 100 ∧
     ∀ p0, (get_pet e pid db).1 = Ok p0 → pet_health p = pet_health p0).
Proof.
  split; [|split].
  - intros rs. induction rs as [|[e r] rs IH]; intros db pid d Hrs Hd Hr.
    + by exists d.
    + apply Forall_cons in Hrs as [Ha Hrs]. cbn [serve_all foldl fst snd].
      destruct (serve_action_in_range e r db pid d Ha Hd Hr) as (d1 & H1 & Hr1).
      exact (IH _ _ _ Hrs H1 Hr1).
  - intros e pid db m p [H|H].
    + rewrite feed_pet_action in H.
      destruct (pet_action_response _ _ _ _ _ _ _ (feed_updates_id _) H)
        as (d & upd & Hd & Hu & Hp).
      destruct (feed_updates_inv _ _ _ Hu) as (h&he&c&x&_&_&_&_&->).
      apply Pet_of_inv in Hp as (_&_&_&Hh&Hhe&_).
      apply (field_int_set_fields _ _ _ _ (Z.min 100 (h + 15))) in Hh;
        [|by map_lookup].
      apply (field_int_set_fields _ _ _ _ (Z.min 100 (he + 10))) in Hhe;
        [|by map_lookup].
      lia.
    + rewrite train_pet_action in H.
      destruct (pet_action_response _ _ _ _ _ _ _ (train_updates_id _) H)
        as (d & upd & Hd & Hu & Hp).
      destruct (train_updates_inv _ _ _ Hu) as (h&he&c&x&_&_&_&_&->).
      apply Pet_of_inv in Hp as (_&_&_&Hh&Hhe&_).
      apply (field_int_set_fields _ _ _ _ (Z.min 100 (h + 10))) in Hh;
        [|rewrite evolve_other by done; by map_lookup].
      apply (field_int_set_fields _ _ _ _ (Z.min 100 (he + 5))) in Hhe;
        [|rewrite evolve_other by done; by map_lookup].
      lia.
  - intros e pid db m p H. rewrite play_with_pet_action in H.
    destruct (pet_action_response _ _ _ _ _ _ _ (play_updates_id _) H)
      as (d & upd & Hd & Hu & Hp).
    destruct (play_updates_inv _ _ _ Hu) as (h&c&x&_&_&_&->).
    apply Pet_of_inv in Hp as (_&_&_&Hh&Hhe&_).
    apply (field_int_set_fields _ _ _ _ (Z.min 100 (h + 20))) in Hh;
      [|by map_lookup].
    split; [lia|]. intros p0 Hp0.
    rewrite (get_pet_found _ _ _ _ Hd) in Hp0. cbn [fst] in Hp0.
    apply Pet_of_inv in Hp0 as (_&_&_&_&Hhe0&_).
    unfold field_int in Hhe, Hhe0. rewrite lookup_set_fields in Hhe.
    rewrite lookup_insert_ne in Hhe by done.
    rewrite lookup_insert_ne in Hhe by done.
    rewrite lookup_insert_ne in Hhe by done.
    rewrite lookup_insert_ne in Hhe by done.
    rewrite lookup_empty in Hhe. congruence.
Qed.

Lemma actions_keep_range_witness :
  Forall (λ er : env * request, is_action er.2)
         [(env0, POST_feed "id-0"); (env0, POST_play "id-0");
          (env0, POST_train "id-0")] ∧
  pet_by_id "id-0" db_rex = Some (Pet_dict (Pet_new env0 "Rex")) ∧
  in_range (Pet_dict (Pet_new env0 "Rex")) ∧
  ∃ d', pet_by_id "id-0"
          (serve_all [(env0, POST_feed "id-0"); (env0, POST_play "id-0");
                      (env0, POST_train "id-0")] db_rex) = Some d' ∧
        in_range d'.
Proof.
  assert (Hrs : Forall (λ er : env * request, is_action er.2)
                  [(env0, POST_feed "id-0"); (env0, POST_play "id-0");
                   (env0, POST_train "id-0")])
    by (repeat constructor).
  assert (Hd : pet_by_id "id-0" db_rex = Some (Pet_dict (Pet_new env0 "Rex")))
    by reflexivity.
  assert (Hr : in_range (Pet_dict (Pet_new env0 "Rex"))).
  { exists 50, 100. split; [reflexivity|]. split; [reflexivity|]. lia. }
  split; [exact Hrs|]. split; [exact Hd|]. split; [exact Hr|].
  exact (proj1 actions_keep_range _ _ _ _ Hrs Hd Hr).
Defined.

(** C2 as stated fails: a pet whose happiness was set to -50 through the
    update route is shown with happiness -35 after a feed, below the
    range. *)
Lemma feed_below_range :
  result_map pet_happiness (get_pet env0 "id-0" db_low).1 = Ok (-50) ∧
  result_map (λ r : string * Pet, pet_happiness r.2)
             (feed_pet env0 "id-0" db_low).1 = Ok (-35) ∧
  result_map pet_happiness
             (get_pet env0 "id-0" (feed_pet env0 "id-0" db_low).2).1
    = Ok (-35) ∧
  ¬ (0 ≤ -35 ≤ 100).
Proof.
  split; [reflexivity|]. split; [reflexivity|].
  split; [reflexivity|]. lia.
Qed.

(** ** C3: stage transitions *)



(** ** C9: the shop catalog *)

(** C9.  On a store whose shop collection is empty the catalog route
    answers with five items, the default items in their order, each with
    the identifier drawn for it, and stores them; their names are
    pairwise different.  A second call, in any environment, answers with
    the same five items and leaves the store as it is. *)
Theorem shop_seeded_once e e' db :
  shop_items db = [] →
  let items := seeded_items e in
  (get_shop_items e db).1 = Ok items ∧
  length items = 5%nat ∧
  ShopItem_dict <$> items =
    imap (λ i d, <["id" := VStr (uuid4 e i)]> d) default_items ∧
  NoDup (si_name <$> items) ∧
  shop_items (get_shop_items e db).2 = ShopItem_dict <$> items ∧
  get_shop_items e' (get_shop_items e db).2 =
    (Ok items, (get_shop_items e db).2).
Proof.
  intros Hdb. destruct db as [ps ms ss acs]. cbn [shop_items] in Hdb.
  subst ss. intros items.
  split; [reflexivity|]. split; [reflexivity|]. split; [reflexivity|].
  split; [|split; reflexivity].
  apply (bool_decide_unpack _). reflexivity.
Qed.

Lemma shop_seeded_once_witness :
  shop_items empty_db = [] ∧
  (get_shop_items env0 empty_db).1 = Ok (seeded_items env0) ∧
  get_shop_items env0 (get_shop_items env0 empty_db).2 =
    (Ok (seeded_items env0), (get_shop_items env0 empty_db).2).
Proof.
  assert (H : shop_items empty_db = []) by reflexivity.
  split; [exact H|].
  destruct (shop_seeded_once env0 env0 empty_db H) as (H1 & _ & _ & _ & _ & H2).
  split; [exact H1|exact H2].
Defined.

(** ** C4: requests that address no pet *)

Section raises_only.
Context {A B : Type} (P : exn → Prop).



End raises_only.








Lemma get_pet_not_found e pid db :
  pet_by_id pid db = None →
  get_pet e pid db = (Raise (HTTPException 404 "Pet not found"), db).
Proof.
  unfold pet_by_id, get_pet, bind, db_find_one. cbn [coll_get].
  by intros ->.
Qed.

Lemma find_app k v (c c' : list doc) : find k v (c ++ c') = (find k v c ++ find k v c')%list.
Proof. unfold find. apply List.filter_app. Qed.

Lemma find_singleton k v (d : doc) : d !! k = Some v → find k v [d] = [d].
Proof. intros H. unfold find. simpl. by rewrite (proj2 (matches_true k v d) H). Qed.

Lemma bind_Ok {A B} (m : M A) (k : A → M B) db a db' :
  m db = (Ok a, db') → bind m k db = k a db'.
Proof. intros H. unfold bind. by rewrite H. Qed.

Lemma seeding_loop e pid db :
  for_each (λ i ach_data,
              achievement <-
                lift (Achievement_of (uuid4 e i)
                        (<["pet_id" := VStr pid]> ach_data)) ;;
              db_insert_one Achievements (Achievement_dict achievement))
           0 default_achievements db
  = (Ok tt, coll_set Achievements
              (achievements db ++
                 (Achievement_dict <$> seeded_achievements e pid))%list db).
Proof.
  transitivity
    (Ok tt,
     coll_set Achievements
       (foldl (λ c a, insert_one (Achievement_dict a) c) (achievements db)
              (seeded_achievements e pid)) db).
  - destruct db. reflexivity.
  - do 2 f_equal. cbn [foldl seeded_achievements]. unfold insert_one.
    rewrite <- !app_assoc. reflexivity.
Qed.

(** With no achievement stored for the identifier the route seeds the
    defaults and answers with them; no pet is looked up. *)
Lemma get_achievements_seeds e pid db :
  find "pet_id" (VStr pid) (achievements db) = [] →
  (get_achievements e pid db).1 = Ok (seeded_achievements e pid) ∧
  achievements (get_achievements e pid db).2 =
    (achievements db ++ (Achievement_dict <$> seeded_achievements e pid))%list ∧
  pets (get_achievements e pid db).2 = pets db.
Proof.
  intros Hnone.
  assert (Hfound :
    find "pet_id" (VStr pid)
      (achievements db ++ (Achievement_dict <$> seeded_achievements e pid))%list
    = Achievement_dict <$> seeded_achievements e pid).
  { rewrite find_app, Hnone. cbn [app fmap list_fmap seeded_achievements].
    repeat match goal with
    | |- find _ _ (?d :: ?l) = _ =>
        change (d :: l) with ([d] ++ l)%list; rewrite find_app, find_singleton;
        [cbn [app]; f_equal | unfold Achievement_dict; by map_lookup]
    end. }
  assert (Hrun : get_achievements e pid db =
            (Ok (seeded_achievements e pid),
             coll_set Achievements
               (achievements db ++
                  (Achievement_dict <$> seeded_achievements e pid))%list db)).
  { unfold get_achievements.
    rewrite (bind_Ok _ _ db [] db);
      [|unfold db_find; cbn [coll_get]; by rewrite Hnone].
    erewrite bind_Ok.
    2:{ erewrite bind_Ok; [|apply seeding_loop].
        unfold db_find. cbn [coll_get coll_set achievements].
        rewrite Hfound. reflexivity. }
    unfold lift. f_equal; reflexivity. }
  rewrite Hrun. split; [done|]. split; [done|]. by destruct db.
Qed.




(** ** C5: six train calls on a fresh pet *)

Lemma Pet_of_dict f t p : Pet_of f t (Pet_dict p) = Ok p.
Proof.
  destruct p as [id name stage h he c x lf lp lt cr].
  unfold Pet_dict. cbn [pet_id pet_name pet_stage pet_happiness pet_health
    pet_coins pet_experience pet_last_fed pet_last_played pet_last_trained
    pet_created_at].
  apply Pet_of_intro;
    unfold field_str, field_int, field_opt_str, field_stage;
    map_lookup; try done.
  - by rewrite PetStage_of_value_eq.
  - by destruct lf.
  - by destruct lp.
  - by destruct lt.
Qed.

(** One train call on a stored document that every environment shows
    as [p]. *)
Lemma train_pet_step e pid db d p :
  pet_by_id pid db = Some d → (∀ f t, Pet_of f t d = Ok p) →
  storable (trained (now e) p) = true →
  ∃ db' d',
    train_pet e pid db = (Ok ("Training completed!", trained (now e) p), db') ∧
    pet_by_id pid db' = Some d' ∧
    (∀ f t, Pet_of f t d' = Ok (trained (now e) p)).
Proof.
  intros Hd Hp Hst.
  destruct (train_updates_Pet (uuid4 e 0) (now e) (now e) d p (Hp _ _))
    as (upd & Hu & Hid & Hp').
  rewrite train_pet_action.
  destruct (pet_action_run (train_updates (now e)) "Training completed!"
              e pid db d upd Hd Hu Hid
              (train_writes _ _ _ _ _ _ (Hp (uuid4 e 0) (now e)) Hu Hst))
    as (c' & -> & Hq).
  exists (coll_set Pets c' db), (set_fields upd d).
  rewrite Hp'. split; [done|]. split; [by rewrite Hq, decide_True|].
  intros f t.
  destruct (train_updates_Pet f t (now e) d p (Hp _ _))
    as (upd' & Hu' & _ & Hp'').
  by assert (upd' = upd) as -> by congruence.
Qed.

(** C5.  A pet created with an identifier that no stored pet has is
    answered with experience 0 and stage egg; six train calls on it are
    answered with experience 25, 50, 75, 100, 125, 150 and stages egg,
    baby, baby, baby, baby, adult. *)
Theorem six_trainings e0 name e1 e2 e3 e4 e5 e6 db :
  pet_by_id (uuid4 e0 0) db = None →
  let created := create_pet e0 (mkPetCreate name) db in
  result_map (λ p, (pet_experience p, pet_stage p)) created.1 = Ok (0, EGG) ∧
  result_map (λ r : string * Pet, (pet_experience r.2, pet_stage r.2)) <$>
    (train_times [e1; e2; e3; e4; e5; e6] (uuid4 e0 0) created.2).1 =
  [Ok (25, EGG); Ok (50, BABY); Ok (75, BABY); Ok (100, BABY);
   Ok (125, BABY); Ok (150, ADULT)].
Proof.
  intros Hfresh created.
  set (p0 := Pet_new e0 name).
  assert (Hc : created = (Ok p0, coll_set Pets (pets db ++ [Pet_dict p0]) db)).
  { unfold created, create_pet, bind, db_insert_one, lift,
      prepare_for_mongo, parse_from_mongo. cbn [pc_name coll_get].
    fold p0. by rewrite Pet_of_dict. }
  rewrite Hc. cbn [fst snd]. split; [done|].
  assert (H0 : pet_by_id (uuid4 e0 0)
                 (coll_set Pets (pets db ++ [Pet_dict p0]) db)
               = Some (Pet_dict p0)).
  { unfold pet_by_id in *. cbn [coll_set pets].
    rewrite find_one_app, Hfresh.
    rewrite (proj2 (matches_true _ _ _)); [done|].
    unfold Pet_dict. by map_lookup. }
  destruct (train_pet_step e1 _ _ _ p0 H0 (λ f t, Pet_of_dict f t p0)
              eq_refl) as (db1 & d1 & T1 & H1 & P1).
  destruct (train_pet_step e2 _ _ _ _ H1 P1 eq_refl)
    as (db2 & d2 & T2 & H2 & P2).
  destruct (train_pet_step e3 _ _ _ _ H2 P2 eq_refl)
    as (db3 & d3 & T3 & H3 & P3).
  destruct (train_pet_step e4 _ _ _ _ H3 P3 eq_refl)
    as (db4 & d4 & T4 & H4 & P4).
  destruct (train_pet_step e5 _ _ _ _ H4 P4 eq_refl)
    as (db5 & d5 & T5 & H5 & P5).
  destruct (train_pet_step e6 _ _ _ _ H5 P5 eq_refl)
    as (db6 & d6 & T6 & H6 & P6).
  cbn [train_times]. rewrite T1, T2, T3, T4, T5, T6. reflexivity.
Qed.

Lemma six_trainings_witness :
  pet_by_id (uuid4 env0 0) empty_db = None ∧
  result_map (λ r : string * Pet, (pet_experience r.2, pet_stage r.2)) <$>
    (train_times [env0; env0; env0; env0; env0; env0] (uuid4 env0 0)
       (create_pet env0 (mkPetCreate "Rex") empty_db).2).1 =
  [Ok (25, EGG); Ok (50, BABY); Ok (75, BABY); Ok (100, BABY);
   Ok (125, BABY); Ok (150, ADULT)].
Proof.
  assert (H : pet_by_id (uuid4 env0 0) empty_db = None) by reflexivity.
  split; [exact H|].
  exact (proj2 (six_trainings env0 "Rex" env0 env0 env0 env0 env0 env0
                  empty_db H)).
Defined.

(** ** C6 and C8: logging a mood *)

Lemma update_one_found k v u (c : list doc) d d' :
  find_one k v c = Some d → u d = Some d' →
  ∃ c', update_one k v u c = Some c'.
Proof.
  intros Hd Hu. induction c as [|d0 c IH]; [done|]. simpl in *.
  destruct (matches k v d0).
  - injection Hd as ->. rewrite Hu. by eexists.
  - destruct (IH Hd) as [c' ->]. by eexists.
Qed.

Lemma update_one_refused k v u (c : list doc) d :
  find_one k v c = Some d → u d = None → update_one k v u c = None.
Proof.
  intros Hd Hu. induction c as [|d0 c IH]; [done|]. simpl in *.
  destruct (matches k v d0).
  - injection Hd as ->. by rewrite Hu.
  - by rewrite (IH Hd).
Qed.

(** The rewards of a mood that the store accepts. *)
Lemma create_mood_entry_rewards e md db d h c x :
  1 ≤ mc_intensity md ≤ 10 →
  pet_by_id (mc_pet_id md) db = Some d →
  stat d "happiness" 50 = Ok h →
  d !! "coins" = Some (VInt c) →
  d !! "experience" = Some (VInt x) →
  int64 (c + (10 + mc_intensity md)) = true → int64 (x + 5) = true →
  ∃ d',
    (create_mood_entry e md db).1 =
      Ok (mkMoodEntry (uuid4 e 0) (mc_emotion md) (mc_intensity md)
                      (mc_note md) (now e) (mc_pet_id md)) ∧
    pet_by_id (mc_pet_id md) (create_mood_entry e md db).2 = Some d' ∧
    d' !! "coins" = Some (VInt (c + (10 + mc_intensity md))) ∧
    d' !! "experience" = Some (VInt (x + 5)) ∧
    d' !! "happiness" =
      Some (VInt (Z.max 0 (Z.min 100
              (h + happiness_change (mc_emotion md) (mc_intensity md))))).
Proof.
  intros Hi Hd Hh Hc Hx Hic Hix.
  pose proof (create_mood_entry_cases e md db Hi) as H. cbv zeta in H.
  rewrite Hd, Hh in H.
  set (nh := 0 `max` (100 `min`
               (h + happiness_change (mc_emotion md) (mc_intensity md)))) in *.
  destruct (mood_update_Some nh (10 + mc_intensity md) d c x Hc Hx Hic Hix)
    as (d' & Hm & Hh' & Hc' & Hx').
  destruct (update_one_found "id" (VStr (mc_pet_id md))
              (apply_update (mood_update nh (10 + mc_intensity md)))
              (pets db) d d' Hd Hm)
    as (c' & Hu).
  rewrite Hu in H. rewrite H. cbn [fst snd].
  exists d'. split; [done|]. split; [|done].
  assert (Hk : ∀ a b : doc,
             apply_update (mood_update nh (10 + mc_intensity md)) a = Some b →
             b !! "id" = a !! "id").
  { intros a b Hab. by apply (mood_update_other _ _ _ _ _ Hab). }
  pose proof (pet_by_id_update (mc_pet_id md) (mc_pet_id md) _ db c' Hk Hu)
    as Hq.
  rewrite decide_True, Hd in Hq by done.
  unfold pet_by_id in *. cbn [coll_set pets mbind option_bind] in *.
  by rewrite Hm in Hq.
Qed.

(** A mood whose rewards leave the integers of 8 bytes: the store
    refuses the update of the pet and the entry stays. *)
Lemma create_mood_entry_refused e md db d h c x :
  1 ≤ mc_intensity md ≤ 10 →
  pet_by_id (mc_pet_id md) db = Some d →
  stat d "happiness" 50 = Ok h →
  d !! "coins" = Some (VInt c) →
  d !! "experience" = Some (VInt x) →
  int64 (c + (10 + mc_intensity md)) && int64 (x + 5) = false →
  create_mood_entry e md db =
    (Raise WriteError,
     coll_set Mood_entries
       (insert_one
          (MoodEntry_dict
             (mkMoodEntry (uuid4 e 0) (mc_emotion md) (mc_intensity md)
                          (mc_note md) (now e) (mc_pet_id md)))
          (mood_entries db)) db).
Proof.
  intros Hi Hd Hh Hc Hx Hover.
  pose proof (create_mood_entry_cases e md db Hi) as H. cbv zeta in H.
  rewrite Hd, Hh in H.
  by rewrite (update_one_refused _ _ _ _ d Hd
                (mood_update_None _ _ _ c x Hc Hx Hover)) in H.
Qed.

(** C6, as the code has it.  For a mood of any emotion and of an
    intensity from 1 to 10 whose pet is stored, with its coins and
    experience stored as integers: when the coins plus 10 + intensity
    and the experience plus 5 are integers of 8 bytes, the entry is
    answered without error and the stored coins have increased by
    exactly 10 + intensity and the stored experience by exactly 5,
    whatever the emotion; the stored happiness is the happiness read
    plus the change of the emotion, bounded to [0,100].  When one of the
    two sums is beyond 8 bytes the store refuses the update as a whole:
    the request raises, the pets are as before and the entry stays
    stored. *)
Theorem mood_rewards e md db d h c x :
  1 ≤ mc_intensity md ≤ 10 →
  pet_by_id (mc_pet_id md) db = Some d →
  stat d "happiness" 50 = Ok h →
  d !! "coins" = Some (VInt c) →
  d !! "experience" = Some (VInt x) →
  let entry := mkMoodEntry (uuid4 e 0) (mc_emotion md) (mc_intensity md)
                           (mc_note md) (now e) (mc_pet_id md) in
  (int64 (c + (10 + mc_intensity md)) = true → int64 (x + 5) = true →
   ∃ d',
     (create_mood_entry e md db).1 = Ok entry ∧
     pet_by_id (mc_pet_id md) (create_mood_entry e md db).2 = Some d' ∧
     d' !! "coins" = Some (VInt (c + (10 + mc_intensity md))) ∧
     d' !! "experience" = Some (VInt (x + 5)) ∧
     d' !! "happiness" =
       Some (VInt (Z.max 0 (Z.min 100
               (h + happiness_change (mc_emotion md) (mc_intensity md)))))) ∧
  (int64 (c + (10 + mc_intensity md)) && int64 (x + 5) = false →
   (create_mood_entry e md db).1 = Raise WriteError ∧
   pets (create_mood_entry e md db).2 = pets db ∧
   mood_entries (create_mood_entry e md db).2 =
     (mood_entries db ++ [MoodEntry_dict entry])%list).
Proof.
  intros Hi Hd Hh Hc Hx entry. split.
  - intros Hic Hix.
    exact (create_mood_entry_rewards e md db d h c x Hi Hd Hh Hc Hx Hic Hix).
  - intros Hover.
    by rewrite (create_mood_entry_refused e md db d h c x Hi Hd Hh Hc Hx
                  Hover).
Qed.

Lemma mood_rewards_witness :
  1 ≤ 7 ≤ 10 ∧
  pet_by_id "id-0" db_rex = Some (Pet_dict (Pet_new env0 "Rex")) ∧
  stat (Pet_dict (Pet_new env0 "Rex")) "happiness" 50 = Ok 50 ∧
  Pet_dict (Pet_new env0 "Rex") !! "coins" = Some (VInt 100) ∧
  Pet_dict (Pet_new env0 "Rex") !! "experience" = Some (VInt 0) ∧
  int64 (100 + (10 + 7)) = true ∧ int64 (0 + 5) = true ∧
  ∃ d',
    pet_by_id "id-0"
      (create_mood_entry env0 (mkMoodEntryCreate ANGRY 7 None "id-0")
         db_rex).2 = Some d' ∧
    d' !! "coins" = Some (VInt (100 + (10 + 7))) ∧
    d' !! "experience" = Some (VInt (0 + 5)).
Proof.
  assert (Hi : 1 ≤ 7 ≤ 10) by lia.
  assert (Hd : pet_by_id "id-0" db_rex = Some (Pet_dict (Pet_new env0 "Rex")))
    by reflexivity.
  assert (Hh : stat (Pet_dict (Pet_new env0 "Rex")) "happiness" 50 = Ok 50)
    by reflexivity.
  assert (Hc : Pet_dict (Pet_new env0 "Rex") !! "coins" = Some (VInt 100))
    by reflexivity.
  assert (Hx : Pet_dict (Pet_new env0 "Rex") !! "experience" = Some (VInt 0))
    by reflexivity.
  split; [exact Hi|]. split; [exact Hd|]. split; [exact Hh|].
  split; [exact Hc|]. split; [exact Hx|].
  split; [reflexivity|]. split; [reflexivity|].
  destruct (proj1 (mood_rewards env0 (mkMoodEntryCreate ANGRY 7 None "id-0")
                     db_rex _ 50 100 0 Hi Hd Hh Hc Hx) eq_refl eq_refl)
    as (d' & _ & H1 & H2 & H3 & _).
  exists d'. split; [exact H1|]. split; [exact H2|exact H3].
Defined.

(** C6 as stated fails at the bound of the store: a pet whose coins
    were set to the greatest integer of 8 bytes through the update route
    earns nothing for a mood; the request raises and the pet is shown
    as before. *)
Lemma mood_beyond_int64 :
  let db := serve env0 (PUT_pet "id-0"
                          (mkPetUpdate None None None (Some int64_max)))
                  db_rex in
  let after :=
    create_mood_entry env0 (mkMoodEntryCreate HAPPY 5 None "id-0") db in
  result_map pet_coins (get_pet env0 "id-0" db).1 = Ok int64_max ∧
  after.1 = Raise WriteError ∧
  result_map (λ p, (pet_coins p, pet_experience p))
             (get_pet env0 "id-0" after.2).1 = Ok (int64_max, 0) ∧
  length (mood_entries after.2) = 1%nat.
Proof. repeat split; reflexivity. Qed.


(** C8.  Logging a valid mood whose pet identifier addresses no stored
    pet answers with the entry, without error; the entry is appended to
    the stored mood entries and the pets, like the shop items and the
    achievements, are left as they are. *)
Theorem mood_without_pet e md db :
  1 ≤ mc_intensity md ≤ 10 →
  pet_by_id (mc_pet_id md) db = None →
  let entry := mkMoodEntry (uuid4 e 0) (mc_emotion md) (mc_intensity md)
                           (mc_note md) (now e) (mc_pet_id md) in
  create_mood_entry e md db =
    (Ok entry,
     mkDB (pets db) (mood_entries db ++ [MoodEntry_dict entry])
          (shop_items db) (achievements db)).
Proof.
  intros Hi Hd entry.
  pose proof (create_mood_entry_cases e md db Hi) as H. cbv zeta in H.
  by rewrite Hd in H.
Qed.

Lemma mood_without_pet_witness :
  1 ≤ 5 ≤ 10 ∧ pet_by_id "ghost" db_rex = None ∧
  (create_mood_entry env0 (mkMoodEntryCreate SAD 5 None "ghost") db_rex).1 =
    Ok (mkMoodEntry (uuid4 env0 0) SAD 5 None (now env0) "ghost").
Proof.
  assert (Hi : 1 ≤ 5 ≤ 10) by lia.
  assert (Hd : pet_by_id "ghost" db_rex = None) by reflexivity.
  split; [exact Hi|]. split; [exact Hd|].
  exact (f_equal fst
           (mood_without_pet env0 (mkMoodEntryCreate SAD 5 None "ghost")
              db_rex Hi Hd)).
Defined.

(** ** C10: the update route stores what it is given *)

Lemma update_pet_found e pid u db d :
  pet_by_id pid db = Some d → update_int64 u = true →
  (update_pet e pid u db).1 =
    Pet_of (uuid4 e 0) (now e) (set_fields (update_data_of u) d).
Proof.
  intros Hd.
  assert (Hid : update_data_of u !! "id" = None).
  { rewrite update_data_lookup. unfold PetUpdate_dict. by map_lookup. }
  rewrite <- update_data_encodable.
  unfold update_pet, bind.
  generalize dependent (update_data_of u). intros upd Hid Henc.
  case_bool_decide as Hne.
  - rewrite db_update_one_sent by (by rewrite update_encodable_set).
    change (apply_update {| upd_set := upd; upd_inc := [] |})
      with (λ d, Some (set_fields upd d)).
    destruct (update_one_total "id" (VStr pid) (set_fields upd) (pets db))
      as [c' Hc].
    cbn [coll_get]. rewrite Hc.
    assert (Hq : pet_by_id pid (coll_set Pets c' db) =
              Some (set_fields upd d)).
    { rewrite (pet_by_id_update pid pid (λ d, Some (set_fields upd d)) db c');
        [by rewrite decide_True, Hd| |done].
      intros d0 d' [= <-]. apply set_fields_id, Hid. }
    unfold pet_by_id in Hq. unfold db_find_one. cbn in *. by rewrite Hq.
  - subst upd. unfold pet_by_id in Hd. unfold ret, db_find_one. cbn.
    rewrite Hd. cbn. unfold parse_from_mongo, set_fields.
    by rewrite (left_id_L ∅ (∪)).
Qed.

Lemma update_data_happiness u h :
  pu_happiness u = Some h → update_data_of u !! "happiness" = Some (VInt h).
Proof.
  intros H. rewrite update_data_lookup. unfold PetUpdate_dict.
  map_lookup. by rewrite H.
Qed.

Lemma update_data_health u h :
  pu_health u = Some h → update_data_of u !! "health" = Some (VInt h).
Proof.
  intros H. rewrite update_data_lookup. unfold PetUpdate_dict.
  map_lookup. by rewrite H.
Qed.

Lemma update_data_coins u c :
  pu_coins u = Some c → update_data_of u !! "coins" = Some (VInt c).
Proof.
  intros H. rewrite update_data_lookup. unfold PetUpdate_dict.
  map_lookup. by rewrite H.
Qed.

(** C10, as the code has it.  For a stored pet the update route stores
    every integer of 8 bytes given for happiness, health and coins as it
    is given, whatever its sign and with no bound of a range, and
    answers with the view of the stored document: a pet that is
    answered shows exactly the given values.  The 8 bytes of the store
    are the one bound: when an integer beyond is given the route raises
    [OverflowError] and stores nothing. *)
Theorem update_pet_unclamped e pid u db d :
  pet_by_id pid db = Some d →
  (update_int64 u = true →
   ∃ d',
     pet_by_id pid (update_pet e pid u db).2 = Some d' ∧
     (update_pet e pid u db).1 = Pet_of (uuid4 e 0) (now e) d' ∧
     (∀ h, pu_happiness u = Some h → d' !! "happiness" = Some (VInt h)) ∧
     (∀ h, pu_health u = Some h → d' !! "health" = Some (VInt h)) ∧
     (∀ c, pu_coins u = Some c → d' !! "coins" = Some (VInt c)) ∧
     (∀ p', (update_pet e pid u db).1 = Ok p' →
        (∀ h, pu_happiness u = Some h → pet_happiness p' = h) ∧
        (∀ h, pu_health u = Some h → pet_health p' = h) ∧
        (∀ c, pu_coins u = Some c → pet_coins p' = c))) ∧
  (update_int64 u = false →
   update_pet e pid u db = (Raise OverflowError, db)).
Proof.
  intros Hd. split; [|apply update_pet_refused].
  intros Henc. exists (set_fields (update_data_of u) d).
  pose proof (update_pet_doc e pid u db pid d Hd) as Hdoc.
  rewrite decide_True in Hdoc by (split; [reflexivity|exact Henc]).
  pose proof (update_pet_found e pid u db d Hd Henc) as Hres.
  split; [done|]. split; [done|].
  split; [intros h H; rewrite lookup_set_fields;
          by rewrite (update_data_happiness _ _ H)|].
  split; [intros h H; rewrite lookup_set_fields;
          by rewrite (update_data_health _ _ H)|].
  split; [intros c H; rewrite lookup_set_fields;
          by rewrite (update_data_coins _ _ H)|].
  intros p' Hp'. rewrite Hres in Hp'.
  apply Pet_of_inv in Hp' as (_&_&_&Hh&Hhe&Hc&_).
  split; [|split].
  - intros h H.
    by apply (field_int_set_fields _ _ _ _ h _ (update_data_happiness _ _ H)) in Hh.
  - intros h H.
    by apply (field_int_set_fields _ _ _ _ h _ (update_data_health _ _ H)) in Hhe.
  - intros c H.
    by apply (field_int_set_fields _ _ _ _ c _ (update_data_coins _ _ H)) in Hc.
Qed.

Lemma update_pet_unclamped_witness :
  pet_by_id "id-0" db_rex = Some (Pet_dict (Pet_new env0 "Rex")) ∧
  update_int64 (mkPetUpdate None (Some (-5)) (Some 250) (Some (-7))) = true ∧
  (∃ d',
     pet_by_id "id-0"
       (update_pet env0 "id-0"
          (mkPetUpdate None (Some (-5)) (Some 250) (Some (-7))) db_rex).2
       = Some d' ∧
     d' !! "happiness" = Some (VInt (-5)) ∧
     d' !! "health" = Some (VInt 250) ∧
     d' !! "coins" = Some (VInt (-7))) ∧
  result_map (λ p, (pet_happiness p, pet_health p, pet_coins p))
    (update_pet env0 "id-0"
       (mkPetUpdate None (Some (-5)) (Some 250) (Some (-7))) db_rex).1
    = Ok (-5, 250, -7).
Proof.
  assert (Hd : pet_by_id "id-0" db_rex = Some (Pet_dict (Pet_new env0 "Rex")))
    by reflexivity.
  split; [exact Hd|]. split; [reflexivity|]. split; [|reflexivity].
  destruct (proj1 (update_pet_unclamped env0 "id-0"
                     (mkPetUpdate None (Some (-5)) (Some 250) (Some (-7)))
                     db_rex _ Hd) eq_refl)
    as (d' & H1 & _ & Hh & Hhe & Hc & _).
  exists d'. split; [exact H1|].
  split; [exact (Hh _ eq_refl)|]. split; [exact (Hhe _ eq_refl)|].
  exact (Hc _ eq_refl).
Defined.

(** C10 as stated fails for an integer beyond 8 bytes: coins given as
    2^63 are not stored; the route raises and the pet is shown with the
    coins it had. *)
Lemma update_beyond_int64 :
  let u := mkPetUpdate None None None (Some (int64_max + 1)) in
  pet_by_id "id-0" db_rex = Some (Pet_dict (Pet_new env0 "Rex")) ∧
  int64_max + 1 = 2 ^ 63 ∧
  update_pet env0 "id-0" u db_rex = (Raise OverflowError, db_rex) ∧
  result_map pet_coins (get_pet env0 "id-0" (update_pet env0 "id-0" u db_rex).2).1
    = Ok 100.
Proof. repeat split; reflexivity. Qed.

(** * Further properties of the routes *)

(** ** Which collections a route writes *)

Section keeps.
Context {A B : Type} (c : collection).

Lemma keeps_ret (a : A) : keeps c (ret a).
Proof. done. Qed.

Lemma keeps_raise x : keeps c (raise (A := A) x).
Proof. done. Qed.

Lemma keeps_lift (r : result A) : keeps c (lift r).
Proof. done. Qed.

Lemma keeps_bind (m : M A) (k : A → M B) :
  keeps c m → (∀ a, keeps c (k a)) → keeps c (bind m k).
Proof.
  intros Hm Hk db. unfold bind. specialize (Hm db).
  destruct (m db) as [[a|x] db']; cbn [snd] in *; [|done].
  by rewrite Hk.
Qed.
End keeps.

Lemma keeps_find_one c c' k v : keeps c (db_find_one c' k v).
Proof. done. Qed.

Lemma keeps_find_all c c' n : keeps c (db_find_all c' n).
Proof. done. Qed.

Lemma keeps_find c c' k v n : keeps c (db_find c' k v n).
Proof. done. Qed.

Lemma keeps_insert_one c c' d : c ≠ c' → keeps c (db_insert_one c' d).
Proof. intros Hc db. by destruct c, c'. Qed.

Lemma keeps_update_one c c' k v u : c ≠ c' → keeps c (db_update_one c' k v u).
Proof.
  intros Hc db. unfold db_update_one.
  destruct (update_encodable u); [|done].
  destruct (update_one k v _ (coll_get c' db)); [|done].
  by destruct c, c'.
Qed.

Lemma keeps_for_each {A} c (body : nat → A → M unit) i l :
  (∀ i a, keeps c (body i a)) → keeps c (for_each body i l).
Proof.
  intros Hbody. revert i.
  induction l as [|a l IH]; intros i; cbn [for_each].
  - apply keeps_ret.
  - apply keeps_bind; [apply Hbody|]. intros _. apply IH.
Qed.

Ltac keeps_step :=
  first
    [ apply keeps_ret | apply keeps_raise | apply keeps_lift
    | apply keeps_find_one | apply keeps_find_all | apply keeps_find
    | apply keeps_insert_one; done | apply keeps_update_one; done
    | apply keeps_for_each; intros ??
    | apply keeps_bind; [|intros ?]
    | match goal with
      | |- keeps _ (match ?x with _ => _ end) => destruct x
      | |- keeps _ (if ?b then _ else _) => destruct b
      end ].

Ltac keeps_all := repeat keeps_step.

Lemma get_pet_keeps c e pid : keeps c (get_pet e pid).
Proof. unfold get_pet, not_found. keeps_all. Qed.

Lemma get_all_pets_keeps c e : keeps c (get_all_pets e).
Proof. unfold get_all_pets. keeps_all. Qed.

Lemma get_mood_entries_keeps c e pid : keeps c (get_mood_entries e pid).
Proof. done. Qed.

Lemma create_pet_keeps c e pd : c ≠ Pets → keeps c (create_pet e pd).
Proof. intros Hc. unfold create_pet. keeps_all. Qed.

Lemma update_pet_keeps c e pid u : c ≠ Pets → keeps c (update_pet e pid u).
Proof.
  intros Hc. unfold update_pet, not_found.
  generalize (update_data_of u). intros upd. keeps_all.
Qed.

Lemma pet_action_keeps c upd_of msg e pid :
  c ≠ Pets → keeps c (pet_action upd_of msg e pid).
Proof.
  intros Hc. unfold pet_action, apply_updates, not_found. keeps_all.
Qed.

Lemma create_mood_entry_keeps c e md :
  c ≠ Pets → c ≠ Mood_entries → keeps c (create_mood_entry e md).
Proof. intros Hc Hc'. unfold create_mood_entry. keeps_all. Qed.

Lemma get_shop_items_keeps c e : c ≠ Shop_items → keeps c (get_shop_items e).
Proof. intros Hc. unfold get_shop_items. keeps_all. Qed.

Lemma get_achievements_keeps c e pid :
  c ≠ Achievements → keeps c (get_achievements e pid).
Proof. intros Hc. unfold get_achievements. keeps_all. Qed.

Lemma serve_frame e r db c :
  may_write r c = false → coll_get c (serve e r db) = coll_get c db.
Proof.
  intros Hc. destruct r; cbn [serve].
  - apply create_pet_keeps. by destruct c.
  - apply get_pet_keeps.
  - apply get_all_pets_keeps.
  - apply update_pet_keeps. by destruct c.
  - rewrite feed_pet_action. apply pet_action_keeps. by destruct c.
  - rewrite play_with_pet_action. apply pet_action_keeps. by destruct c.
  - rewrite train_pet_action. apply pet_action_keeps. by destruct c.
  - apply create_mood_entry_keeps; by destruct c.
  - apply get_mood_entries_keeps.
  - apply get_shop_items_keeps. by destruct c.
  - apply get_achievements_keeps. by destruct c.
Qed.

(** Rewrites a collection after a request that cannot write it. *)
Ltac frame c :=
  match goal with
  | |- context [serve ?e ?r ?db] =>
      let H := fresh in
      pose proof (serve_frame e r db c eq_refl) as H;
      cbn [coll_get] in H; rewrite H
  end.

(** X1.  Every route leaves the collections it does not own as they
    are: pets are written only by the create, update, action and mood
    routes, mood entries only by the mood route, shop items only by the
    catalog route and achievements only by the achievements route.  The
    routes that read a pet, all pets or the moods of a pet leave the
    whole store as it is. *)
Theorem route_frames e r db :
  (∀ c, may_write r c = false → coll_get c (serve e r db) = coll_get c db) ∧
  (r = GET_pets ∨ (∃ pet_id, r = GET_pet pet_id ∨ r = GET_moods pet_id) →
   serve e r db = db).
Proof.
  split; [intros c; apply serve_frame|].
  intros Hr.
  assert (Hall : ∀ c, coll_get c (serve e r db) = coll_get c db).
  { intros c. apply serve_frame.
    destruct Hr as [->|(q & [->| ->])]; by destruct c. }
  pose proof (Hall Pets) as H1. pose proof (Hall Mood_entries) as H2.
  pose proof (Hall Shop_items) as H3. pose proof (Hall Achievements) as H4.
  cbn [coll_get] in *.
  destruct (serve e r db), db. cbn in *. congruence.
Qed.

Lemma route_frames_witness :
  may_write (POST_feed "id-0") Mood_entries = false ∧
  coll_get Mood_entries (serve env0 (POST_feed "id-0") db_rex) =
    coll_get Mood_entries db_rex.
Proof.
  assert (H : may_write (POST_feed "id-0") Mood_entries = false)
    by reflexivity.
  split; [exact H|].
  exact (proj1 (route_frames env0 (POST_feed "id-0") db_rex) Mood_entries H).
Defined.

(** ** Pets under requests *)

(** The document of a pet after a mood has been logged. *)
Lemma create_mood_entry_pet_doc e md db q d :
  pet_by_id q db = Some d →
  pet_by_id q (create_mood_entry e md db).2 = Some d ∨
  (q = mc_pet_id md ∧ 1 ≤ mc_intensity md ≤ 10 ∧
   ∃ h d',
     stat d "happiness" 50 = Ok h ∧
     apply_update
       (mood_update
          (Z.max 0 (Z.min 100
             (h + happiness_change (mc_emotion md) (mc_intensity md))))
          (10 + mc_intensity md)) d = Some d' ∧
     pet_by_id q (create_mood_entry e md db).2 = Some d').
Proof.
  intros Hq.
  destruct (decide (1 ≤ mc_intensity md ≤ 10)) as [Hi|Hi];
    [|left; by rewrite create_mood_entry_invalid].
  pose proof (create_mood_entry_cases e md db Hi) as H. cbv zeta in H.
  destruct (pet_by_id (mc_pet_id md) db) as [d0|] eqn:Hd;
    [destruct (stat d0 "happiness" 50) as [h|x] eqn:Hh;
     [destruct (update_one _ _ _ _) as [c'|] eqn:Hc|]|];
    rewrite H; try (by left).
  cbn [snd].
  set (nh := 0 `max` (100 `min`
               (h + happiness_change (mc_emotion md) (mc_intensity md)))) in *.
  assert (Hk : ∀ a b : doc,
             apply_update (mood_update nh (10 + mc_intensity md)) a = Some b →
             b !! "id" = a !! "id").
  { intros a b Hab. by apply (mood_update_other _ _ _ _ _ Hab). }
  pose proof (pet_by_id_update (mc_pet_id md) q _ db c' Hk Hc) as Hq'.
  unfold pet_by_id in *. cbn [coll_set pets] in *. rewrite Hq'.
  case_decide as Heq; [|by left]. subst q.
  assert (d0 = d) as -> by congruence.
  right. split; [done|]. split; [done|]. exists h.
  rewrite Hd in Hq'. cbn [mbind option_bind] in Hq'.
  destruct (apply_update (mood_update nh (10 + mc_intensity md)) d) as [d'|] eqn:Hm.
  - exists d'. rewrite Hd. by cbn [mbind option_bind].
  - exfalso. clear -Hc Hd Hm.
    revert c' Hc. induction (pets db) as [|d0 c IH]; [done|].
    cbn [find_one update_one] in *.
    destruct (matches "id" (VStr (mc_pet_id md)) d0).
    + injection Hd as ->. by rewrite Hm.
    + intros c'. destruct (update_one _ _ _ c); [|done]. intros _.
      by eapply IH.
Qed.

(** X2.  A request leaves every stored pet it is not addressed to as it
    is: creating a pet, reading, and updating, feeding, playing with,
    training or logging a mood for another pet do not change the stored
    document of this one. *)
Theorem requests_isolated e r db q d :
  pet_by_id q db = Some d → addressed r ≠ Some q →
  pet_by_id q (serve e r db) = Some d.
Proof.
  intros Hq Hr. destruct r as [pd|p| |p u|p|p|p|md|p| |p]; cbn [serve].
  - by apply create_pet_doc.
  - by rewrite keeps_pets_by_id by apply get_pet_keeps_pets.
  - by rewrite keeps_pets_by_id by apply get_all_pets_keeps_pets.
  - rewrite (update_pet_doc e p u db q d Hq).
    case_decide as Hc; [destruct Hc as [-> _]; by destruct Hr|done].
  - rewrite feed_pet_action.
    destruct (pet_action_doc (feed_updates (now e)) "Pet fed successfully!"
                e p db q d (feed_updates_id _) Hq) as [H|(-> & _)];
      [done|by destruct Hr].
  - rewrite play_with_pet_action.
    destruct (pet_action_doc (play_updates (now e)) "Had fun playing!"
                e p db q d (play_updates_id _) Hq) as [H|(-> & _)];
      [done|by destruct Hr].
  - rewrite train_pet_action.
    destruct (pet_action_doc (train_updates (now e)) "Training completed!"
                e p db q d (train_updates_id _) Hq) as [H|(-> & _)];
      [done|by destruct Hr].
  - destruct (create_mood_entry_pet_doc e md db q d Hq) as [H|(-> & _)];
      [done|by destruct Hr].
  - by rewrite keeps_pets_by_id by apply get_mood_entries_keeps_pets.
  - by rewrite keeps_pets_by_id by apply get_shop_items_keeps_pets.
  - by rewrite keeps_pets_by_id by apply get_achievements_keeps_pets.
Qed.

Lemma requests_isolated_witness :
  pet_by_id "id-0" db_rex = Some (Pet_dict (Pet_new env0 "Rex")) ∧
  addressed (POST_feed "other") ≠ Some "id-0" ∧
  pet_by_id "id-0" (serve env0 (POST_feed "other") db_rex) =
    Some (Pet_dict (Pet_new env0 "Rex")).
Proof.
  assert (Hq : pet_by_id "id-0" db_rex = Some (Pet_dict (Pet_new env0 "Rex")))
    by reflexivity.
  assert (Hr : addressed (POST_feed "other") ≠ Some "id-0") by (by compute).
  split; [exact Hq|]. split; [exact Hr|].
  exact (requests_isolated env0 (POST_feed "other") db_rex "id-0" _ Hq Hr).
Defined.

(** The experience of a document after a mood update. *)
Lemma mood_update_experience nh ce (d d' : doc) x :
  apply_update (mood_update nh ce) d = Some d' → stat d "experience" 0 = Ok x →
  stat d' "experience" 0 = Ok (x + 5).
Proof.
  intros H Hx.
  destruct (mood_update_inv _ _ _ _ H)
    as (_ & _ & [[Hn Hx']|(x0 & Hx0 & _ & Hx')]);
    unfold stat, get, as_int in *; rewrite Hx'.
  - rewrite Hn in Hx. by injection Hx as <-.
  - rewrite Hx0 in Hx. by injection Hx as <-.
Qed.

(** What one request does to the experience of a stored pet. *)
Lemma serve_experience e r db q d x :
  pet_by_id q db = Some d → stat d "experience" 0 = Ok x →
  ∃ d' x', pet_by_id q (serve e r db) = Some d' ∧
           stat d' "experience" 0 = Ok x' ∧ x ≤ x' ≤ x + 25.
Proof.
  intros Hq Hx.
  assert (Hsame : ∃ d' x', Some d = Some d' ∧
                    stat d' "experience" 0 = Ok x' ∧ x ≤ x' ≤ x + 25).
  { exists d, x. split; [done|]. split; [done|]. lia. }
  destruct r as [pd|p| |p u|p|p|p|md|p| |p]; cbn [serve].
  - by rewrite (create_pet_doc _ _ _ _ _ Hq).
  - by rewrite keeps_pets_by_id, Hq by apply get_pet_keeps_pets.
  - by rewrite keeps_pets_by_id, Hq by apply get_all_pets_keeps_pets.
  - rewrite (update_pet_doc e p u db q d Hq). eexists _, x.
    split; [done|]. split; [|lia]. case_decide; [|done].
    rewrite stat_set_fields_None; [done|].
    rewrite update_data_lookup. unfold PetUpdate_dict. by map_lookup.
  - rewrite feed_pet_action.
    destruct (pet_action_doc (feed_updates (now e)) "Pet fed successfully!"
                e p db q d (feed_updates_id _) Hq)
      as [H|(-> & upd & Hu & H)]; rewrite H; [done|].
    destruct (feed_updates_inv _ _ _ Hu) as (?&?&?&x0&_&_&_&Hx0&->).
    assert (x0 = x) as -> by congruence.
    eexists _, (x + 10). split; [done|]. split; [|lia].
    apply stat_set_fields_int. by map_lookup.
  - rewrite play_with_pet_action.
    destruct (pet_action_doc (play_updates (now e)) "Had fun playing!"
                e p db q d (play_updates_id _) Hq)
      as [H|(-> & upd & Hu & H)]; rewrite H; [done|].
    destruct (play_updates_inv _ _ _ Hu) as (?&?&x0&_&_&Hx0&->).
    assert (x0 = x) as -> by congruence.
    eexists _, (x + 15). split; [done|]. split; [|lia].
    apply stat_set_fields_int. by map_lookup.
  - rewrite train_pet_action.
    destruct (pet_action_doc (train_updates (now e)) "Training completed!"
                e p db q d (train_updates_id _) Hq)
      as [H|(-> & upd & Hu & H)]; rewrite H; [done|].
    destruct (train_updates_inv _ _ _ Hu) as (?&?&?&x0&_&_&_&Hx0&->).
    assert (x0 = x) as -> by congruence.
    eexists _, (x + 25). split; [done|]. split; [|lia].
    apply stat_set_fields_int. rewrite evolve_other by done. by map_lookup.
  - destruct (create_mood_entry_pet_doc e md db q d Hq)
      as [H|(-> & _ & h & d' & _ & Hm & H)]; rewrite H; [done|].
    exists d', (x + 5). split; [done|]. split; [|lia].
    by apply (mood_update_experience _ _ _ _ _ Hm).
  - by rewrite keeps_pets_by_id, Hq by apply get_mood_entries_keeps_pets.
  - by rewrite keeps_pets_by_id, Hq by apply get_shop_items_keeps_pets.
  - by rewrite keeps_pets_by_id, Hq by apply get_achievements_keeps_pets.
Qed.

(** X3.  No route lowers the experience of a stored pet, and none can
    set it: through any sequence of requests a pet stays stored and its
    experience, as the handlers read it, does not decrease; one request
    adds at most 25. *)
Theorem experience_never_lowered rs db q d x :
  pet_by_id q db = Some d → stat d "experience" 0 = Ok x →
  ∃ d' x', pet_by_id q (serve_all rs db) = Some d' ∧
           stat d' "experience" 0 = Ok x' ∧
           x ≤ x' ≤ x + 25 * Z.of_nat (length rs).
Proof.
  revert db d x. induction rs as [|[e r] rs IH]; intros db d x Hq Hx.
  - exists d, x. split; [done|]. split; [done|]. cbn [length]. lia.
  - cbn [serve_all foldl fst snd].
    destruct (serve_experience e r db q d x Hq Hx) as (d1 & x1 & H1 & Hx1 & ?).
    destruct (IH _ _ _ H1 Hx1) as (d' & x' & H' & Hx' & ?).
    exists d', x'. split; [done|]. split; [done|]. cbn [length]. lia.
Qed.

Lemma experience_never_lowered_witness :
  pet_by_id "id-0" db_rex = Some (Pet_dict (Pet_new env0 "Rex")) ∧
  stat (Pet_dict (Pet_new env0 "Rex")) "experience" 0 = Ok 0 ∧
  ∃ d' x',
    pet_by_id "id-0"
      (serve_all [(env0, POST_train "id-0");
                  (env0, PUT_pet "id-0" (mkPetUpdate None None None (Some 0)))]
                 db_rex) = Some d' ∧
    stat d' "experience" 0 = Ok x' ∧ 0 ≤ x' ≤ 0 + 25 * Z.of_nat 2.
Proof.
  assert (Hq : pet_by_id "id-0" db_rex = Some (Pet_dict (Pet_new env0 "Rex")))
    by reflexivity.
  assert (Hx : stat (Pet_dict (Pet_new env0 "Rex")) "experience" 0 = Ok 0)
    by reflexivity.
  split; [exact Hq|]. split; [exact Hx|].
  exact (experience_never_lowered
           [(env0, POST_train "id-0");
            (env0, PUT_pet "id-0" (mkPetUpdate None None None (Some 0)))]
           db_rex "id-0" _ 0 Hq Hx).
Defined.

Lemma rtc_next_stage_legendary s :
  rtc next_stage (VStr "legendary") s → s = VStr "legendary".
Proof.
  intros H. remember (VStr "legendary") as l eqn:Hl.
  induction H as [|s1 s2 s3 H12 _ _]; [done|].
  subst. inversion H12.
Qed.

(** X4.  Legendary is the last stage: a stored pet at stage legendary is
    at stage legendary after any sequence of requests. *)
Theorem legendary_is_final rs db q d :
  pet_by_id q db = Some d → stage_of d = VStr "legendary" →
  ∃ d', pet_by_id q (serve_all rs db) = Some d' ∧
        stage_of d' = VStr "legendary".
Proof.
  revert db d. induction rs as [|[e r] rs IH]; intros db d Hq Hs.
  - by exists d.
  - cbn [serve_all foldl fst snd].
    destruct (serve_stage e r db q d Hq) as (d1 & H1 & [Hs1|(_&x&_&Hadv)]).
    + apply (IH _ _ H1). by rewrite Hs1.
    + rewrite Hs in Hadv. inversion Hadv.
Qed.

Lemma legendary_is_final_witness :
  pet_by_id "id-0" db_legend = Some doc_legend ∧
  stage_of doc_legend = VStr "legendary" ∧
  ∃ d', pet_by_id "id-0"
          (serve_all [(env0, POST_train "id-0"); (env0, POST_feed "id-0")]
                     db_legend) = Some d' ∧
        stage_of d' = VStr "legendary".
Proof.
  assert (Hq : pet_by_id "id-0" db_legend = Some doc_legend) by reflexivity.
  assert (Hs : stage_of doc_legend = VStr "legendary") by reflexivity.
  split; [exact Hq|]. split; [exact Hs|].
  exact (legendary_is_final
           [(env0, POST_train "id-0"); (env0, POST_feed "id-0")]
           db_legend "id-0" doc_legend Hq Hs).
Defined.

(** ** Logging a mood for a stored pet *)

(** X5.  Logging a mood bounds the happiness on both sides: for a
    stored pet whose coins and experience are stored integers, after a
    mood of any emotion and of an intensity from 1 to 10 that the store
    accepts (the coins and the experience with their rewards are
    integers of 8 bytes) the stored happiness is within [0,100],
    whatever it was before; for the emotions happy, excited and calm it
    is the happiness read plus the intensity, bounded to [0,100]. *)
Theorem mood_happiness_bounded e md db d h c x :
  1 ≤ mc_intensity md ≤ 10 →
  pet_by_id (mc_pet_id md) db = Some d →
  stat d "happiness" 50 = Ok h →
  d !! "coins" = Some (VInt c) →
  d !! "experience" = Some (VInt x) →
  int64 (c + (10 + mc_intensity md)) = true → int64 (x + 5) = true →
  ∃ d' h',
    pet_by_id (mc_pet_id md) (create_mood_entry e md db).2 = Some d' ∧
    d' !! "happiness" = Some (VInt h') ∧ 0 ≤ h' ≤ 100 ∧
    (mc_emotion md ∈ [HAPPY; EXCITED; CALM] →
     h' = Z.max 0 (Z.min 100 (h + mc_intensity md))).
Proof.
  intros Hi Hd Hh Hc Hx Hic Hix.
  destruct (create_mood_entry_rewards e md db d h c x Hi Hd Hh Hc Hx Hic Hix)
    as (d' & _ & Hq & _ & _ & Hh').
  eexists d', _. split; [done|]. split; [done|]. split; [lia|].
  intros Hem. unfold happiness_change.
  by rewrite bool_decide_eq_true_2.
Qed.

Lemma mood_happiness_bounded_witness :
  1 ≤ 9 ≤ 10 ∧
  pet_by_id "id-0" db_low =
    Some (set_fields (update_data_of (mkPetUpdate None (Some (-50)) None None))
            (Pet_dict (Pet_new env0 "Rex"))) ∧
  int64 (100 + (10 + 9)) = true ∧ int64 (0 + 5) = true ∧
  ∃ d' h',
    pet_by_id "id-0"
      (create_mood_entry env0 (mkMoodEntryCreate HAPPY 9 None "id-0")
         db_low).2 = Some d' ∧
    d' !! "happiness" = Some (VInt h') ∧ 0 ≤ h' ≤ 100.
Proof.
  assert (Hi : 1 ≤ 9 ≤ 10) by lia.
  assert (Hd : pet_by_id "id-0" db_low =
            Some (set_fields
                    (update_data_of (mkPetUpdate None (Some (-50)) None None))
                    (Pet_dict (Pet_new env0 "Rex")))) by reflexivity.
  split; [exact Hi|]. split; [exact Hd|].
  split; [reflexivity|]. split; [reflexivity|].
  destruct (mood_happiness_bounded env0
              (mkMoodEntryCreate HAPPY 9 None "id-0") db_low _ (-50) 100 0
              Hi Hd eq_refl eq_refl eq_refl eq_refl eq_refl)
    as (d' & h' & H1 & H2 & H3 & _).
  exists d', h'. split; [exact H1|]. split; [exact H2|exact H3].
Defined.

(** X6.  Logging a mood writes the happiness, the coins and the
    experience only: every other field of every stored pet, the stage
    and the health among them, is as before, so a mood never advances
    the stage. *)
Theorem mood_keeps_other_fields e md db q d :
  pet_by_id q db = Some d →
  ∃ d', pet_by_id q (create_mood_entry e md db).2 = Some d' ∧
        (∀ k, k ≠ "happiness" → k ≠ "coins" → k ≠ "experience" →
              d' !! k = d !! k) ∧
        stage_of d' = stage_of d ∧
        stat d' "health" 100 = stat d "health" 100.
Proof.
  intros Hq.
  destruct (create_mood_entry_pet_doc e md db q d Hq)
    as [H|(_ & _ & h & d' & _ & Hm & H)].
  - by exists d.
  - exists d'. split; [done|].
    assert (Hk : ∀ k, k ≠ "happiness" → k ≠ "coins" → k ≠ "experience" →
                   d' !! k = d !! k).
    { intros k ???. by apply (mood_update_other _ _ _ _ _ Hm). }
    split; [done|]. split.
    + apply stage_of_eq. by apply Hk.
    + unfold stat, get. by rewrite Hk.
Qed.

Lemma mood_keeps_other_fields_witness :
  pet_by_id "id-0" db_rex = Some (Pet_dict (Pet_new env0 "Rex")) ∧
  ∃ d', pet_by_id "id-0"
          (create_mood_entry env0 (mkMoodEntryCreate SAD 3 None "id-0")
             db_rex).2 = Some d' ∧
        stage_of d' = stage_of (Pet_dict (Pet_new env0 "Rex")).
Proof.
  assert (Hq : pet_by_id "id-0" db_rex = Some (Pet_dict (Pet_new env0 "Rex")))
    by reflexivity.
  split; [exact Hq|].
  destruct (mood_keeps_other_fields env0
              (mkMoodEntryCreate SAD 3 None "id-0") db_rex "id-0" _ Hq)
    as (d' & H1 & _ & H2 & _).
  exists d'. split; [exact H1|exact H2].
Defined.

Lemma create_mood_entry_entries e md db :
  1 ≤ mc_intensity md ≤ 10 →
  mood_entries (create_mood_entry e md db).2 =
    (mood_entries db ++
       [MoodEntry_dict
          (mkMoodEntry (uuid4 e 0) (mc_emotion md) (mc_intensity md)
                       (mc_note md) (now e) (mc_pet_id md))])%list.
Proof.
  intros Hi.
  pose proof (create_mood_entry_cases e md db Hi) as H. cbv zeta in H.
  destruct (pet_by_id (mc_pet_id md) db) as [d0|];
    [destruct (stat d0 "happiness" 50) as [h|x];
     [destruct (update_one _ _ _ _) as [c'|]|]|];
    by rewrite H.
Qed.

(** X7.  The entry of a mood is stored before the pet is looked up and
    nothing takes it back: for an intensity from 1 to 10 the mood
    entries after the request are those before followed by the new
    entry, whatever the answer is, an error raised by the update of the
    pet included.  With an intensity outside 1 to 10 the request raises
    a validation error and the store is as before. *)
Theorem mood_entry_persisted e md db :
  (1 ≤ mc_intensity md ≤ 10 →
   mood_entries (create_mood_entry e md db).2 =
     (mood_entries db ++
       [MoodEntry_dict
          (mkMoodEntry (uuid4 e 0) (mc_emotion md) (mc_intensity md)
                       (mc_note md) (now e) (mc_pet_id md))])%list ∧
   ∀ d x, pet_by_id (mc_pet_id md) db = Some d →
          stat d "happiness" 50 = Raise x →
          (create_mood_entry e md db).1 = Raise x) ∧
  (¬ (1 ≤ mc_intensity md ≤ 10) →
   create_mood_entry e md db = (Raise ValidationError, db)).
Proof.
  split; [|apply create_mood_entry_invalid].
  intros Hi.
  pose proof (create_mood_entry_cases e md db Hi) as H. cbv zeta in H.
  split; [by apply create_mood_entry_entries|].
  intros d x Hd Hx. by rewrite Hd, Hx in H; rewrite H.
Qed.

Lemma mood_entry_persisted_witness :
  1 ≤ 4 ≤ 10 ∧
  mood_entries
    (create_mood_entry env0 (mkMoodEntryCreate CALM 4 None "id-0") db_rex).2 =
    (mood_entries db_rex ++
       [MoodEntry_dict
          (mkMoodEntry (uuid4 env0 0) CALM 4 None (now env0) "id-0")])%list.
Proof.
  assert (Hi : 1 ≤ 4 ≤ 10) by lia.
  split; [exact Hi|].
  exact (proj1 (proj1 (mood_entry_persisted env0
                         (mkMoodEntryCreate CALM 4 None "id-0") db_rex) Hi)).
Defined.

(** ** Creating and updating a pet *)

(** X8.  Creating a pet never fails: the answer is a pet with the given
    name, stage egg, happiness 50, health 100, coins 100, experience 0
    and no action time, and its document is appended to the pets.  When
    no stored pet has the identifier drawn, a later get-pet of that
    identifier answers with the same pet; a stored pet that has the
    identifier keeps being the one the identifier addresses. *)
Theorem create_then_get e e' pd db :
  (create_pet e pd db).1 =
    Ok (mkPet (uuid4 e 0) (pc_name pd) EGG 50 100 100 0 None None None
              (now e)) ∧
  pets (create_pet e pd db).2 =
    (pets db ++ [Pet_dict (Pet_new e (pc_name pd))])%list ∧
  (pet_by_id (uuid4 e 0) db = None →
   get_pet e' (uuid4 e 0) (create_pet e pd db).2 =
     (Ok (Pet_new e (pc_name pd)), (create_pet e pd db).2)) ∧
  (∀ d, pet_by_id (uuid4 e 0) db = Some d →
        pet_by_id (uuid4 e 0) (create_pet e pd db).2 = Some d).
Proof.
  set (p0 := Pet_new e (pc_name pd)).
  assert (Hc : create_pet e pd db =
                 (Ok p0, coll_set Pets (pets db ++ [Pet_dict p0]) db)).
  { unfold create_pet, bind, db_insert_one, lift,
      prepare_for_mongo, parse_from_mongo. cbn [coll_get].
    fold p0. by rewrite Pet_of_dict. }
  rewrite Hc. cbn [fst snd]. split; [done|]. split; [done|]. split.
  - intros Hfresh.
    rewrite (get_pet_found e' _ _ (Pet_dict p0)); [by rewrite Pet_of_dict|].
    unfold pet_by_id in *. cbn [coll_set pets].
    rewrite find_one_app, Hfresh.
    rewrite (proj2 (matches_true _ _ _)); [done|].
    unfold Pet_dict. by map_lookup.
  - intros d Hd. unfold pet_by_id in *. cbn [coll_set pets].
    by rewrite find_one_app, Hd.
Qed.

Lemma create_then_get_witness :
  pet_by_id (uuid4 env0 0) empty_db = None ∧
  get_pet env0 (uuid4 env0 0)
    (create_pet env0 (mkPetCreate "Rex") empty_db).2 =
    (Ok (Pet_new env0 "Rex"),
     (create_pet env0 (mkPetCreate "Rex") empty_db).2).
Proof.
  assert (H : pet_by_id (uuid4 env0 0) empty_db = None) by reflexivity.
  split; [exact H|].
  exact (proj1 (proj2 (proj2
           (create_then_get env0 env0 (mkPetCreate "Rex") empty_db))) H).
Defined.

Lemma update_data_name u n :
  pu_name u = Some n → update_data_of u !! "name" = Some (VStr n).
Proof.
  intros H. rewrite update_data_lookup. unfold PetUpdate_dict.
  map_lookup. by rewrite H.
Qed.

Lemma update_data_other u k :
  k ∉ ["name"; "happiness"; "health"; "coins"] →
  update_data_of u !! k = None.
Proof.
  intros Hk. rewrite update_data_lookup. unfold PetUpdate_dict.
  rewrite !lookup_insert_ne, lookup_empty; [done|..];
    intros <-; apply Hk; set_solver.
Qed.

Lemma update_pet_empty e pid db :
  (update_pet e pid (mkPetUpdate None None None None) db).2 = db.
Proof.
  unfold update_pet, bind.
  assert (Hnone : update_data_of (mkPetUpdate None None None None) = ∅)
    by reflexivity.
  rewrite Hnone. rewrite bool_decide_eq_false_2 by (by intros []).
  unfold ret, db_find_one. cbn [coll_get].
  destruct (find_one "id" (VStr pid) (pets db)); [|done].
  unfold lift. by destruct (Pet_of _ _ _).
Qed.

(** X9.  The update route writes the fields it is given and no other:
    a name that is given is stored, when the integers given with it are
    integers of 8 bytes; a name, happiness, health or coins that is not
    given stays as stored, and so does every other field, the stage, the
    experience and the action times among them.  An update that gives an
    integer beyond 8 bytes leaves the document as it is, the name
    included, and one that gives nothing leaves the store as it is. *)
Theorem update_pet_partial e pid u db d :
  pet_by_id pid db = Some d →
  ∃ d',
    pet_by_id pid (update_pet e pid u db).2 = Some d' ∧
    (update_int64 u = true →
     ∀ n, pu_name u = Some n → d' !! "name" = Some (VStr n)) ∧
    (update_int64 u = false → d' = d) ∧
    (pu_name u = None → d' !! "name" = d !! "name") ∧
    (pu_happiness u = None → d' !! "happiness" = d !! "happiness") ∧
    (pu_health u = None → d' !! "health" = d !! "health") ∧
    (pu_coins u = None → d' !! "coins" = d !! "coins") ∧
    (∀ k, k ∉ ["name"; "happiness"; "health"; "coins"] →
          d' !! k = d !! k) ∧
    (update_pet e pid (mkPetUpdate None None None None) db).2 = db.
Proof.
  intros Hd.
  pose proof (update_pet_doc e pid u db pid d Hd) as Hdoc.
  destruct (update_int64 u) eqn:Henc.
  - rewrite decide_True in Hdoc by (split; reflexivity).
    exists (set_fields (update_data_of u) d).
    split; [exact Hdoc|].
    split; [intros _ n H; rewrite lookup_set_fields;
            by rewrite (update_data_name _ _ H)|].
    split; [intros ?; discriminate|].
    split; [intros H; rewrite lookup_set_fields, update_data_lookup;
            unfold PetUpdate_dict; map_lookup; by rewrite H|].
    split; [intros H; rewrite lookup_set_fields, update_data_lookup;
            unfold PetUpdate_dict; map_lookup; by rewrite H|].
    split; [intros H; rewrite lookup_set_fields, update_data_lookup;
            unfold PetUpdate_dict; map_lookup; by rewrite H|].
    split; [intros H; rewrite lookup_set_fields, update_data_lookup;
            unfold PetUpdate_dict; map_lookup; by rewrite H|].
    split; [|apply update_pet_empty].
    intros k Hk. by rewrite lookup_set_fields, update_data_other.
  - rewrite decide_False in Hdoc by (intros [_ ?]; discriminate).
    exists d. split; [exact Hdoc|].
    split; [intros ?; discriminate|].
    repeat (split; [reflexivity|]). apply update_pet_empty.
Qed.

Lemma update_pet_partial_witness :
  pet_by_id "id-0" db_rex = Some (Pet_dict (Pet_new env0 "Rex")) ∧
  ∃ d',
    pet_by_id "id-0"
      (update_pet env0 "id-0" (mkPetUpdate (Some "Max") None None (Some 7))
         db_rex).2 = Some d' ∧
    d' !! "name" = Some (VStr "Max") ∧
    d' !! "happiness" = Pet_dict (Pet_new env0 "Rex") !! "happiness" ∧
    d' !! "stage" = Pet_dict (Pet_new env0 "Rex") !! "stage".
Proof.
  assert (Hd : pet_by_id "id-0" db_rex = Some (Pet_dict (Pet_new env0 "Rex")))
    by reflexivity.
  split; [exact Hd|].
  destruct (update_pet_partial env0 "id-0"
              (mkPetUpdate (Some "Max") None None (Some 7)) db_rex _ Hd)
    as (d' & H1 & Hn & _ & _ & Hh & _ & _ & Hk & _).
  exists d'. split; [exact H1|]. split; [exact (Hn eq_refl _ eq_refl)|].
  split; [exact (Hh eq_refl)|].
  apply Hk. intros Hin.
  repeat (apply elem_of_cons in Hin as [Hin|Hin]; [discriminate Hin|]).
  by apply elem_of_nil in Hin.
Defined.

(** ** The shop and the achievements *)

Lemma get_shop_items_seeds e db :
  shop_items db = [] →
  get_shop_items e db =
    (Ok (seeded_items e),
     coll_set Shop_items (ShopItem_dict <$> seeded_items e) db).
Proof.
  intros Hdb. destruct db as [ps ms ss acs]. cbn [shop_items] in Hdb.
  subst ss. reflexivity.
Qed.

Lemma get_shop_items_populated e db :
  shop_items db ≠ [] →
  get_shop_items e db =
    (parse_all (λ i item, ShopItem_of (uuid4 e i) item) 0
               (take 100 (shop_items db)), db).
Proof.
  intros Hne. unfold get_shop_items, bind, db_find_all, to_list.
  cbn [coll_get].
  destruct (shop_items db) as [|d l]; [done|]. by cbn [take].
Qed.

Lemma serve_default_catalog e r db :
  default_catalog (shop_items db) →
  default_catalog (shop_items (serve e r db)).
Proof.
  intros Hdb.
  destruct r as [pd|q| |q u|q|q|q|md|q| |q]; try (by frame Shop_items).
  cbn [serve]. destruct (decide (shop_items db = [])) as [Hs|Hs].
  - rewrite get_shop_items_seeds by done. right. by exists e.
  - by rewrite get_shop_items_populated.
Qed.

(** X10.  The catalog is always the five default items: on every store
    reached from the empty store through the routes the catalog route
    answers, without error, with the default items carrying the
    identifiers of the one request that seeded them, and these are the
    shop items stored afterwards; no later request adds, removes or
    duplicates an item. *)
Theorem shop_always_defaults rs e :
  ∃ e0,
    (get_shop_items e (serve_all rs empty_db)).1 = Ok (seeded_items e0) ∧
    shop_items (get_shop_items e (serve_all rs empty_db)).2 =
      ShopItem_dict <$> seeded_items e0 ∧
    length (seeded_items e0) = 5%nat.
Proof.
  assert (H : ∀ db, default_catalog (shop_items db) →
                default_catalog (shop_items (serve_all rs db))).
  { induction rs as [|[e1 r] rs IH]; intros db Hdb; [done|].
    cbn [serve_all foldl fst snd]. apply IH.
    by apply serve_default_catalog. }
  specialize (H empty_db (or_introl eq_refl)).
  destruct H as [Hs|[e0 Hs]].
  - exists e. by rewrite get_shop_items_seeds.
  - exists e0. rewrite get_shop_items_populated by (by rewrite Hs).
    cbn [fst snd]. rewrite Hs. done.
Qed.

Lemma get_achievements_populated e pid db :
  find "pet_id" (VStr pid) (achievements db) ≠ [] →
  get_achievements e pid db =
    (parse_all (λ i ach, Achievement_of (uuid4 e i) (parse_from_mongo ach)) 0
               (take 100 (find "pet_id" (VStr pid) (achievements db))), db).
Proof.
  intros Hne. unfold get_achievements, bind, db_find, to_list.
  cbn [coll_get].
  destruct (find "pet_id" (VStr pid) (achievements db)) as [|d l]; [done|].
  by cbn [take].
Qed.

Lemma seeded_dicts_found e pid (c : list doc) :
  find "pet_id" (VStr pid) c = [] →
  find "pet_id" (VStr pid)
    (c ++ (Achievement_dict <$> seeded_achievements e pid))%list
  = Achievement_dict <$> seeded_achievements e pid.
Proof.
  intros Hnone.
  rewrite find_app, Hnone. cbn [app fmap list_fmap seeded_achievements].
  repeat match goal with
  | |- find _ _ (?d :: ?l) = _ =>
      change (d :: l) with ([d] ++ l)%list; rewrite find_app, find_singleton;
      [cbn [app]; f_equal | unfold Achievement_dict; by map_lookup]
  end.
Qed.

Lemma seeded_dicts_not_found e pid q (c : list doc) :
  q ≠ pid →
  find "pet_id" (VStr q)
    (c ++ (Achievement_dict <$> seeded_achievements e pid))%list
  = find "pet_id" (VStr q) c.
Proof.
  intros Hne. rewrite find_app.
  assert (Hnone : find "pet_id" (VStr q)
                    (Achievement_dict <$> seeded_achievements e pid) = []).
  { unfold find. cbn [fmap list_fmap seeded_achievements List.filter].
    repeat (rewrite (proj2 (matches_false "pet_id" (VStr q) _));
            [|unfold Achievement_dict; map_lookup; cbn; congruence]).
    done. }
  rewrite Hnone. apply app_nil_r.
Qed.

(** X11.  The default achievements of a pet identifier are seeded once:
    after a first call that found none, a second call, in any
    environment, answers with the same five achievements and leaves the
    store as it is; the achievements stored for any other identifier are
    as before the seeding. *)
Theorem achievements_seeded_once e e' pid db :
  find "pet_id" (VStr pid) (achievements db) = [] →
  get_achievements e' pid (get_achievements e pid db).2 =
    (Ok (seeded_achievements e pid), (get_achievements e pid db).2) ∧
  length (seeded_achievements e pid) = 5%nat ∧
  (∀ q, q ≠ pid →
        find "pet_id" (VStr q) (achievements (get_achievements e pid db).2) =
        find "pet_id" (VStr q) (achievements db)).
Proof.
  intros Hnone.
  destruct (get_achievements_seeds e pid db Hnone) as (_ & Hachs & _).
  split; [|split; [done|]].
  - rewrite get_achievements_populated; rewrite Hachs, seeded_dicts_found;
      done.
  - intros q Hq. by rewrite Hachs, seeded_dicts_not_found.
Qed.

Lemma achievements_seeded_once_witness :
  find "pet_id" (VStr "id-0") (achievements db_rex) = [] ∧
  get_achievements env0 "id-0" (get_achievements env0 "id-0" db_rex).2 =
    (Ok (seeded_achievements env0 "id-0"),
     (get_achievements env0 "id-0" db_rex).2).
Proof.
  assert (H : find "pet_id" (VStr "id-0") (achievements db_rex) = [])
    by reflexivity.
  split; [exact H|].
  exact (proj1 (achievements_seeded_once env0 env0 "id-0" db_rex H)).
Defined.

(** Every element of a parsed list is the parse of the document at its
    place. *)
Lemma parse_all_Forall2 {A} (f : nat → doc → result A) i ds (l : list A) :
  parse_all f i ds = Ok l → Forall2 (λ d a, ∃ j, f j d = Ok a) ds l.
Proof.
  revert i l. induction ds as [|d ds IH]; intros i l; cbn [parse_all].
  - intros [= <-]. constructor.
  - destruct (f i d) as [a|] eqn:E; cbn [result_bind]; [|done].
    destruct (parse_all f (S i) ds) as [l'|] eqn:E'; cbn [result_bind];
      [|done].
    intros [= <-]. constructor; eauto.
Qed.

Lemma parse_all_app {A} (f : nat → doc → result A) i ds d (l : list A) a :
  parse_all f i ds = Ok l → f (i + length ds)%nat d = Ok a →
  parse_all f i (ds ++ [d])%list = Ok (l ++ [a])%list.
Proof.
  revert i l. induction ds as [|d0 ds IH]; intros i l; cbn [parse_all app].
  - intros [= <-]. cbn [length]. rewrite Nat.add_0_r. intros ->. done.
  - destruct (f i d0) as [a0|] eqn:E; cbn [result_bind]; [|done].
    destruct (parse_all f (S i) ds) as [l'|] eqn:E'; cbn [result_bind];
      [|done].
    intros [= <-] Hd. cbn [length] in Hd.
    rewrite (IH (S i) l' E'); [done|].
    by replace (S i + length ds)%nat with (i + S (length ds))%nat by lia.
Qed.

Lemma Achievement_of_unlocked f d a :
  Achievement_of f d = Ok a → locked d → ach_unlocked a = false.
Proof.
  unfold Achievement_of, locked. intros H Hl.
  repeat match type of H with
         | result_bind ?r _ = _ =>
             let E := fresh "E" in
             destruct r eqn:E; cbn [result_bind] in H; [|discriminate H]
         end.
  injection H as <-. cbn [ach_unlocked].
  unfold field_bool in *. rewrite Hl in *. congruence.
Qed.

Lemma seeded_dicts_locked e pid :
  Forall locked (Achievement_dict <$> seeded_achievements e pid).
Proof.
  cbn [fmap list_fmap seeded_achievements].
  repeat constructor; unfold locked, Achievement_dict; by map_lookup.
Qed.

Lemma get_achievements_locked_store e pid db :
  Forall locked (achievements db) →
  Forall locked (achievements (get_achievements e pid db).2).
Proof.
  intros Hdb.
  destruct (find "pet_id" (VStr pid) (achievements db)) as [|d l] eqn:Hf.
  - destruct (get_achievements_seeds e pid db Hf) as (_ & -> & _).
    apply Forall_app. split; [done|apply seeded_dicts_locked].
  - rewrite get_achievements_populated; [done|by rewrite Hf].
Qed.

Lemma get_achievements_locked e pid db achs :
  Forall locked (achievements db) →
  (get_achievements e pid db).1 = Ok achs →
  Forall (λ a, ach_unlocked a = false) achs.
Proof.
  intros Hdb.
  destruct (find "pet_id" (VStr pid) (achievements db)) as [|d l] eqn:Hf.
  - destruct (get_achievements_seeds e pid db Hf) as (-> & _).
    intros [= <-]. by repeat constructor.
  - rewrite get_achievements_populated by (by rewrite Hf). cbn [fst].
    intros Hp. apply parse_all_Forall2 in Hp.
    assert (Hl : Forall locked
                   (take 100 (find "pet_id" (VStr pid) (achievements db)))).
    { apply Forall_take. unfold find.
      rewrite Forall_forall in Hdb |- *. intros x Hx. apply Hdb.
      apply list_elem_of_In in Hx. apply List.filter_In in Hx as [Hx _].
      by apply list_elem_of_In. }
    clear Hf. induction Hp as [|x a ds l' [j Hj] _ IH]; [constructor|].
    apply Forall_cons in Hl as [Hx Hl]. constructor; [|by apply IH].
    by eapply Achievement_of_unlocked.
Qed.

Lemma serve_locked e r db :
  Forall locked (achievements db) →
  Forall locked (achievements (serve e r db)).
Proof.
  intros Hdb.
  destruct r as [pd|q| |q u|q|q|q|md|q| |q]; try (by frame Achievements).
  cbn [serve]. by apply get_achievements_locked_store.
Qed.

(** X12.  No route unlocks an achievement: in every store reached from
    the empty store through the routes every stored achievement has
    [unlocked] false, and every achievement the achievements route
    answers with is not unlocked. *)
Theorem achievements_never_unlocked rs e pid achs :
  Forall locked (achievements (serve_all rs empty_db)) ∧
  ((get_achievements e pid (serve_all rs empty_db)).1 = Ok achs →
   Forall (λ a, ach_unlocked a = false) achs).
Proof.
  assert (H : ∀ db, Forall locked (achievements db) →
                Forall locked (achievements (serve_all rs db))).
  { induction rs as [|[e0 r] rs IH]; intros db Hdb; [done|].
    cbn [serve_all foldl fst snd]. apply IH. by apply serve_locked. }
  assert (H0 : Forall locked (achievements (serve_all rs empty_db))).
  { apply H. constructor. }
  split; [exact H0|]. by apply get_achievements_locked.
Qed.

Lemma achievements_never_unlocked_witness :
  (get_achievements env0 "id-0"
     (serve_all [(env0, POST_pets (mkPetCreate "Rex"));
                 (env0, GET_achievements "id-0");
                 (env0, POST_train "id-0")] empty_db)).1 =
    Ok (seeded_achievements env0 "id-0") ∧
  Forall (λ a, ach_unlocked a = false) (seeded_achievements env0 "id-0").
Proof.
  assert (H : (get_achievements env0 "id-0"
     (serve_all [(env0, POST_pets (mkPetCreate "Rex"));
                 (env0, GET_achievements "id-0");
                 (env0, POST_train "id-0")] empty_db)).1 =
    Ok (seeded_achievements env0 "id-0")) by reflexivity.
  split; [exact H|].
  exact (proj2 (achievements_never_unlocked
                  [(env0, POST_pets (mkPetCreate "Rex"));
                   (env0, GET_achievements "id-0");
                   (env0, POST_train "id-0")] env0 "id-0" _) H).
Defined.

(** ** Listing the pets *)

(** X13.  The list of all pets, when it is answered, holds the views of
    the first thousand stored documents in their order, one pet for
    each, and the store is as before.  On a store of fewer than a
    thousand pets that are all listed, a pet that is created is listed
    after them. *)
Theorem get_all_pets_lists e db ps :
  (get_all_pets e db).1 = Ok ps →
  length ps = Nat.min 1000 (length (pets db)) ∧
  Forall2 (λ d p, ∃ f, Pet_of f (now e) d = Ok p) (take 1000 (pets db)) ps ∧
  (get_all_pets e db).2 = db ∧
  (∀ e0 pd, (length (pets db) < 1000)%nat →
     (get_all_pets e (create_pet e0 pd db).2).1 =
       Ok (ps ++ [Pet_new e0 (pc_name pd)])%list).
Proof.
  unfold get_all_pets, bind, db_find_all, lift, to_list. cbn [coll_get fst snd].
  intros Hp. pose proof (parse_all_Forall2 _ _ _ _ Hp) as H2.
  split; [|split; [|split; [done|]]].
  - apply Forall2_length in H2. rewrite <- H2. apply length_take.
  - eapply Forall2_impl; [exact H2|]. intros d p [j Hj]. by eexists.
  - intros e0 pd Hlen.
    unfold create_pet, bind at 1, db_insert_one, lift.
    cbn [coll_get coll_set]. unfold prepare_for_mongo, parse_from_mongo.
    rewrite Pet_of_dict. cbn [snd coll_get coll_set pets].
    unfold insert_one.
    rewrite take_ge in Hp by lia.
    rewrite take_ge by (rewrite length_app; cbn [length]; lia).
    apply parse_all_app; [done|]. apply Pet_of_dict.
Qed.

Lemma get_all_pets_lists_witness :
  (get_all_pets env0 db_rex).1 = Ok [Pet_new env0 "Rex"] ∧
  length [Pet_new env0 "Rex"] = Nat.min 1000 (length (pets db_rex)) ∧
  (get_all_pets env0 db_rex).2 = db_rex.
Proof.
  assert (H : (get_all_pets env0 db_rex).1 = Ok [Pet_new env0 "Rex"])
    by reflexivity.
  split; [exact H|].
  destruct (get_all_pets_lists env0 db_rex _ H) as (H1 & _ & H2 & _).
  split; [exact H1|exact H2].
Defined.

(** ** The mood history of a pet *)

Lemma value_leb_total a b : value_leb a b = true ∨ value_leb b a = true.
Proof.
  destruct a as [[| |x|x]|], b as [[| |y|y]|]; cbn; auto.
  - destruct b, b0; auto.
  - destruct (Z.leb_spec x y); [by left|right]. apply Z.leb_le. lia.
  - apply String.leb_total.
Qed.

(** The sort of the history: the sorted list holds the documents of the
    collection, in descending order, and documents with the same key
    stand in the order of the collection. *)
Lemma insert_desc_Permutation key d c : insert_desc key d c ≡ₚ d :: c.
Proof.
  induction c as [|x c IH]; cbn; [done|].
  destruct (value_leb _ _); [done|]. rewrite IH. apply Permutation_swap.
Qed.

Lemma sort_desc_Permutation key c : sort_desc key c ≡ₚ c.
Proof.
  induction c as [|d c IH]; cbn; [done|].
  rewrite insert_desc_Permutation. by constructor.
Qed.

Lemma insert_desc_HdRel key a d c :
  before_desc key a d → HdRel (before_desc key) a c →
  HdRel (before_desc key) a (insert_desc key d c).
Proof.
  intros Had Hc. destruct c as [|x c]; cbn; [by constructor|].
  destruct (value_leb _ _); constructor; [done|]. by apply HdRel_inv in Hc.
Qed.

Lemma insert_desc_Sorted key d c :
  Sorted (before_desc key) c → Sorted (before_desc key) (insert_desc key d c).
Proof.
  induction 1 as [|x c Hc IH Hhd]; cbn; [by repeat constructor|].
  destruct (value_leb (x !! key) (d !! key)) eqn:E.
  - constructor; [by constructor|]. by constructor.
  - constructor; [done|]. apply insert_desc_HdRel; [|done].
    unfold before_desc.
    destruct (value_leb_total (x !! key) (d !! key)); congruence.
Qed.

Lemma sort_desc_Sorted key c : Sorted (before_desc key) (sort_desc key c).
Proof.
  induction c as [|d c IH]; cbn; [constructor|].
  by apply insert_desc_Sorted.
Qed.

Lemma value_leb_refl a : value_leb a a = true.
Proof. by destruct (value_leb_total a a). Qed.

Lemma insert_desc_filter key v d c :
  List.filter (matches key v) (insert_desc key d c) =
  List.filter (matches key v) (d :: c).
Proof.
  induction c as [|x c IH]; [done|]. cbn [insert_desc].
  destruct (value_leb (x !! key) (d !! key)) eqn:E; [done|].
  cbn [List.filter] in *. rewrite IH.
  destruct (matches key v d) eqn:Hd, (matches key v x) eqn:Hx; try done.
  apply matches_true in Hd, Hx. rewrite Hd, Hx, value_leb_refl in E.
  discriminate.
Qed.

Lemma sort_desc_stable key v c :
  find key v (sort_desc key c) = find key v c.
Proof.
  unfold find. induction c as [|d c IH]; [done|]. cbn [sort_desc foldr].
  rewrite insert_desc_filter. cbn [List.filter]. fold (sort_desc key c).
  by rewrite IH.
Qed.

Lemma find_take_prefix k v n (l : list doc) :
  find k v (take n l) `prefix_of` find k v l.
Proof.
  exists (find k v (drop n l)). by rewrite <- find_app, take_drop.
Qed.

Lemma Sorted_take {A} (R : relation A) n l :
  Sorted R l → Sorted R (take n l).
Proof.
  intros H. revert n. induction H as [|a l Hl IH Hhd]; intros [|n]; cbn;
    try constructor.
  - apply IH.
  - destruct Hhd as [|b l Hab]; [destruct n; constructor|].
    destruct n; cbn; by constructor.
Qed.

Lemma Sorted_of_fmap {A B} (f : A → B) (R : relation B) (R' : relation A) l :
  (∀ a b, R (f a) (f b) → R' a b) →
  Sorted R (f <$> l) → Sorted R' l.
Proof.
  intros HR. induction l as [|a l IH]; cbn; [constructor|].
  intros H. apply Sorted_inv in H as [Hl Hhd].
  constructor; [by apply IH|].
  destruct l as [|b l]; [constructor|]. cbn in Hhd.
  apply HdRel_inv in Hhd. constructor. by apply HR.
Qed.

Lemma stored_mood_timestamp m :
  MoodEntry_dict m !! "timestamp" = Some (VStr (me_timestamp m)).
Proof. unfold MoodEntry_dict. by map_lookup. Qed.

Lemma stored_mood_pet_id m :
  MoodEntry_dict m !! "pet_id" = Some (VStr (me_pet_id m)).
Proof. unfold MoodEntry_dict. by map_lookup. Qed.

Lemma parse_all_stored e i ds :
  Forall stored_mood ds →
  ∃ ms,
    parse_all (λ i mood, MoodEntry_of (uuid4 e i) (now e)
                           (parse_from_mongo mood)) i ds = Ok ms ∧
    MoodEntry_dict <$> ms = ds ∧
    Forall (λ m, 1 ≤ me_intensity m ≤ 10) ms.
Proof.
  intros H. revert i. induction H as [|d ds (m & -> & Hm) _ IH]; intros i.
  - exists []. by repeat split.
  - destruct (IH (S i)) as (ms & Hp & Hd & Hv).
    exists (m :: ms). cbn [parse_all]. unfold parse_from_mongo in *.
    rewrite MoodEntry_of_dict by done. cbn [result_bind]. rewrite Hp.
    cbn [result_bind fmap list_fmap]. rewrite <- Hd.
    split; [done|]. split; [done|]. by constructor.
Qed.

(** The history the route answers with, on mood documents as the mood
    route writes them. *)
Lemma get_mood_entries_stored e pid db :
  Forall stored_mood (mood_entries db) →
  ∃ ms,
    get_mood_entries e pid db = (Ok ms, db) ∧
    MoodEntry_dict <$> ms =
      take 100 (sort_desc "timestamp"
                  (find "pet_id" (VStr pid) (mood_entries db))) ∧
    Forall (λ m, me_pet_id m = pid ∧ 1 ≤ me_intensity m ≤ 10) ms ∧
    (length ms ≤ 100)%nat ∧
    Sorted newest_first ms ∧
    (∀ t, find "timestamp" (VStr t) (MoodEntry_dict <$> ms) `prefix_of`
          find "timestamp" (VStr t)
            (find "pet_id" (VStr pid) (mood_entries db))).
Proof.
  intros Hdb.
  set (moods := take 100 (sort_desc "timestamp"
                  (find "pet_id" (VStr pid) (mood_entries db)))).
  assert (Hin : ∀ d, d ∈ moods →
                  d ∈ mood_entries db ∧ d !! "pet_id" = Some (VStr pid)).
  { intros d Hd. apply (subseteq_take 100) in Hd.
    rewrite sort_desc_Permutation in Hd.
    unfold find in Hd. apply list_elem_of_In in Hd.
    apply List.filter_In in Hd as [Hd Hm].
    split; [by apply list_elem_of_In|by apply matches_true]. }
  assert (Hst : Forall stored_mood moods).
  { apply Forall_forall. intros d Hd.
    rewrite Forall_forall in Hdb. apply Hdb. by apply Hin. }
  destruct (parse_all_stored e 0 moods Hst) as (ms & Hp & Hd & Hv).
  exists ms.
  assert (Hrun : get_mood_entries e pid db =
            (parse_all (λ i mood, MoodEntry_of (uuid4 e i) (now e)
                                    (parse_from_mongo mood)) 0 moods, db))
    by reflexivity.
  split; [by rewrite Hrun, Hp|].
  split; [done|]. split; [|split; [|split]]; cycle 3.
  { intros t. rewrite Hd. unfold moods.
    rewrite <- (sort_desc_stable "timestamp" (VStr t)
                  (find "pet_id" (VStr pid) (mood_entries db))).
    apply find_take_prefix. }
  - apply Forall_forall. intros m Hm. split.
    + assert (Hdm : MoodEntry_dict m ∈ moods).
      { rewrite <- Hd. by apply list_elem_of_fmap_2. }
      destruct (Hin _ Hdm) as [_ Hpid].
      rewrite stored_mood_pet_id in Hpid. by injection Hpid.
    + rewrite Forall_forall in Hv. by apply Hv.
  - assert (Hlen : length (MoodEntry_dict <$> ms) = length moods)
      by (by rewrite Hd).
    rewrite length_fmap in Hlen. rewrite Hlen. unfold moods.
    rewrite length_take. lia.
  - apply (Sorted_of_fmap MoodEntry_dict (before_desc "timestamp")).
    + intros a b. unfold before_desc, newest_first.
      by rewrite !stored_mood_timestamp.
    + rewrite Hd. apply Sorted_take, sort_desc_Sorted.
Qed.

Lemma serve_stored_moods e r db :
  Forall stored_mood (mood_entries db) →
  Forall stored_mood (mood_entries (serve e r db)).
Proof.
  intros Hdb.
  destruct r as [pd|q| |q u|q|q|q|md|q| |q]; try (by frame Mood_entries).
  cbn [serve].
  destruct (decide (1 ≤ mc_intensity md ≤ 10)) as [Hi|Hi].
  - rewrite create_mood_entry_entries by done.
    apply Forall_app. split; [done|]. apply Forall_singleton.
    by eexists.
  - by rewrite create_mood_entry_invalid.
Qed.

Lemma reachable_stored_moods rs :
  Forall stored_mood (mood_entries (serve_all rs empty_db)).
Proof.
  assert (H : ∀ db, Forall stored_mood (mood_entries db) →
                Forall stored_mood (mood_entries (serve_all rs db))).
  { induction rs as [|[e r] rs IH]; intros db Hdb; [done|].
    cbn [serve_all foldl fst snd]. apply IH. by apply serve_stored_moods. }
  apply H. constructor.
Qed.

(** X14.  In every store reached from the empty store through the
    routes the mood history of a pet identifier is answered without
    error and the store is as before; the entries answered are stored
    entries of that identifier, at most a hundred of them, each with an
    intensity from 1 to 10, every entry at least as new as the next, and
    the entries of one timestamp in the order in which they were
    stored, the first of them when the hundred cut them. *)
Theorem mood_history rs e pid :
  ∃ ms,
    get_mood_entries e pid (serve_all rs empty_db) =
      (Ok ms, serve_all rs empty_db) ∧
    MoodEntry_dict <$> ms =
      take 100 (sort_desc "timestamp"
                  (find "pet_id" (VStr pid)
                     (mood_entries (serve_all rs empty_db)))) ∧
    Forall (λ m, me_pet_id m = pid ∧ 1 ≤ me_intensity m ≤ 10) ms ∧
    (length ms ≤ 100)%nat ∧
    Sorted newest_first ms ∧
    (∀ t, find "timestamp" (VStr t) (MoodEntry_dict <$> ms) `prefix_of`
          find "timestamp" (VStr t)
            (find "pet_id" (VStr pid)
               (mood_entries (serve_all rs empty_db)))).
Proof. apply get_mood_entries_stored, reachable_stored_moods. Qed.

(** X15.  A logged mood is listed: in a store reached through the
    routes that holds fewer than a hundred entries of the pet
    identifier, the history answered after a mood of an intensity from
    1 to 10 has been logged holds the new entry, and one entry more
    than the stored ones. *)
Theorem logged_mood_is_listed rs e e' md :
  1 ≤ mc_intensity md ≤ 10 →
  (length (find "pet_id" (VStr (mc_pet_id md))
             (mood_entries (serve_all rs empty_db))) < 100)%nat →
  ∃ ms,
    (get_mood_entries e' (mc_pet_id md)
       (create_mood_entry e md (serve_all rs empty_db)).2).1 = Ok ms ∧
    mkMoodEntry (uuid4 e 0) (mc_emotion md) (mc_intensity md)
                (mc_note md) (now e) (mc_pet_id md) ∈ ms ∧
    length ms =
      S (length (find "pet_id" (VStr (mc_pet_id md))
                   (mood_entries (serve_all rs empty_db)))).
Proof.
  intros Hi Hlen.
  set (db := serve_all rs empty_db) in *.
  set (entry := mkMoodEntry (uuid4 e 0) (mc_emotion md) (mc_intensity md)
                            (mc_note md) (now e) (mc_pet_id md)).
  assert (Hst : Forall stored_mood (mood_entries (create_mood_entry e md db).2)).
  { apply (serve_stored_moods e (POST_moods md)).
    apply reachable_stored_moods. }
  destruct (get_mood_entries_stored e' (mc_pet_id md) _ Hst)
    as (ms & Hrun & Hd & Hv & _).
  exists ms. rewrite Hrun. split; [done|].
  rewrite create_mood_entry_entries in Hd by done. fold entry in Hd.
  rewrite find_app in Hd.
  rewrite (find_singleton _ _ (MoodEntry_dict entry)) in Hd
    by apply stored_mood_pet_id.
  set (old := find "pet_id" (VStr (mc_pet_id md)) (mood_entries db)) in *.
  assert (Hsorted_len :
            length (sort_desc "timestamp" (old ++ [MoodEntry_dict entry])%list)
            = S (length old)).
  { rewrite sort_desc_Permutation, length_app. cbn [length]. lia. }
  rewrite take_ge in Hd by lia.
  split.
  - assert (Hin : MoodEntry_dict entry ∈ MoodEntry_dict <$> ms).
    { rewrite Hd. rewrite sort_desc_Permutation.
      apply elem_of_app. right. by apply list_elem_of_singleton. }
    apply list_elem_of_fmap in Hin as (m & Hm & Hin).
    assert (m = entry) as <-; [|done].
    rewrite Forall_forall in Hv. destruct (Hv _ Hin) as [_ Hmi].
    pose proof (MoodEntry_of_dict "" "" m Hmi) as H1.
    rewrite <- Hm in H1.
    rewrite (MoodEntry_of_dict "" "" entry Hi) in H1. by injection H1.
  - rewrite <- Hsorted_len, <- Hd. by rewrite length_fmap.
Qed.

Lemma logged_mood_is_listed_witness :
  1 ≤ 6 ≤ 10 ∧
  (length (find "pet_id" (VStr "id-0")
             (mood_entries
                (serve_all [(env0, POST_pets (mkPetCreate "Rex"))] empty_db)))
   < 100)%nat ∧
  ∃ ms,
    (get_mood_entries env0 "id-0"
       (create_mood_entry env0 (mkMoodEntryCreate EXCITED 6 None "id-0")
          (serve_all [(env0, POST_pets (mkPetCreate "Rex"))] empty_db)).2).1
      = Ok ms ∧
    mkMoodEntry (uuid4 env0 0) EXCITED 6 None (now env0) "id-0" ∈ ms.
Proof.
  assert (Hi : 1 ≤ 6 ≤ 10) by lia.
  assert (Hlen :
    (length (find "pet_id" (VStr "id-0")
               (mood_entries
                  (serve_all [(env0, POST_pets (mkPetCreate "Rex"))]
                             empty_db))) < 100)%nat) by (cbn; lia).
  split; [exact Hi|]. split; [exact Hlen|].
  destruct (logged_mood_is_listed [(env0, POST_pets (mkPetCreate "Rex"))]
              env0 env0 (mkMoodEntryCreate EXCITED 6 None "id-0") Hi Hlen)
    as (ms & H1 & H2 & _).
  exists ms. split; [exact H1|exact H2].
Defined.

(** ** Sessions of actions on one pet *)

Lemma get_pet_every_env pid db p :
  (∀ e, (get_pet e pid db).1 = Ok p) →
  ∃ d, pet_by_id pid db = Some d ∧ ∀ f t, Pet_of f t d = Ok p.
Proof.
  intros H.
  destruct (get_pet_Ok_inv _ _ _ _ (H env0)) as (d & Hd & _).
  exists d. split; [done|]. intros f t.
  specialize (H (mkEnv t (λ _, f))).
  by rewrite (get_pet_found _ _ _ _ Hd) in H.
Qed.

(** One action on a pet that every environment shows as [p]. *)
Lemma pet_action_step upd_of msg (view : Pet → Pet) e pid db p :
  (∀ f t d p, Pet_of f t d = Ok p →
     ∃ upd, upd_of d = Ok upd ∧ upd !! "id" = None ∧
            Pet_of f t (set_fields upd d) = Ok (view p)) →
  writes upd_of view →
  (∀ e', (get_pet e' pid db).1 = Ok p) →
  storable (view p) = true →
  (pet_action upd_of msg e pid db).1 = Ok (msg, view p) ∧
  ∀ e', (get_pet e' pid (pet_action upd_of msg e pid db).2).1 = Ok (view p).
Proof.
  intros Hview Hw Hp Hst.
  destruct (get_pet_every_env _ _ _ Hp) as (d & Hd & Hshow).
  destruct (Hview _ _ _ _ (Hshow (uuid4 e 0) (now e)))
    as (upd & Hupd & Hid & Hp').
  destruct (pet_action_run upd_of msg e pid db d upd Hd Hupd Hid
              (Hw _ _ _ _ _ (Hshow (uuid4 e 0) (now e)) Hupd Hst))
    as (c' & -> & Hq).
  cbn [fst snd]. rewrite Hp'. split; [done|]. intros e'.
  rewrite (get_pet_found _ _ _ (set_fields upd d));
    [|by rewrite Hq, decide_True].
  cbn [fst].
  destruct (Hview _ _ _ _ (Hshow (uuid4 e' 0) (now e')))
    as (upd' & Hupd' & _ & Hp'').
  by assert (upd' = upd) as -> by congruence.
Qed.

(** Along the table the coins and the experience grow, and happiness
    and health stay between what they were and 100. *)
Lemma action_view_bounds er p :
  pet_coins p ≤ pet_coins (action_view er p) ∧
  pet_experience p ≤ pet_experience (action_view er p) ∧
  Z.min 100 (pet_happiness p) ≤ pet_happiness (action_view er p)
    ≤ Z.max 100 (pet_happiness p) ∧
  Z.min 100 (pet_health p) ≤ pet_health (action_view er p)
    ≤ Z.max 100 (pet_health p).
Proof.
  unfold action_view. destruct er.2; cbn; lia.
Qed.

Lemma session_bounds rs p :
  let q := foldl (λ p er, action_view er p) p rs in
  pet_coins p ≤ pet_coins q ∧
  pet_experience p ≤ pet_experience q ∧
  Z.min 100 (pet_happiness p) ≤ pet_happiness q
    ≤ Z.max 100 (pet_happiness p) ∧
  Z.min 100 (pet_health p) ≤ pet_health q ≤ Z.max 100 (pet_health p).
Proof.
  revert p. induction rs as [|er rs IH]; intros p; cbn [foldl]; [lia|].
  pose proof (action_view_bounds er p).
  specialize (IH (action_view er p)). cbv zeta in IH. lia.
Qed.

Lemma storable_spec p :
  storable p = true ↔
  (int64_min ≤ pet_happiness p ≤ int64_max) ∧
  (int64_min ≤ pet_health p ≤ int64_max) ∧
  (int64_min ≤ pet_coins p ≤ int64_max) ∧
  (int64_min ≤ pet_experience p ≤ int64_max).
Proof.
  unfold storable. rewrite !andb_true_iff, !int64_spec. tauto.
Qed.

(** A session that starts from a pet the store can hold leads to one
    when the coins and the experience it ends with are integers of 8
    bytes. *)
Lemma session_storable rs p :
  let q := foldl (λ p er, action_view er p) p rs in
  storable p = true →
  pet_coins q ≤ int64_max → pet_experience q ≤ int64_max →
  storable q = true.
Proof.
  intros q. rewrite !storable_spec.
  pose proof (session_bounds rs p) as H. cbv zeta in H. fold q in H.
  unfold int64_min, int64_max in *. lia.
Qed.

(** The first step of a session whose last pet can be stored. *)
Lemma session_first er rs p :
  storable p = true →
  storable (foldl (λ p er, action_view er p) (action_view er p) rs) = true →
  storable (action_view er p) = true.
Proof.
  rewrite !storable_spec.
  pose proof (action_view_bounds er p).
  pose proof (session_bounds rs (action_view er p)) as H'. cbv zeta in H'.
  unfold int64_min, int64_max in *. lia.
Qed.

(** A session of actions on one pet shows the fold of the table. *)
Lemma actions_fold rs pid db p :
  Forall (λ er : env * request, action_on pid er.2) rs →
  storable p = true →
  storable (foldl (λ p er, action_view er p) p rs) = true →
  (∀ e, (get_pet e pid db).1 = Ok p) →
  ∀ e, (get_pet e pid (serve_all rs db)).1 =
         Ok (foldl (λ p er, action_view er p) p rs).
Proof.
  revert db p.
  induction rs as [|[e0 r] rs IH]; intros db p Hrs Hst Hend Hp; [done|].
  apply Forall_cons in Hrs as [Hr Hrs]. cbn [serve_all foldl fst snd].
  cbn [foldl] in Hend. pose proof (session_first _ _ _ Hst Hend) as Hst1.
  apply IH; [done..|].
  destruct Hr as [Hr|[Hr|Hr]]; cbn [snd] in Hr; subst r;
    unfold action_view in *; cbn [serve fst snd] in *.
  - rewrite feed_pet_action. apply pet_action_step; [|apply feed_writes|done..].
    intros; by apply feed_updates_Pet.
  - rewrite play_with_pet_action.
    apply pet_action_step; [|apply play_writes|done..].
    intros; by apply play_updates_Pet.
  - rewrite train_pet_action.
    apply pet_action_step; [|apply train_writes|done..].
    intros; by apply train_updates_Pet.
Qed.

Ltac actions_on :=
  repeat (apply Forall_cons; split; [unfold action_on; cbn [snd]; auto|]);
  apply Forall_nil_2.

(** X16.  The actions compose by the table: when every request shows a
    pet as [p], the integers of [p] being integers of 8 bytes as the
    store holds them, after any sequence of feed, play and train
    requests on it every request shows the pet obtained from [p] by
    applying the table of each action in turn, as long as that pet has
    integers of 8 bytes too: the coins and the experience only grow
    along the sequence, so every action of it is one the store
    accepts. *)
Theorem action_session rs pid db p :
  Forall (λ er : env * request, action_on pid er.2) rs →
  storable p = true →
  storable (foldl (λ p er, action_view er p) p rs) = true →
  (∀ e, (get_pet e pid db).1 = Ok p) →
  ∀ e, (get_pet e pid (serve_all rs db)).1 =
         Ok (foldl (λ p er, action_view er p) p rs).
Proof. apply actions_fold. Qed.

Lemma action_session_witness :
  Forall (λ er : env * request, action_on "id-0" er.2)
         [(env0, POST_feed "id-0"); (env0, POST_train "id-0")] ∧
  storable (Pet_new env0 "Rex") = true ∧
  storable (trained (now env0) (fed (now env0) (Pet_new env0 "Rex"))) = true ∧
  (∀ e, (get_pet e "id-0" db_rex).1 = Ok (Pet_new env0 "Rex")) ∧
  (get_pet env0 "id-0"
     (serve_all [(env0, POST_feed "id-0"); (env0, POST_train "id-0")]
                db_rex)).1 =
    Ok (trained (now env0) (fed (now env0) (Pet_new env0 "Rex"))).
Proof.
  assert (Hrs : Forall (λ er : env * request, action_on "id-0" er.2)
                  [(env0, POST_feed "id-0"); (env0, POST_train "id-0")]).
  { actions_on. }
  assert (Hp : ∀ e, (get_pet e "id-0" db_rex).1 = Ok (Pet_new env0 "Rex"))
    by (intros e; reflexivity).
  assert (Hst : storable (Pet_new env0 "Rex") = true) by reflexivity.
  assert (Hend : storable (foldl (λ p er, action_view er p)
                   (Pet_new env0 "Rex")
                   [(env0, POST_feed "id-0"); (env0, POST_train "id-0")])
                 = true) by reflexivity.
  split; [exact Hrs|]. split; [exact Hst|]. split; [exact Hend|].
  split; [exact Hp|].
  exact (action_session _ "id-0" db_rex _ Hrs Hst Hend Hp env0).
Defined.

(** X17.  Feeding and playing commute, when the store accepts both: for
    a pet whose integers are integers of 8 bytes, and are so still
    after the two actions, a feed followed by a play and the play
    followed by the feed, each with its own time, show the same pet,
    the one of the table. *)
Theorem feed_play_commute e1 e2 pid db p :
  storable p = true →
  storable (played (now e2) (fed (now e1) p)) = true →
  (∀ e, (get_pet e pid db).1 = Ok p) →
  ∀ e,
    (get_pet e pid
       (serve_all [(e1, POST_feed pid); (e2, POST_play pid)] db)).1 =
    (get_pet e pid
       (serve_all [(e2, POST_play pid); (e1, POST_feed pid)] db)).1 ∧
    (get_pet e pid
       (serve_all [(e1, POST_feed pid); (e2, POST_play pid)] db)).1 =
    Ok (played (now e2) (fed (now e1) p)).
Proof.
  intros Hst Hend Hp e.
  assert (Heq : fed (now e1) (played (now e2) p) =
                played (now e2) (fed (now e1) p)).
  { unfold fed, played. cbn. f_equal; lia. }
  rewrite (actions_fold [(e1, POST_feed pid); (e2, POST_play pid)] pid db p);
    [|actions_on|done..].
  rewrite (actions_fold [(e2, POST_play pid); (e1, POST_feed pid)] pid db p);
    [|actions_on|done| |done].
  - cbn [foldl]. unfold action_view. cbn [fst snd]. by rewrite Heq.
  - cbn [foldl]. unfold action_view. cbn [fst snd]. by rewrite Heq.
Qed.

Lemma feed_play_commute_witness :
  storable (Pet_new env0 "Rex") = true ∧
  storable (played (now env0) (fed (now env0) (Pet_new env0 "Rex"))) = true ∧
  (∀ e, (get_pet e "id-0" db_rex).1 = Ok (Pet_new env0 "Rex")) ∧
  (get_pet env0 "id-0"
     (serve_all [(env0, POST_feed "id-0"); (env0, POST_play "id-0")]
                db_rex)).1 =
  (get_pet env0 "id-0"
     (serve_all [(env0, POST_play "id-0"); (env0, POST_feed "id-0")]
                db_rex)).1.
Proof.
  assert (Hp : ∀ e, (get_pet e "id-0" db_rex).1 = Ok (Pet_new env0 "Rex"))
    by (intros e; reflexivity).
  assert (Hst : storable (Pet_new env0 "Rex") = true) by reflexivity.
  assert (Hend : storable (played (now env0)
                   (fed (now env0) (Pet_new env0 "Rex"))) = true)
    by reflexivity.
  split; [exact Hst|]. split; [exact Hend|]. split; [exact Hp|].
  exact (proj1 (feed_play_commute env0 env0 "id-0" db_rex _
                  Hst Hend Hp env0)).
Defined.

Lemma fed_many t (n : nat) p :
  pet_happiness (Nat.iter (S n) (fed t) p) =
    Z.min 100 (pet_happiness p + 15 * Z.of_nat (S n)) ∧
  pet_health (Nat.iter (S n) (fed t) p) =
    Z.min 100 (pet_health p + 10 * Z.of_nat (S n)) ∧
  pet_coins (Nat.iter (S n) (fed t) p) = pet_coins p + 5 * Z.of_nat (S n) ∧
  pet_experience (Nat.iter (S n) (fed t) p) =
    pet_experience p + 10 * Z.of_nat (S n) ∧
  pet_stage (Nat.iter (S n) (fed t) p) = pet_stage p.
Proof.
  induction n as [|n IH].
  - cbn. repeat split; lia.
  - rewrite (Nat.iter_succ (S n)).
    remember (Nat.iter (S n) (fed t) p) as q eqn:Hq.
    destruct IH as (Hh & Hhe & Hc & Hx & Hs).
    unfold fed.
    cbn [pet_happiness pet_health pet_coins pet_experience pet_stage].
    rewrite Hh, Hhe, Hc, Hx, Hs. repeat split; lia.
Qed.

Lemma foldl_feeds e pid (n : nat) p :
  foldl (λ p er, action_view er p) p (replicate n (e, POST_feed pid)) =
  Nat.iter n (fed (now e)) p.
Proof.
  revert p. induction n as [|n IH]; intros p; [done|].
  cbn [replicate foldl]. rewrite IH. unfold action_view. cbn [fst snd].
  symmetry. apply Nat.iter_succ_r.
Qed.

(** X18.  Repeated feeding saturates: after n feeds in a row, one at
    least, of a pet shown with happiness h, health he, coins c and
    experience x, all integers of 8 bytes, the pet is shown with
    happiness min(100, h + 15 n), health min(100, he + 10 n), coins
    c + 5 n and experience x + 10 n, at the stage it had, as long as
    c + 5 n and x + 10 n are integers of 8 bytes. *)
Theorem repeated_feeds (n : nat) e0 pid db p :
  (0 < n)%nat →
  storable p = true →
  pet_coins p + 5 * Z.of_nat n ≤ int64_max →
  pet_experience p + 10 * Z.of_nat n ≤ int64_max →
  (∀ e, (get_pet e pid db).1 = Ok p) →
  ∀ e,
    ∃ p',
      (get_pet e pid (serve_all (replicate n (e0, POST_feed pid)) db)).1
        = Ok p' ∧
      pet_happiness p' = Z.min 100 (pet_happiness p + 15 * Z.of_nat n) ∧
      pet_health p' = Z.min 100 (pet_health p + 10 * Z.of_nat n) ∧
      pet_coins p' = pet_coins p + 5 * Z.of_nat n ∧
      pet_experience p' = pet_experience p + 10 * Z.of_nat n ∧
      pet_stage p' = pet_stage p.
Proof.
  intros Hn Hst Hc Hx Hp e. destruct n as [|n]; [lia|].
  pose proof (fed_many (now e0) n p) as Hmany.
  exists (Nat.iter (S n) (fed (now e0)) p). split; [|exact Hmany].
  rewrite <- foldl_feeds with (pid := pid).
  apply actions_fold; [apply Forall_replicate; by left|done| |done].
  apply session_storable; [done|rewrite foldl_feeds..].
  - destruct Hmany as (_ & _ & -> & _). exact Hc.
  - destruct Hmany as (_ & _ & _ & -> & _). exact Hx.
Qed.

Lemma repeated_feeds_witness :
  (0 < 7)%nat ∧
  storable (Pet_new env0 "Rex") = true ∧
  100 + 5 * Z.of_nat 7 ≤ int64_max ∧
  0 + 10 * Z.of_nat 7 ≤ int64_max ∧
  (∀ e, (get_pet e "id-0" db_rex).1 = Ok (Pet_new env0 "Rex")) ∧
  ∃ p',
    (get_pet env0 "id-0"
       (serve_all (replicate 7 (env0, POST_feed "id-0")) db_rex)).1 = Ok p' ∧
    pet_happiness p' = Z.min 100 (50 + 15 * Z.of_nat 7).
Proof.
  assert (Hn : (0 < 7)%nat) by lia.
  assert (Hp : ∀ e, (get_pet e "id-0" db_rex).1 = Ok (Pet_new env0 "Rex"))
    by (intros e; reflexivity).
  assert (Hc : 100 + 5 * Z.of_nat 7 ≤ int64_max) by (by compute).
  assert (Hx : 0 + 10 * Z.of_nat 7 ≤ int64_max) by (by compute).
  assert (Hst : storable (Pet_new env0 "Rex") = true) by reflexivity.
  split; [exact Hn|]. split; [exact Hst|]. split; [exact Hc|].
  split; [exact Hx|]. split; [exact Hp|].
  destruct (repeated_feeds 7 env0 "id-0" db_rex _ Hn Hst Hc Hx Hp env0)
    as (p' & H1 & H2 & _).
  exists p'. split; [exact H1|exact H2].
Defined.

Lemma foldl_trains e pid (n : nat) p :
  foldl (λ p er, action_view er p) p (replicate n (e, POST_train pid)) =
  Nat.iter n (trained (now e)) p.
Proof.
  revert p. induction n as [|n IH]; intros p; [done|].
  cbn [replicate foldl]. rewrite IH. unfold action_view. cbn [fst snd].
  symmetry. apply Nat.iter_succ_r.
Qed.

Lemma trained_many t (n : nat) p :
  pet_experience p = 0 → pet_stage p = EGG →
  pet_experience (Nat.iter n (trained t) p) = 25 * Z.of_nat n ∧
  pet_coins (Nat.iter n (trained t) p) = pet_coins p + 12 * Z.of_nat n ∧
  pet_stage (Nat.iter n (trained t) p) = stage_after_trainings n.
Proof.
  intros Hx Hs.
  induction n as [|n (IHx & IHc & IHs)];
    [cbn; rewrite Hx, Hs; repeat split; lia|].
  rewrite Nat.iter_succ.
  remember (Nat.iter n (trained t) p) as q eqn:Hq.
  unfold trained. cbn [pet_experience pet_coins pet_stage].
  rewrite IHx, IHc, IHs.
  split; [lia|]. split; [lia|].
  unfold stage_after_trainings, progression.
  repeat match goal with
         | |- context [(?a <? ?b)%nat] =>
             destruct (Nat.ltb_spec a b)
         end; try lia;
    repeat match goal with
           | |- context [?a <=? ?b] => destruct (Z.leb_spec a b)
           end; try done; lia.
Qed.

(** X19.  Training alone takes a fresh pet to legendary in twelve
    sessions: after n train requests on a pet shown with experience 0
    at stage egg, its integers being integers of 8 bytes, the pet is
    shown with experience 25 n, at stage egg for n below 2, baby from 2,
    adult from 6 and legendary from 12, as long as its coins plus 12 n
    and the experience 25 n are integers of 8 bytes. *)
Theorem repeated_trainings (n : nat) e0 pid db p :
  pet_experience p = 0 → pet_stage p = EGG →
  storable p = true →
  pet_coins p + 12 * Z.of_nat n ≤ int64_max →
  25 * Z.of_nat n ≤ int64_max →
  (∀ e, (get_pet e pid db).1 = Ok p) →
  ∀ e,
    ∃ p',
      (get_pet e pid (serve_all (replicate n (e0, POST_train pid)) db)).1
        = Ok p' ∧
      pet_experience p' = 25 * Z.of_nat n ∧
      pet_stage p' = stage_after_trainings n.
Proof.
  intros Hx Hs Hst Hc Hxn Hp e.
  destruct (trained_many (now e0) n p Hx Hs) as (Hmx & Hmc & Hms).
  exists (Nat.iter n (trained (now e0)) p). split; [|done].
  rewrite <- foldl_trains with (pid := pid).
  apply actions_fold;
    [apply Forall_replicate; right; by right|done| |done].
  apply session_storable; [done|rewrite foldl_trains..].
  - by rewrite Hmc.
  - by rewrite Hmx.
Qed.

Lemma repeated_trainings_witness :
  pet_experience (Pet_new env0 "Rex") = 0 ∧
  pet_stage (Pet_new env0 "Rex") = EGG ∧
  storable (Pet_new env0 "Rex") = true ∧
  100 + 12 * Z.of_nat 12 ≤ int64_max ∧
  25 * Z.of_nat 12 ≤ int64_max ∧
  (∀ e, (get_pet e "id-0" db_rex).1 = Ok (Pet_new env0 "Rex")) ∧
  ∃ p',
    (get_pet env0 "id-0"
       (serve_all (replicate 12 (env0, POST_train "id-0")) db_rex)).1
      = Ok p' ∧
    pet_experience p' = 25 * Z.of_nat 12 ∧
    pet_stage p' = stage_after_trainings 12.
Proof.
  assert (Hx : pet_experience (Pet_new env0 "Rex") = 0) by reflexivity.
  assert (Hs : pet_stage (Pet_new env0 "Rex") = EGG) by reflexivity.
  assert (Hp : ∀ e, (get_pet e "id-0" db_rex).1 = Ok (Pet_new env0 "Rex"))
    by (intros e; reflexivity).
  assert (Hst : storable (Pet_new env0 "Rex") = true) by reflexivity.
  assert (Hc : 100 + 12 * Z.of_nat 12 ≤ int64_max) by (by compute).
  assert (Hxn : 25 * Z.of_nat 12 ≤ int64_max) by (by compute).
  split; [exact Hx|]. split; [exact Hs|]. split; [exact Hst|].
  split; [exact Hc|]. split; [exact Hxn|]. split; [exact Hp|].
  exact (repeated_trainings 12 env0 "id-0" db_rex _ Hx Hs Hst Hc Hxn Hp env0).
Defined.

(** ** Stores built through the routes *)

Lemma typed_int k v :
  k ∈ int_keys → typed_at k v = true → ∃ z, v = VInt z.
Proof.
  intros Hk. unfold typed_at. rewrite bool_decide_eq_true_2 by done.
  destruct v; try done. by eexists.
Qed.

Lemma typed_str k v :
  k ∉ int_keys → k ∈ str_keys → typed_at k v = true → ∃ s, v = VStr s.
Proof.
  intros Hn Hk. unfold typed_at.
  rewrite bool_decide_eq_false_2, bool_decide_eq_true_2 by done.
  destruct v; try done. by eexists.
Qed.

Lemma typed_stage v :
  typed_at "stage" v = true → ∃ st, v = VStr (PetStage_value st).
Proof.
  unfold typed_at. cbn. destruct v as [| | |s]; try done.
  intros H. apply bool_decide_eq_true in H as [st Hst].
  exists st. by rewrite (PetStage_of_value _ _ Hst).
Qed.

Lemma typed_time k v :
  k ∈ time_keys → k ∉ int_keys → k ∉ str_keys → k ≠ "stage" →
  typed_at k v = true → v = VNone ∨ ∃ s, v = VStr s.
Proof.
  intros Hk Hi Hs Hst. unfold typed_at.
  rewrite (bool_decide_eq_false_2 (k ∈ int_keys)) by done.
  rewrite (bool_decide_eq_false_2 (k ∈ str_keys)) by done.
  rewrite (bool_decide_eq_false_2 (k = "stage")) by done.
  rewrite bool_decide_eq_true_2 by done.
  destruct v; try done; eauto.
Qed.

Ltac in_keys := apply (bool_decide_unpack _); reflexivity.

Ltac not_in_keys :=
  let H := fresh in
  intros H;
  repeat (apply elem_of_cons in H as [H|H]; [discriminate H|]);
  by apply elem_of_nil in H.

Lemma field_int_change d d' k def z :
  k ∈ int_keys → typed_change d d' →
  field_int d k def = Ok z → ∃ z', field_int d' k def = Ok z'.
Proof.
  intros Hk Hc H. unfold field_int in *.
  destruct (Hc k) as [->|(v & -> & Hv)]; [by eexists|].
  destruct (typed_int k v Hk Hv) as [z' ->]. by eexists.
Qed.

Lemma field_str_change d d' k def s :
  k ∉ int_keys → k ∈ str_keys → typed_change d d' →
  field_str d k def = Ok s → ∃ s', field_str d' k def = Ok s'.
Proof.
  intros Hn Hk Hc H. unfold field_str in *.
  destruct (Hc k) as [->|(v & -> & Hv)]; [by eexists|].
  destruct (typed_str k v Hn Hk Hv) as [s' ->]. by eexists.
Qed.

Lemma field_stage_change d d' st :
  typed_change d d' →
  field_stage d = Ok st → ∃ st', field_stage d' = Ok st'.
Proof.
  intros Hc H. unfold field_stage in *.
  destruct (Hc "stage") as [->|(v & -> & Hv)]; [by eexists|].
  destruct (typed_stage v Hv) as [st' ->].
  rewrite PetStage_of_value_eq. by eexists.
Qed.

Lemma field_opt_str_change d d' k o :
  k ∈ time_keys → k ∉ int_keys → k ∉ str_keys → k ≠ "stage" →
  typed_change d d' →
  field_opt_str d k = Ok o → ∃ o', field_opt_str d' k = Ok o'.
Proof.
  intros Hk Hi Hs Hst Hc H. unfold field_opt_str in *.
  destruct (Hc k) as [->|(v & -> & Hv)]; [by eexists|].
  destruct (typed_time k v Hk Hi Hs Hst Hv) as [->|[s ->]]; by eexists.
Qed.

Lemma valid_pet_change d d' :
  typed_change d d' → valid_pet d → valid_pet d'.
Proof.
  intros Hc Hd f t. destruct (Hd f t) as [p Hp].
  apply Pet_of_inv in Hp
    as (Hid & Hn & Hs & Hh & Hhe & Hco & Hx & Hf & Hpl & Htr & Hcr).
  destruct (field_str_change d d' "id" _ _ ltac:(not_in_keys) ltac:(in_keys)
              Hc Hid) as [? ?].
  destruct (field_str_change d d' "name" _ _ ltac:(not_in_keys)
              ltac:(in_keys) Hc Hn) as [? ?].
  destruct (field_stage_change d d' _ Hc Hs) as [? ?].
  destruct (field_int_change d d' "happiness" _ _ ltac:(in_keys) Hc Hh)
    as [? ?].
  destruct (field_int_change d d' "health" _ _ ltac:(in_keys) Hc Hhe)
    as [? ?].
  destruct (field_int_change d d' "coins" _ _ ltac:(in_keys) Hc Hco)
    as [? ?].
  destruct (field_int_change d d' "experience" _ _ ltac:(in_keys) Hc Hx)
    as [? ?].
  destruct (field_opt_str_change d d' "last_fed" _ ltac:(in_keys)
              ltac:(not_in_keys) ltac:(not_in_keys) ltac:(done) Hc Hf)
    as [? ?].
  destruct (field_opt_str_change d d' "last_played" _ ltac:(in_keys)
              ltac:(not_in_keys) ltac:(not_in_keys) ltac:(done) Hc Hpl)
    as [? ?].
  destruct (field_opt_str_change d d' "last_trained" _ ltac:(in_keys)
              ltac:(not_in_keys) ltac:(not_in_keys) ltac:(done) Hc Htr)
    as [? ?].
  destruct (field_str_change d d' "created_at" _ _ ltac:(not_in_keys)
              ltac:(in_keys) Hc Hcr) as [? ?].
  eexists. by apply Pet_of_intro.
Qed.

Lemma typed_change_set_fields upd d :
  (∀ k v, upd !! k = Some v → typed_at k v = true) →
  typed_change d (set_fields upd d).
Proof.
  intros Hupd k. rewrite lookup_set_fields.
  destruct (upd !! k) as [v|] eqn:E; [right|by left].
  exists v. split; [done|]. by apply Hupd.
Qed.

Ltac typed_inserts :=
  let k := fresh "k" in
  let v := fresh "v" in
  intros k v; rewrite ?lookup_insert, ?lookup_empty;
  repeat case_decide; subst; try done; by intros [= <-].

Lemma feed_updates_typed t d upd :
  feed_updates t d = Ok upd → ∀ k v, upd !! k = Some v → typed_at k v = true.
Proof.
  intros H. destruct (feed_updates_inv _ _ _ H) as (?&?&?&?&_&_&_&_&->).
  typed_inserts.
Qed.

Lemma play_updates_typed t d upd :
  play_updates t d = Ok upd → ∀ k v, upd !! k = Some v → typed_at k v = true.
Proof.
  intros H. destruct (play_updates_inv _ _ _ H) as (?&?&?&_&_&_&->).
  typed_inserts.
Qed.

Lemma train_updates_typed t d upd :
  train_updates t d = Ok upd → ∀ k v, upd !! k = Some v → typed_at k v = true.
Proof.
  intros H. destruct (train_updates_inv _ _ _ H) as (?&?&?&?&_&_&_&_&->).
  unfold evolve.
  repeat match goal with
         | |- context [if ?b then _ else _] => destruct b
         end; typed_inserts.
Qed.

Lemma update_data_typed u k v :
  update_data_of u !! k = Some v → typed_at k v = true.
Proof.
  rewrite update_data_lookup. unfold PetUpdate_dict.
  rewrite ?lookup_insert, ?lookup_empty.
  repeat case_decide; subst; try done.
  - destruct (pu_name u); cbn; [by intros [= <-]|done].
  - destruct (pu_happiness u); cbn; [by intros [= <-]|done].
  - destruct (pu_health u); cbn; [by intros [= <-]|done].
  - destruct (pu_coins u); cbn; [by intros [= <-]|done].
Qed.

Lemma mood_update_typed nh ce d d' :
  stored_pet d → apply_update (mood_update nh ce) d = Some d' → typed_change d d'.
Proof.
  intros (h & he & c & x & Hh & Hhe & Hc & Hx) Hm k.
  destruct (mood_update_inv _ _ _ _ Hm)
    as (Hh' & [[_ Hc']|(c0 & _ & _ & Hc')] & [[_ Hx']|(x0 & _ & _ & Hx')]);
  (destruct (decide (k = "happiness")) as [->|?]; [right; by eexists|];
   destruct (decide (k = "coins")) as [->|?]; [right; by eexists|];
   destruct (decide (k = "experience")) as [->|?]; [right; by eexists|];
   left; by apply (mood_update_other _ _ _ _ _ Hm)).
Qed.

Lemma valid_pet_dict p : valid_pet (Pet_dict p).
Proof. intros f t. exists p. apply Pet_of_dict. Qed.

(** The integers of a pet document. *)
Lemma encodes_opt_str o : encodes (opt_str o) = true.
Proof. by destruct o. Qed.

Lemma encodable_Pet_dict p : encodable (Pet_dict p) = storable p.
Proof.
  unfold Pet_dict. rewrite ?encodable_insert by (by map_lookup).
  rewrite encodable_empty, !encodes_opt_str. cbn [encodes].
  unfold storable. by rewrite !andb_true_r, !andb_assoc.
Qed.

(** An applied update of a mood leaves integers of 8 bytes. *)
Lemma mood_update_keeps_int64 nh ce (d d' : doc) :
  int64 nh = true → int64 ce = true →
  apply_update (mood_update nh ce) d = Some d' →
  encodable d = true → encodable d' = true.
Proof.
  intros Hn Hce Hm. rewrite !encodable_spec. intros Hd k z.
  destruct (mood_update_inv _ _ _ _ Hm)
    as (Hh' & [[_ Hc']|(c0 & _ & ? & Hc')] & [[_ Hx']|(x0 & _ & ? & Hx')]);
  (destruct (decide (k = "happiness")) as [->|?];
     [rewrite Hh'; congruence|];
   destruct (decide (k = "coins")) as [->|?];
     [rewrite Hc'; congruence|];
   destruct (decide (k = "experience")) as [->|?];
     [rewrite Hx'; intros [= <-]; done|];
   rewrite (mood_update_other _ _ _ _ _ Hm) by done; apply Hd).
Qed.

(** One request keeps the pets well formed. *)
Lemma serve_good_pets e r db :
  Forall good_pet (pets db) → Forall good_pet (pets (serve e r db)).
Proof.
  intros Hdb.
  assert (Haction : ∀ upd_of msg pid,
            (∀ d upd, upd_of d = Ok upd → upd !! "id" = None) →
            (∀ d upd, upd_of d = Ok upd → int_update upd) →
            (∀ d upd, upd_of d = Ok upd →
               ∀ k v, upd !! k = Some v → typed_at k v = true) →
            Forall good_pet (pets (pet_action upd_of msg e pid db).2)).
  { intros upd_of msg pid Hid Hint Hty.
    destruct (pet_action_pets upd_of msg e pid db Hid)
      as [->|(d & upd & c' & Hu & Henc & Hc & ->)]; [done|].
    eapply (update_one_Forall good_pet); [|exact Hdb|exact Hc].
    intros d0 d' (Hs & Hv & He) [= <-]. split; [|split].
    - exact (stored_pet_set_fields _ _ (Hint _ _ Hu) Hs).
    - apply (valid_pet_change d0); [|done].
      apply typed_change_set_fields. eauto.
    - by apply encodable_set_fields. }
  destruct r as [pd|q| |q u|q|q|q|md|q| |q]; cbn [serve].
  - unfold create_pet, bind, db_insert_one, lift. cbn [coll_get].
    assert (Hnew : Forall good_pet
              (insert_one
                 (prepare_for_mongo (Pet_dict (Pet_new e (pc_name pd))))
                 (pets db))).
    { apply Forall_app. split; [done|]. apply Forall_singleton.
      split; [apply stored_pet_dict|split; [apply valid_pet_dict|]].
      unfold prepare_for_mongo. by rewrite encodable_Pet_dict. }
    by destruct (Pet_of _ _ _).
  - by rewrite get_pet_keeps_pets.
  - by rewrite get_all_pets_keeps_pets.
  - pose proof (update_data_int u) as Hint.
    pose proof (update_data_typed u) as Hty.
    unfold update_pet.
    generalize dependent (update_data_of u). intros upd Hint Hty.
    rewrite bind_pets by (intros _; apply get_pet_keeps_pets).
    case_bool_decide; [|done].
    unfold db_update_one. rewrite update_encodable_set.
    destruct (encodable upd) eqn:Henc; [|done].
    change (apply_update {| upd_set := upd; upd_inc := [] |})
      with (λ d, Some (set_fields upd d)).
    destruct (update_one_total "id" (VStr q) (set_fields upd) (pets db))
      as [c' Hc].
    cbn [coll_get]. rewrite Hc. cbn [snd coll_set pets].
    eapply (update_one_Forall good_pet); [|exact Hdb|exact Hc].
    intros d0 d' (Hs & Hv & He) [= <-]. split; [|split].
    + exact (stored_pet_set_fields _ _ Hint Hs).
    + apply (valid_pet_change d0); [|done].
      by apply typed_change_set_fields.
    + by apply encodable_set_fields.
  - rewrite feed_pet_action. apply Haction;
      eauto using feed_updates_id, feed_updates_int, feed_updates_typed.
  - rewrite play_with_pet_action. apply Haction;
      eauto using play_updates_id, play_updates_int, play_updates_typed.
  - rewrite train_pet_action. apply Haction;
      eauto using train_updates_id, train_updates_int, train_updates_typed.
  - destruct (decide (1 ≤ mc_intensity md ≤ 10)) as [Hi|Hi];
      [|by rewrite create_mood_entry_invalid].
    pose proof (create_mood_entry_cases e md db Hi) as H.
    cbv zeta in H.
    destruct (pet_by_id (mc_pet_id md) db) as [d0|];
      [destruct (stat d0 "happiness" 50) as [h|x];
       [destruct (update_one _ _ _ _) as [c'|] eqn:Hc|]|];
      rewrite H; try done.
    cbn [snd coll_set pets].
    eapply (update_one_Forall good_pet); [|exact Hdb|exact Hc].
    intros d1 d' (Hs & Hv & He) Hm. split; [|split].
    + exact (mood_update_stored _ _ _ _ Hm Hs).
    + apply (valid_pet_change d1); [|done]. by eapply mood_update_typed.
    + apply (mood_update_keeps_int64 _ _ _ _) with (3 := Hm); [..|done];
        apply int64_spec; unfold int64_min, int64_max; lia.
  - by rewrite get_mood_entries_keeps_pets.
  - by rewrite get_shop_items_keeps_pets.
  - by rewrite get_achievements_keeps_pets.
Qed.

Lemma ShopItem_of_dict f i : ShopItem_of f (ShopItem_dict i) = Ok i.
Proof.
  destruct i as [id n ds pr ca ic].
  unfold ShopItem_of, ShopItem_dict, field_str, field_int.
  cbn [si_id si_name si_description si_price si_category si_icon].
  by map_lookup.
Qed.

Lemma Achievement_of_dict f a : Achievement_of f (Achievement_dict a) = Ok a.
Proof.
  destruct a as [id n ds ic un ua pid].
  unfold Achievement_of, Achievement_dict, field_str, field_bool,
    field_opt_str.
  cbn [ach_id ach_name ach_description ach_icon ach_unlocked ach_unlocked_at
       ach_pet_id].
  map_lookup. cbn [result_bind]. by destruct ua.
Qed.

Lemma parse_all_Ok {A} (f : nat → doc → result A) i ds :
  Forall (λ d, ∀ j, ∃ a, f j d = Ok a) ds →
  ∃ l, parse_all f i ds = Ok l.
Proof.
  intros H. revert i. induction H as [|d ds Hd _ IH]; intros i.
  - by exists [].
  - destruct (Hd i) as [a Ha]. destruct (IH (S i)) as [l Hl].
    exists (a :: l). cbn [parse_all]. by rewrite Ha, Hl.
Qed.

Lemma serve_well_formed e r db : well_formed db → well_formed (serve e r db).
Proof.
  intros [Hp Hm Hi Ha]. split.
  - by apply serve_good_pets.
  - by apply serve_stored_moods.
  - destruct r as [pd|q| |q u|q|q|q|md|q| |q];
      try (by frame Shop_items).
    cbn [serve]. destruct (decide (shop_items db = [])) as [Hs|Hs].
    + rewrite get_shop_items_seeds by done. cbn [snd coll_set shop_items].
      apply Forall_fmap, Forall_forall. intros i _. by exists i.
    + by rewrite get_shop_items_populated.
  - destruct r as [pd|q| |q u|q|q|q|md|q| |q];
      try (by frame Achievements).
    cbn [serve].
    destruct (decide (find "pet_id" (VStr q) (achievements db) = []))
      as [Hf|Hf].
    + destruct (get_achievements_seeds e q db Hf) as (_ & -> & _).
      apply Forall_app. split; [done|].
      apply Forall_fmap, Forall_forall. intros a _. by exists a.
    + by rewrite get_achievements_populated.
Qed.

Lemma reachable_well_formed rs : well_formed (serve_all rs empty_db).
Proof.
  assert (H : ∀ db, well_formed db → well_formed (serve_all rs db)).
  { induction rs as [|[e r] rs IH]; intros db Hdb; [done|].
    cbn [serve_all foldl fst snd]. apply IH. by apply serve_well_formed. }
  apply H. split; constructor.
Qed.

(** The pet shown for a well-formed document can be stored. *)
Lemma Pet_of_storable f t d p :
  Pet_of f t d = Ok p → stored_pet d → encodable d = true →
  storable p = true.
Proof.
  intros Hp (h & he & c & x & Hh & Hhe & Hc & Hx). rewrite encodable_spec.
  intros He. apply Pet_of_inv in Hp as (_&_&_&Hph&Hphe&Hpc&Hpx&_).
  unfold field_int in *. rewrite Hh in Hph. rewrite Hhe in Hphe.
  rewrite Hc in Hpc. rewrite Hx in Hpx. unfold storable.
  injection Hph as <-. injection Hphe as <-. injection Hpc as <-.
  injection Hpx as <-.
  by rewrite (He _ _ Hh), (He _ _ Hhe), (He _ _ Hc), (He _ _ Hx).
Qed.

Lemma no_headroom f t d p :
  Pet_of f t d = Ok p → stored_pet d →
  int64_max < pet_coins p + 25 ∨ int64_max < pet_experience p + 25 →
  ¬ headroom d.
Proof.
  intros Hp (h & he & c & x & Hh & Hhe & Hc & Hx) Hover Hroom.
  apply Pet_of_inv in Hp as (_&_&_&_&_&Hpc&Hpx&_).
  unfold field_int in *. rewrite Hc in Hpc. rewrite Hx in Hpx.
  injection Hpc as Hpc. injection Hpx as Hpx.
  assert (Hin1 : "coins" ∈ ["coins"; "experience"]) by (repeat constructor).
  assert (Hin2 : "experience" ∈ ["coins"; "experience"])
    by (repeat constructor).
  pose proof (Hroom "coins" c Hin1 Hc).
  pose proof (Hroom "experience" x Hin2 Hx). lia.
Qed.

(** An action leads from a pet that can be stored to one that cannot
    only by the coins or the experience. *)
Lemma overflow_grows er p :
  storable p = true → storable (action_view er p) = false →
  int64_max < pet_coins p + 25 ∨ int64_max < pet_experience p + 25.
Proof.
  intros Hst Hnot. apply not_true_iff_false in Hnot.
  rewrite storable_spec in Hst, Hnot.
  unfold action_view, int64_min, int64_max in *.
  destruct er.2; cbn in *; lia.
Qed.

(** The exception of each route on a well-formed store. *)
Lemma outcome_well_formed e r db x :
  well_formed db → outcome e r db = Some x →
  (x = HTTPException 404 "Pet not found" ∧
   ∃ pid, looked_up r = Some pid ∧ pet_by_id pid db = None) ∨
  (x = ValidationError ∧
   ∃ md, r = POST_moods md ∧ ¬ (1 ≤ mc_intensity md ≤ 10)) ∨
  (x = OverflowError ∧
   ∃ pid u, r = PUT_pet pid u ∧ update_int64 u = false) ∨
  (∃ pid d, addressed r = Some pid ∧ pet_by_id pid db = Some d ∧
            ¬ headroom d ∧
            ((x = OverflowError ∧ is_action r) ∨
             (x = WriteError ∧ ∃ md, r = POST_moods md))).
Proof.
  intros [Hp Hm Hi Ha].
  assert (Hvalid : ∀ pid d, pet_by_id pid db = Some d → good_pet d).
  { intros pid d Hd. apply find_one_Some in Hd as [_ Hin].
    rewrite Forall_forall in Hp. by apply Hp. }
  assert (Haction : ∀ upd_of msg er pid,
            (∀ f t d p, Pet_of f t d = Ok p →
               ∃ upd, upd_of d = Ok upd ∧ upd !! "id" = None ∧
                      Pet_of f t (set_fields upd d) = Ok (action_view er p)) →
            writes upd_of (action_view er) →
            refuses upd_of (action_view er) →
            failure (pet_action upd_of msg e pid db).1 = Some x →
            (x = HTTPException 404 "Pet not found" ∧
             pet_by_id pid db = None) ∨
            (x = OverflowError ∧
             ∃ d, pet_by_id pid db = Some d ∧ ¬ headroom d)).
  { intros upd_of msg er pid Hview Hw Hr Hx.
    destruct (pet_by_id pid db) as [d|] eqn:Hd.
    - destruct (Hvalid _ _ Hd) as (Hs & Hv & He).
      destruct (Hv (uuid4 e 0) (now e)) as [p Hpet].
      assert (Hget : (get_pet e pid db).1 = Ok p)
        by (by rewrite (get_pet_found _ _ _ _ Hd)).
      pose proof (Pet_of_storable _ _ _ _ Hpet Hs He) as Hst.
      destruct (storable (action_view er p)) eqn:Hst'.
      + destruct (pet_action_Pet upd_of msg _ e pid db p Hview Hw Hget Hst')
          as (db' & Hrun & _).
        by rewrite Hrun in Hx.
      + rewrite (pet_action_overflow upd_of msg _ e pid db p Hview Hr Hget
                   Hst Hst') in Hx.
        right. split; [by injection Hx|]. exists d. split; [done|].
        exact (no_headroom _ _ _ _ Hpet Hs (overflow_grows _ _ Hst Hst')).
    - rewrite pet_action_not_found in Hx by done.
      left. split; [by injection Hx|done]. }
  assert (Hact : ∀ q, addressed r = Some q → is_action r →
            (x = HTTPException 404 "Pet not found" ∧ pet_by_id q db = None) ∨
            (x = OverflowError ∧
             ∃ d, pet_by_id q db = Some d ∧ ¬ headroom d) →
            looked_up r = Some q →
            (x = HTTPException 404 "Pet not found" ∧
             ∃ pid, looked_up r = Some pid ∧ pet_by_id pid db = None) ∨
            (x = ValidationError ∧
             ∃ md, r = POST_moods md ∧ ¬ (1 ≤ mc_intensity md ≤ 10)) ∨
            (x = OverflowError ∧
             ∃ pid u, r = PUT_pet pid u ∧ update_int64 u = false) ∨
            (∃ pid d, addressed r = Some pid ∧ pet_by_id pid db = Some d ∧
                      ¬ headroom d ∧
                      ((x = OverflowError ∧ is_action r) ∨
                       (x = WriteError ∧ ∃ md, r = POST_moods md)))).
  { intros q Hq Hisa [[-> Hnone]|[-> (d & Hd & Hroom)]] Hl.
    - left. split; [done|]. by exists q.
    - do 3 right. exists q, d. repeat split; try done. by left. }
  destruct r as [pd|q| |q u|q|q|q|md|q| |q]; cbn [outcome looked_up].
  - unfold create_pet, bind, db_insert_one, lift,
      prepare_for_mongo, parse_from_mongo.
    cbn [fst]. by rewrite Pet_of_dict.
  - destruct (pet_by_id q db) as [d|] eqn:Hd.
    + rewrite (get_pet_found _ _ _ _ Hd). cbn [fst].
      destruct (Hvalid _ _ Hd) as (_ & Hv & _).
      destruct (Hv (uuid4 e 0) (now e)) as [p ->]. done.
    + rewrite get_pet_not_found by done. intros [= <-]. left.
      split; [done|]. by exists q.
  - unfold get_all_pets, bind, db_find_all, lift, to_list.
    cbn [coll_get fst].
    destruct (parse_all_Ok
                (λ i pet, Pet_of (uuid4 e i) (now e) (parse_from_mongo pet))
                0 (take 1000 (pets db))) as [l ->]; [|done].
    apply Forall_take. eapply Forall_impl; [exact Hp|].
    intros d (_ & Hv & _) j. apply Hv.
  - destruct (update_int64 u) eqn:Henc; cycle 1.
    { rewrite update_pet_refused by exact Henc. intros [= <-].
      do 2 right. left. split; [reflexivity|]. by exists q, u. }
    destruct (pet_by_id q db) as [d|] eqn:Hd.
    + rewrite (update_pet_found _ _ _ _ _ Hd Henc).
      destruct (Hvalid _ _ Hd) as (_ & Hv & _).
      assert (Hv' : valid_pet (set_fields (update_data_of u) d)).
      { apply (valid_pet_change d); [|done].
        apply typed_change_set_fields, update_data_typed. }
      destruct (Hv' (uuid4 e 0) (now e)) as [p ->]. done.
    + rewrite update_pet_not_found by done. intros [= <-]. left.
      split; [done|]. by exists q.
  - rewrite feed_pet_action. intros Hx.
    apply (Hact q); [done..| |done].
    apply (Haction _ _ (e, POST_feed q) _
             (λ f t d p, feed_updates_Pet f t (now e) d p)
             (feed_writes (now e)) (feed_refuses (now e)) Hx).
  - rewrite play_with_pet_action. intros Hx.
    apply (Hact q); [done..| |done].
    apply (Haction _ _ (e, POST_play q) _
             (λ f t d p, play_updates_Pet f t (now e) d p)
             (play_writes (now e)) (play_refuses (now e)) Hx).
  - rewrite train_pet_action. intros Hx.
    apply (Hact q); [done..| |done].
    apply (Haction _ _ (e, POST_train q) _
             (λ f t d p, train_updates_Pet f t (now e) d p)
             (train_writes (now e)) (train_refuses (now e)) Hx).
  - destruct (decide (1 ≤ mc_intensity md ≤ 10)) as [Hint|Hint].
    + destruct (pet_by_id (mc_pet_id md) db) as [d|] eqn:Hd; cycle 1.
      { pose proof (create_mood_entry_cases e md db Hint) as H.
        cbv zeta in H. rewrite Hd in H. by rewrite H. }
      destruct (Hvalid _ _ Hd)
        as ((h & he & c & x0 & Hh & _ & Hc & Hx0) & _ & He).
      assert (Hstat : stat d "happiness" 50 = Ok h).
      { unfold stat, get. by rewrite Hh. }
      destruct (int64 (c + (10 + mc_intensity md)) && int64 (x0 + 5))
        eqn:Hroom.
      * apply andb_true_iff in Hroom as [Hic Hix].
        destruct (create_mood_entry_rewards e md db d h c x0 Hint Hd Hstat
                    Hc Hx0 Hic Hix) as (d' & -> & _). done.
      * rewrite (create_mood_entry_refused e md db d h c x0 Hint Hd Hstat
                   Hc Hx0 Hroom).
        intros [= <-]. do 3 right. exists (mc_pet_id md), d.
        split; [done|]. split; [done|]. split; [|right; eauto].
        intros Hhead.
        assert (Hin1 : "coins" ∈ ["coins"; "experience"])
          by (repeat constructor).
        assert (Hin2 : "experience" ∈ ["coins"; "experience"])
          by (repeat constructor).
        pose proof (Hhead "coins" c Hin1 Hc).
        pose proof (Hhead "experience" x0 Hin2 Hx0).
        rewrite encodable_spec in He.
        pose proof (proj1 (int64_spec _) (He _ _ Hc)).
        pose proof (proj1 (int64_spec _) (He _ _ Hx0)).
        apply andb_false_iff in Hroom.
        rewrite !int64_false in Hroom.
        unfold int64_min, int64_max in *. lia.
    + rewrite create_mood_entry_invalid by done. intros [= <-]. right. left.
      split; [done|]. by exists md.
  - destruct (get_mood_entries_stored e q db Hm) as (ms & -> & _). done.
  - destruct (decide (shop_items db = [])) as [Hs|Hs].
    + by rewrite get_shop_items_seeds.
    + rewrite get_shop_items_populated by done. cbn [fst].
      destruct (parse_all_Ok (λ i item, ShopItem_of (uuid4 e i) item) 0
                  (take 100 (shop_items db))) as [l' ->]; [|done].
      apply Forall_take. eapply Forall_impl; [exact Hi|].
      intros d0 [i ->] j. exists i. apply ShopItem_of_dict.
  - destruct (decide (find "pet_id" (VStr q) (achievements db) = []))
      as [Hf|Hf].
    + destruct (get_achievements_seeds e q db Hf) as (-> & _). done.
    + rewrite get_achievements_populated by done. cbn [fst].
      destruct (parse_all_Ok
                  (λ i ach, Achievement_of (uuid4 e i) (parse_from_mongo ach))
                  0 (take 100 (find "pet_id" (VStr q) (achievements db))))
        as [l' ->]; [|done].
      apply Forall_take. unfold find. apply Forall_forall. intros d0 Hd0.
      apply list_elem_of_In in Hd0. apply List.filter_In in Hd0 as [Hd0 _].
      apply list_elem_of_In in Hd0.
      rewrite Forall_forall in Ha. destruct (Ha _ Hd0) as [a ->].
      intros j. exists a. apply Achievement_of_dict.
Qed.

(** X20.  The exceptions of the routes on a store built through the
    routes from the empty store.  A request raises in four cases only:
    404 [Pet not found] from a route that looks a pet up, when no pet
    has the identifier; a validation error from the mood route, for an
    intensity outside 1 to 10; [OverflowError] from the update route,
    when an integer it is given is beyond 8 bytes; and, at the bound of
    the store, for a stored pet whose coins or experience are within 25
    of the greatest integer of 8 bytes, [OverflowError] from an action
    and a write error from the mood route.  No other exception is
    raised. *)
Theorem request_failures rs e r x :
  outcome e r (serve_all rs empty_db) = Some x →
  (x = HTTPException 404 "Pet not found" ∧
   ∃ pid, looked_up r = Some pid ∧
          pet_by_id pid (serve_all rs empty_db) = None) ∨
  (x = ValidationError ∧
   ∃ md, r = POST_moods md ∧ ¬ (1 ≤ mc_intensity md ≤ 10)) ∨
  (x = OverflowError ∧
   ∃ pid u, r = PUT_pet pid u ∧ update_int64 u = false) ∨
  (∃ pid d, addressed r = Some pid ∧
            pet_by_id pid (serve_all rs empty_db) = Some d ∧
            ¬ headroom d ∧
            ((x = OverflowError ∧ is_action r) ∨
             (x = WriteError ∧ ∃ md, r = POST_moods md))).
Proof. apply outcome_well_formed, reachable_well_formed. Qed.

Lemma request_failures_witness :
  let rs := [(env0, POST_pets (mkPetCreate "Rex"));
             (env0, PUT_pet "id-0"
                      (mkPetUpdate None None None (Some int64_max)))] in
  let r := POST_feed "id-0" in
  let x := OverflowError in
  outcome env0 r (serve_all rs empty_db) = Some x ∧
  ((x = HTTPException 404 "Pet not found" ∧
    ∃ pid, looked_up r = Some pid ∧
           pet_by_id pid (serve_all rs empty_db) = None) ∨
   (x = ValidationError ∧
    ∃ md, r = POST_moods md ∧ ¬ (1 ≤ mc_intensity md ≤ 10)) ∨
   (x = OverflowError ∧
    ∃ pid u, r = PUT_pet pid u ∧ update_int64 u = false) ∨
   (∃ pid d, addressed r = Some pid ∧
             pet_by_id pid (serve_all rs empty_db) = Some d ∧
             ¬ headroom d ∧
             ((x = OverflowError ∧ is_action r) ∨
              (x = WriteError ∧ ∃ md, r = POST_moods md)))).
Proof.
  intros rs r x.
  assert (H : outcome env0 r (serve_all rs empty_db) = Some x)
    by reflexivity.
  split; [exact H|].
  exact (request_failures rs env0 r x H).
Defined.
